(** * Collaborative canvas: the room replication engine

    A shallow embedding of the server's drawing state machine
    (server/src/drawing-state.ts), the op validator (server/src/protocol.ts),
    the sequenced "msg" handler and the room counter (server/src/server.ts,
    server/src/rooms.ts) and the client's reorder buffer and mirror
    (client/src/net/socket.ts, client/src/state/roomStore.ts).

    Modelling conventions.
    - A JS [Map<string, V>] is a [gmap string V], a JS [Set<string>] a
      [gset string].  Their iteration order (insertion order in JS) is not
      modelled: whatever enumerates a map or a set is compared up to
      permutation.
    - A JS array is a [list]; [push] appends at the end, [pop] removes the
      last element.
    - A JS string is a [string]; one character stands for one code unit.
    - A JS number is a [number]: a rational when finite, or one of NaN and
      the two infinities.  Every finite double is a rational, and the only
      arithmetic the modelled code performs on payload numbers is comparison
      ([Math.min], [Math.max], [Number.isFinite]), which is exact.  The two
      zeros are identified.  Sequence numbers and timestamps are integers.
    - [Date.now()] is an explicit argument [now].
    - Mutation is explicit state passing: a method returns its result with
      the next state. *)

From Stdlib Require Import QArith Ascii.
From stdpp Require Import gmap strings list fin_maps.

Set Warnings "-clear-no-such-hyp".

(** ** Numbers *)

Inductive number : Type :=
  | Fin (q : Q)
  | NaN
  | PosInf
  | NegInf.

(** [Number.isFinite] *)
Definition isFinite (n : number) : bool :=
  match n with Fin _ => true | _ => false end.

(** [Math.min(a, b)] *)
Definition math_min (a b : number) : number :=
  match a, b with
  | NaN, _ | _, NaN => NaN
  | NegInf, _ | _, NegInf => NegInf
  | PosInf, x | x, PosInf => x
  | Fin p, Fin q => if Qle_bool p q then Fin p else Fin q
  end.

(** [Math.max(a, b)] *)
Definition math_max (a b : number) : number :=
  match a, b with
  | NaN, _ | _, NaN => NaN
  | PosInf, _ | _, PosInf => PosInf
  | NegInf, x | x, NegInf => x
  | Fin p, Fin q => if Qle_bool q p then Fin p else Fin q
  end.

(** A finite number with no fractional part. *)
Definition is_integer (n : number) : Prop :=
  match n with
  | Fin q => ∃ z : Z, (q == inject_Z z)%Q
  | _ => False
  end.

(** [lo <= n <= hi] for a finite [n]. *)
Definition in_range (lo hi : Q) (n : number) : Prop :=
  match n with
  | Fin q => (lo <= q)%Q ∧ (q <= hi)%Q
  | _ => False
  end.

(** ** Protocol types (protocol.ts) *)

Inductive Mode : Type := edit | view.

#[global] Instance Mode_eq_dec : EqDecision Mode.
Proof. solve_decision. Defined.

Inductive Tool : Type := brush | eraser | rectangle | circle | square.

Definition Point : Type := number * number.

(** [StrokeStart | StrokePoints | StrokeEnd], shared by client and server ops *)
Inductive StrokeOp : Type :=
  | StrokeStart (strokeId : string) (tool : Tool) (color : string) (w x y : number)
  | StrokePoints (strokeId : string) (pts : list Point)
  | StrokeEnd (strokeId : string).

(** [ClientOp = StrokeStart | StrokePoints | StrokeEnd | UndoReq | RedoReq] *)
Inductive ClientOp : Type :=
  | COp (o : StrokeOp)
  | UndoReq
  | RedoReq.

(** [ServerOp = StrokeStart | StrokePoints | StrokeEnd | UndoApplied | RedoApplied] *)
Inductive ServerOp : Type :=
  | SOp (o : StrokeOp)
  | UndoApplied (strokeId : string)
  | RedoApplied (strokeId : string).

Record OpEnvelope : Type := mkEnvelope {
  env_seq : Z;
  env_op : ServerOp;
  env_by : string;
  env_ts : Z
}.

Record StrokeRecord : Type := mkStroke {
  sr_id : string;
  sr_userId : string;
  sr_tool : Tool;
  sr_color : string;
  sr_w : number;
  sr_points : list Point;
  sr_committed : bool;
  sr_createdAt : Z;
  sr_updatedAt : Z
}.

(** ** The drawing state (drawing-state.ts) *)

Module DrawingState.

Record t : Type := mk {
  strokes : gmap string StrokeRecord;
  committed : gset string;
  undone : gset string;
  committedOrder : list string;
  redoStack : list string
}.

(** [new DrawingState()] *)
Definition empty : t := mk ∅ ∅ ∅ [] [].

Definition set_strokes (m : gmap string StrokeRecord) (s : t) : t :=
  mk m (committed s) (undone s) (committedOrder s) (redoStack s).

Inductive ApplyResult : Type :=
  | Ok (broadcast : option ServerOp)
  | Err (err : string).

(** The [undo] loop: [for (i = length - 1; i >= 0; i--)], with [n = i + 1]. *)
Fixpoint undoScan (order : list string) (cm un : gset string) (n : nat)
  : option string :=
  match n with
  | O => None
  | S i =>
      match order !! i with
      | Some id =>
          if decide (id ∈ cm)
          then if decide (id ∈ un) then undoScan order cm un i else Some id
          else undoScan order cm un i
      | None => undoScan order cm un i
      end
  end.

(** The [redo] loop over the stack read from its top: the argument is the
    stack reversed, the result the chosen id and what is left of the stack
    (reversed as well). *)
Fixpoint redoScan (cm un : gset string) (top_first : list string)
  : option string * list string :=
  match top_first with
  | [] => (None, [])
  | id :: rest =>
      if decide (id ∈ cm)
      then if decide (id ∈ un) then (Some id, rest) else redoScan cm un rest
      else redoScan cm un rest
  end.

Definition applyClientOp (now : Z) (userId : string) (op : ClientOp) (s : t)
  : ApplyResult * t :=
  match op with
  | COp (StrokeStart strokeId tool color w x y) =>
      match strokes s !! strokeId with
      | Some _ => (Err "strokeId already exists", s)
      | None =>
          let rec := mkStroke strokeId userId tool color w [(x, y)] false now now in
          (Ok (Some (SOp (StrokeStart strokeId tool color w x y))),
           set_strokes (<[strokeId := rec]> (strokes s)) s)
      end
  | COp (StrokePoints strokeId pts) =>
      match strokes s !! strokeId with
      | None => (Err "unknown strokeId", s)
      | Some rec =>
          if sr_committed rec then (Err "stroke already committed", s)
          else if negb (bool_decide (sr_userId rec = userId))
          then (Err "stroke owned by another user", s)
          else
            let rec' := mkStroke (sr_id rec) (sr_userId rec) (sr_tool rec)
                          (sr_color rec) (sr_w rec) (sr_points rec ++ pts)
                          (sr_committed rec) (sr_createdAt rec) now in
            (Ok (Some (SOp (StrokePoints strokeId pts))),
             set_strokes (<[strokeId := rec']> (strokes s)) s)
      end
  | COp (StrokeEnd strokeId) =>
      match strokes s !! strokeId with
      | None => (Err "unknown strokeId", s)
      | Some rec =>
          if sr_committed rec then (Err "stroke already committed", s)
          else if negb (bool_decide (sr_userId rec = userId))
          then (Err "stroke owned by another user", s)
          else
            let rec' := mkStroke (sr_id rec) (sr_userId rec) (sr_tool rec)
                          (sr_color rec) (sr_w rec) (sr_points rec)
                          true (sr_createdAt rec) now in
            (Ok (Some (SOp (StrokeEnd strokeId))),
             mk (<[strokeId := rec']> (strokes s))
                ({[strokeId]} ∪ committed s)
                (undone s ∖ {[strokeId]})
                (committedOrder s ++ [strokeId])
                [])
      end
  | UndoReq =>
      match undoScan (committedOrder s) (committed s) (undone s)
              (length (committedOrder s)) with
      | Some id =>
          (Ok (Some (UndoApplied id)),
           mk (strokes s) (committed s) ({[id]} ∪ undone s)
              (committedOrder s) (redoStack s ++ [id]))
      | None => (Ok None, s)
      end
  | RedoReq =>
      match redoScan (committed s) (undone s) (reverse (redoStack s)) with
      | (Some id, rest) =>
          (Ok (Some (RedoApplied id)),
           mk (strokes s) (committed s) (undone s ∖ {[id]})
              (committedOrder s) (reverse rest))
      | (None, rest) =>
          (Ok None,
           mk (strokes s) (committed s) (undone s) (committedOrder s) (reverse rest))
      end
  end.

(** [getSnapshot()]: the sync payload for late joiners *)
Record Snapshot : Type := mkSnapshot {
  snap_strokes : list StrokeRecord;
  snap_undone : list string;
  snap_inProgress : list StrokeRecord
}.

Definition getSnapshot (s : t) : Snapshot :=
  let values := (map_to_list (strokes s)).*2 in
  mkSnapshot
    (filter (λ rec, sr_committed rec = true) values)
    (elements (undone s))
    (filter (λ rec, sr_committed rec = false) values).

(** [DrawingStatePersisted] *)
Record Persisted : Type := mkPersisted {
  p_seq : Z;
  p_strokes : list StrokeRecord;
  p_undone : list string;
  p_committedOrder : list string;
  p_redoStack : list string
}.

(** The list [committedStrokes] built by the loop of [exportPersisted]. *)
Definition committedStrokes (s : t) : list StrokeRecord :=
  omap (λ id, match strokes s !! id with
              | Some rec => if sr_committed rec then Some rec else None
              | None => None
              end) (committedOrder s).

(** [exportPersisted(seq)] *)
Definition exportPersisted (seq : Z) (s : t) : Persisted :=
  mkPersisted seq (committedStrokes s) (elements (undone s))
    (committedOrder s) (redoStack s).

(** One turn of the loop of [fromPersisted]. *)
Definition restoreStroke (ds : t) (rec : StrokeRecord) : t :=
  mk (<[sr_id rec := rec]> (strokes ds)) ({[sr_id rec]} ∪ committed ds)
     (undone ds) (committedOrder ds) (redoStack ds).

(** [DrawingState.fromPersisted(p)] *)
Definition fromPersisted (p : Persisted) : t :=
  let ds := foldl restoreStroke empty (p_strokes p) in
  mk (strokes ds) (committed ds) (list_to_set (p_undone p))
     (p_committedOrder p) (p_redoStack p).

(** The undo target in the words of the specification: the last id of
    [committedOrder] that is in [committed] and not in [undone]. *)
Definition latestActive (s : t) : option string :=
  last (filter (λ id, id ∈ committed s ∧ id ∉ undone s) (committedOrder s)).

(** The representation invariant of the drawing state. *)
Record wf (s : t) : Prop := mk_wf {
  wf_key : ∀ id rec, strokes s !! id = Some rec → sr_id rec = id;
  wf_flag : ∀ id rec,
    strokes s !! id = Some rec → sr_committed rec = true ↔ id ∈ committed s;
  wf_known : ∀ id, id ∈ committed s → is_Some (strokes s !! id);
  wf_order : ∀ id, id ∈ committedOrder s ↔ id ∈ committed s;
  wf_order_nodup : NoDup (committedOrder s);
  wf_undone : undone s ⊆ committed s;
  wf_redo : ∀ id, id ∈ redoStack s → id ∈ committed s ∧ id ∈ undone s;
  wf_redo_nodup : NoDup (redoStack s)
}.

(** The ids a renderer draws: committed and not undone. *)
Definition active (s : t) : gset string := committed s ∖ undone s.

(** The states a room's drawing state goes through: empty when the room is
    first created, changed by ops that succeed, and rebuilt, when the room is
    created again, from what the room exported earlier. *)
Inductive reachable : t → Prop :=
  | reachable_empty : reachable empty
  | reachable_apply now userId op s broadcast s' :
      reachable s →
      applyClientOp now userId op s = (Ok broadcast, s') →
      reachable s'
  | reachable_restore seq s :
      reachable s →
      reachable (fromPersisted (exportPersisted seq s)).

(** [users.length] undo requests, one by each user of the list in turn. *)
Definition undoAll (now : Z) (users : list string) (s : t) : t :=
  foldl (λ st u, (applyClientOp now u UndoReq st).2) s users.

(** The same for redo requests. *)
Definition redoAll (now : Z) (users : list string) (s : t) : t :=
  foldl (λ st u, (applyClientOp now u RedoReq st).2) s users.

(** A call of [applyClientOp]: the clock, the user, the op. *)
Definition request : Type := Z * string * ClientOp.

(** The calls of a list one after the other, whatever they return. *)
Definition runAll (reqs : list request) (s : t) : t :=
  foldl (λ st (r : request), (applyClientOp r.1.1 r.1.2 r.2 st).2) s reqs.

Definition isUndo (op : ClientOp) : bool :=
  match op with UndoReq => true | _ => false end.

Definition isRedo (op : ClientOp) : bool :=
  match op with RedoReq => true | _ => false end.

(** [stroke_start] and [stroke_points]: the ops that commit nothing and undo
    nothing. *)
Definition isDraw (op : ClientOp) : bool :=
  match op with
  | COp (StrokeStart _ _ _ _ _ _) | COp (StrokePoints _ _) => true
  | _ => false
  end.

(** The part of the state undo and redo read and write. *)
Definition history (s : t)
  : gset string * gset string * list string * list string :=
  (committed s, undone s, committedOrder s, redoStack s).

End DrawingState.

(** ** Untyped payloads and the validator (protocol.ts) *)

(** What arrives on the wire: a value the server knows nothing about. *)
#[local] Unset Elimination Schemes.
Inductive JsVal : Type :=
  | JUndefined
  | JNull
  | JBool (b : bool)
  | JNum (n : number)
  | JStr (s : string)
  | JArr (items : list JsVal)
  | JObj (fields : list (string * JsVal)).
#[local] Set Elimination Schemes.

Module Validator.

Inductive result (A : Type) : Type :=
  | Valid (v : A)
  | Invalid (err : string).
Arguments Valid {A} v.
Arguments Invalid {A} err.

(** [isObj]: [typeof v === "object" && v !== null]; arrays are objects too. *)
Definition isObj (v : JsVal) : bool :=
  match v with JArr _ | JObj _ => true | _ => false end.

(** [raw.key], for the keys the validator reads (none of them is an array's
    own property). *)
Fixpoint assoc (key : string) (fields : list (string * JsVal)) : JsVal :=
  match fields with
  | [] => JUndefined
  | (k, v) :: rest => if String.eqb k key then v else assoc key rest
  end.

Definition getField (raw : JsVal) (key : string) : JsVal :=
  match raw with
  | JObj fields => assoc key fields
  | _ => JUndefined
  end.

(** [isNum]: a number that is finite *)
Definition isNum (v : JsVal) : option number :=
  match v with
  | JNum n => if isFinite n then Some n else None
  | _ => None
  end.

(** [isStr]: a string that is not empty *)
Definition isStr (v : JsVal) : option string :=
  match v with
  | JStr s => if (0 <? String.length s)%nat then Some s else None
  | _ => None
  end.

Definition isTool (v : JsVal) : option Tool :=
  match v with
  | JStr "brush" => Some brush
  | JStr "eraser" => Some eraser
  | JStr "rectangle" => Some rectangle
  | JStr "circle" => Some circle
  | JStr "square" => Some square
  | _ => None
  end.

(** One element of [pts]: an array of exactly two finite numbers. *)
Definition isPt (p : JsVal) : option Point :=
  match p with
  | JArr [a; b] =>
      match isNum a, isNum b with
      | Some x, Some y => Some (x, y)
      | _, _ => None
      end
  | _ => None
  end.

(** [isPts]: every element passes, or the whole value is refused. *)
Fixpoint allPts (items : list JsVal) : option (list Point) :=
  match items with
  | [] => Some []
  | p :: rest =>
      match isPt p with
      | Some pt =>
          match allPts rest with
          | Some pts => Some (pt :: pts)
          | None => None
          end
      | None => None
      end
  end.

Definition isPts (v : JsVal) : option (list Point) :=
  match v with
  | JArr items => allPts items
  | _ => None
  end.

Record JoinPayload : Type := mkJoin {
  roomId : string;
  name : option string;
  mode : Mode;
  clientId : option string
}.

(** [s.slice(0, n)] *)
Definition slice0 (n : nat) (s : string) : string := String.substring 0 n s.

Definition validateJoin (raw : JsVal) : result JoinPayload :=
  if negb (isObj raw) then Invalid "join payload must be an object"
  else
    match isStr (getField raw "roomId") with
    | None => Invalid "roomId is required"
    | Some roomId =>
        let name :=
          match getField raw "name" with
          | JStr s => Some (slice0 32 s)
          | _ => None
          end in
        let mode :=
          match getField raw "mode" with
          | JStr "view" => view
          | _ => edit
          end in
        let clientId :=
          match getField raw "clientId" with
          | JStr s => if (String.length s <=? 64)%nat then Some s else None
          | _ => None
          end in
        Valid (mkJoin roomId name mode clientId)
    end.

(** The width clamp of [stroke_start]: [Math.max(1, Math.min(64, raw.w))]. *)
Definition clampWidth (w : number) : number :=
  math_max (Fin 1) (math_min (Fin 64) w).

Definition validateClientOp (raw : JsVal) : result ClientOp :=
  if negb (isObj raw) then Invalid "op must be an object"
  else
    match isStr (getField raw "t") with
    | None => Invalid "op.t is required"
    | Some t =>
        if String.eqb t "undo" then Valid UndoReq
        else if String.eqb t "redo" then Valid RedoReq
        else if String.eqb t "stroke_start" then
          match isStr (getField raw "strokeId") with
          | None => Invalid "strokeId required"
          | Some strokeId =>
          match isTool (getField raw "tool") with
          | None => Invalid "tool must be brush|eraser|rectangle|circle|square"
          | Some tool =>
          match isStr (getField raw "color") with
          | None => Invalid "color required"
          | Some color =>
          match isNum (getField raw "w") with
          | None => Invalid "w required"
          | Some raw_w =>
          match isNum (getField raw "x"), isNum (getField raw "y") with
          | Some x, Some y =>
              let w := clampWidth raw_w in
              Valid (COp (StrokeStart strokeId tool color w x y))
          | _, _ => Invalid "x,y required"
          end end end end end
        else if String.eqb t "stroke_points" then
          match isStr (getField raw "strokeId") with
          | None => Invalid "strokeId required"
          | Some strokeId =>
          match isPts (getField raw "pts") with
          | None => Invalid "pts must be array of [x,y]"
          | Some all =>
              let pts := take 200 all in
              Valid (COp (StrokePoints strokeId pts))
          end end
        else if String.eqb t "stroke_end" then
          match isStr (getField raw "strokeId") with
          | None => Invalid "strokeId required"
          | Some strokeId => Valid (COp (StrokeEnd strokeId))
          end
        else Invalid ("unknown op type: " +:+ t)
    end.

End Validator.

(** ** Rooms (rooms.ts) *)

Module Room.

(** [RoomUser = ServerUser & { socketId }] *)
Record RoomUser : Type := mkUser {
  socketId : string;
  userId : string;
  name : string;
  color : string;
  mode : Mode
}.

Record t : Type := mk {
  roomId : string;
  seq : Z;
  users : gmap string RoomUser;
  drawing : DrawingState.t;
  lastPersistAt : Z
}.

Definition set_drawing (d : DrawingState.t) (r : t) : t :=
  mk (roomId r) (seq r) (users r) d (lastPersistAt r).

(** [bumpSeq()]: [this.seq += 1; return this.seq] *)
Definition bumpSeq (r : t) : Z * t :=
  let n := (seq r + 1)%Z in
  (n, mk (roomId r) n (users r) (drawing r) (lastPersistAt r)).

Definition getSeq (r : t) : Z := seq r.

Definition getUser (sock : string) (r : t) : option RoomUser := users r !! sock.

(** [maybePersist()]: at most one [saveRoom] every two seconds; the result is
    what is handed to [saveRoom], if anything. *)
Definition maybePersist (now : Z) (r : t)
  : option (string * DrawingState.Persisted) * t :=
  if bool_decide (now - lastPersistAt r < 2000)%Z then (None, r)
  else
    let r' := mk (roomId r) (seq r) (users r) (drawing r) now in
    (Some (roomId r', DrawingState.exportPersisted (seq r') (drawing r')), r').

End Room.

(** ** The session dispatcher (server.ts) *)

Module Server.

(** What the handler passes to [ack]. *)
Inductive Ack : Type :=
  | AckErr (err : string)         (* { ok: false, err } *)
  | AckNoOp                       (* { ok: true, noOp: true } *)
  | AckSeq (seq : Z).             (* { ok: true, seq } *)

(** What one run of the "msg" handler does to the outside: the value passed to
    [ack] (dropped when the client gave no callback), the envelopes emitted
    with [io.to(roomId).emit("op", env)], the snapshot written by
    [saveRoom]. *)
Record Outcome : Type := mkOutcome {
  ack : Ack;
  emitted : list (string * OpEnvelope);
  saved : option (string * DrawingState.Persisted)
}.

(** [rooms.get(roomId)] *)
Definition get (rid : string) (rooms : gmap string Room.t) : option Room.t :=
  rooms !! rid.

(** [socket.on("msg", (raw, ack) => ...)], for the socket [sock] bound to
    [sock_room] ([socket.data.roomId]).  The three clock readings are those of
    [applyClientOp], of the envelope and of [maybePersist]. *)
Definition onMsg (sock : string) (sock_room : option string) (raw : JsVal)
    (t_apply t_env t_persist : Z) (rooms : gmap string Room.t)
  : Outcome * gmap string Room.t :=
  match sock_room with
  | None => (mkOutcome (AckErr "not joined") [] None, rooms)
  | Some rid =>
  match get rid rooms with
  | None => (mkOutcome (AckErr "room missing") [] None, rooms)
  | Some room =>
  match Room.getUser sock room with
  | None => (mkOutcome (AckErr "user missing") [] None, rooms)
  | Some user =>
  match Validator.validateClientOp raw with
  | Validator.Invalid err => (mkOutcome (AckErr err) [] None, rooms)
  | Validator.Valid op =>
      let isWrite :=
        match op with
        | COp (StrokeStart _ _ _ _ _ _) | COp (StrokePoints _ _)
        | COp (StrokeEnd _) | UndoReq | RedoReq => true
        end in
      if isWrite && bool_decide (Room.mode user = view)
      then (mkOutcome (AckErr "view-only user cannot modify canvas") [] None, rooms)
      else
        match DrawingState.applyClientOp t_apply (Room.userId user) op
                (Room.drawing room) with
        | (DrawingState.Err err, d) =>
            (mkOutcome (AckErr err) [] None,
             <[rid := Room.set_drawing d room]> rooms)
        | (DrawingState.Ok None, d) =>
            (mkOutcome AckNoOp [] None,
             <[rid := Room.set_drawing d room]> rooms)
        | (DrawingState.Ok (Some broadcast), d) =>
            let (seq, room1) := Room.bumpSeq (Room.set_drawing d room) in
            let env := mkEnvelope seq broadcast (Room.userId user) t_env in
            let (written, room2) := Room.maybePersist t_persist room1 in
            (mkOutcome (AckSeq seq) [(rid, env)] written,
             <[rid := room2]> rooms)
        end
  end end end end.

(** The user id the "join" handler binds to the connection [sock]:
    [(clientId && clientId.length > 0) ? clientId : socket.id], on the payload
    [validateJoin] lets through. *)
Definition joinUserId (sock : string) (raw : JsVal) : Validator.result string :=
  match Validator.validateJoin raw with
  | Validator.Invalid err => Validator.Invalid err
  | Validator.Valid v =>
      match Validator.clientId v with
      | Some cid => if (0 <? String.length cid)%nat then Validator.Valid cid
                    else Validator.Valid sock
      | None => Validator.Valid sock
      end
  end.

(** The counter against the envelopes: after a run of the handler a room's
    [seq] is what it was and, if the room is the socket's, nothing was emitted
    and no sequence number acknowledged; or the room is the socket's, its
    [seq] went up by one, and the one envelope emitted and the acknowledgement
    carry the new value. *)
Definition seq_moves_with_broadcast (sock_room : option string)
    (rooms rooms' : gmap string Room.t) (out : Outcome) : Prop :=
  ∀ rid room, rooms !! rid = Some room →
    ∃ room', rooms' !! rid = Some room' ∧
      ((Room.seq room' = Room.seq room
        ∧ (sock_room = Some rid → emitted out = [] ∧ ∀ n, ack out ≠ AckSeq n))
       ∨ (sock_room = Some rid
          ∧ Room.seq room' = (Room.seq room + 1)%Z
          ∧ ack out = AckSeq (Room.seq room + 1)
          ∧ ∃ env, emitted out = [(rid, env)]
                   ∧ env_seq env = (Room.seq room + 1)%Z)).

End Server.

(** ** The client's mirror (roomStore.ts) *)

Record ServerUser : Type := mkServerUser {
  su_userId : string;
  su_name : string;
  su_color : string;
  su_mode : Mode
}.

Record SyncPayload : Type := mkSync {
  sync_roomId : string;
  sync_seq : Z;
  sync_users : list ServerUser;
  sync_strokes : list StrokeRecord;
  sync_undone : list string;
  sync_inProgress : list StrokeRecord
}.

Module Store.

Record RoomState : Type := mk {
  connected : bool;
  roomId : option string;
  selfUserId : option string;
  seq : Z;
  users : gmap string ServerUser;
  strokes : gmap string StrokeRecord;
  undone : gset string;
  inProgress : gmap string StrokeRecord
}.

(** The store before anything happened. *)
Definition initial : RoomState := mk false None None 0 ∅ ∅ ∅ ∅.

Definition cloneStroke (s : StrokeRecord) : StrokeRecord :=
  mkStroke (sr_id s) (sr_userId s) (sr_tool s) (sr_color s) (sr_w s)
    (map (λ p : Point, (p.1, p.2)) (sr_points s))
    (sr_committed s) (sr_createdAt s) (sr_updatedAt s).

Definition applySync (sync : SyncPayload) (st : RoomState) : RoomState :=
  mk (connected st) (Some (sync_roomId sync)) (selfUserId st) (sync_seq sync)
    (foldl (λ u user, <[su_userId user := user]> u) ∅ (sync_users sync))
    (foldl (λ m s, <[sr_id s := cloneStroke s]> m) ∅ (sync_strokes sync))
    (list_to_set (sync_undone sync))
    (foldl (λ m s, <[sr_id s := cloneStroke s]> m) ∅ (sync_inProgress sync)).

Definition set_inProgress (m : gmap string StrokeRecord) (st : RoomState)
  : RoomState :=
  mk (connected st) (roomId st) (selfUserId st) (seq st) (users st)
    (strokes st) (undone st) m.

Definition set_undone (u : gset string) (st : RoomState) : RoomState :=
  mk (connected st) (roomId st) (selfUserId st) (seq st) (users st)
    (strokes st) u (inProgress st).

(** [applyOp(op, by)]; [now k] is what the [k]-th call of [Date.now()] in
    this run returns. *)
Definition applyOp (now : nat → Z) (op : ServerOp) (by_ : string)
    (st : RoomState) : RoomState :=
  match op with
  | SOp (StrokeStart strokeId tool color w x y) =>
      let rec := mkStroke strokeId by_ tool color w [(x, y)] false
                   (now 0%nat) (now 1%nat) in
      set_inProgress (<[strokeId := rec]> (inProgress st)) st
  | SOp (StrokePoints strokeId pts) =>
      match inProgress st !! strokeId with
      | None => st
      | Some rec =>
          let updatedRec :=
            mkStroke (sr_id rec) (sr_userId rec) (sr_tool rec) (sr_color rec)
              (sr_w rec) (sr_points rec ++ pts) (sr_committed rec)
              (sr_createdAt rec) (now 0%nat) in
          set_inProgress (<[strokeId := updatedRec]> (inProgress st)) st
      end
  | SOp (StrokeEnd strokeId) =>
      match inProgress st !! strokeId with
      | None => st
      | Some rec =>
          let committedRec :=
            mkStroke (sr_id rec) (sr_userId rec) (sr_tool rec) (sr_color rec)
              (sr_w rec) (sr_points rec) true (sr_createdAt rec) (now 0%nat) in
          mk (connected st) (roomId st) (selfUserId st) (seq st) (users st)
            (<[strokeId := cloneStroke committedRec]> (strokes st))
            (undone st ∖ {[strokeId]})
            (delete strokeId (inProgress st))
      end
  | UndoApplied strokeId => set_undone ({[strokeId]} ∪ undone st) st
  | RedoApplied strokeId => set_undone (undone st ∖ {[strokeId]}) st
  end.

(** [applyEnvelope(env)] *)
Definition applyEnvelope (now : nat → Z) (env : OpEnvelope) (st : RoomState)
  : RoomState :=
  let st1 := mk (connected st) (roomId st) (selfUserId st) (env_seq env)
               (users st) (strokes st) (undone st) (inProgress st) in
  applyOp now (env_op env) (env_by env) st1.

End Store.

(** ** The client's reorder buffer (socket.ts) *)

Module RealtimeClient.

(** The buffer with the store it feeds ([roomStore] is the one store of the
    client). *)
Record t : Type := mk {
  expectedSeq : Z;
  pending : gmap Z OpEnvelope;
  store : Store.RoomState
}.

(** [new RealtimeClient()], with the store as created. *)
Definition initial : t := mk 1 ∅ Store.initial.

(** [s.on("sync", ...)] *)
Definition onSync (sync : SyncPayload) (c : t) : t :=
  mk (sync_seq sync + 1) ∅ (Store.applySync sync (store c)).

(** The loop [while (this.pending.has(this.expectedSeq))].  Every turn
    deletes a key of [pending], so [size pending] turns are enough; [k] counts
    the envelopes applied so far in this run of [handleEnvelope], and
    [clock k] is the clock during the [k]-th of them. *)
Fixpoint flush (fuel : nat) (clock : nat → nat → Z) (k : nat) (c : t) : t :=
  match fuel with
  | O => c
  | S fuel' =>
      match pending c !! expectedSeq c with
      | None => c
      | Some next =>
          flush fuel' clock (S k)
            (mk (expectedSeq c + 1)
                (delete (expectedSeq c) (pending c))
                (Store.applyEnvelope (clock k) next (store c)))
      end
  end.

(** [state.roomId] as a condition: [null] and the empty string are falsy,
    every other string is truthy. *)
Definition hasRoom (st : Store.RoomState) : bool :=
  match Store.roomId st with
  | Some rid => (0 <? String.length rid)%nat
  | None => false
  end.

(** [handleEnvelope(env)]; the guard is [if (!state.roomId) return]. *)
Definition handleEnvelope (clock : nat → nat → Z) (env : OpEnvelope) (c : t)
  : t :=
  if negb (hasRoom (store c)) then c
  else
    let seq := env_seq env in
    if bool_decide (seq < expectedSeq c)%Z then c
    else if bool_decide (seq > expectedSeq c)%Z
    then mk (expectedSeq c) (<[seq := env]> (pending c)) (store c)
    else
      let c1 := mk (expectedSeq c + 1) (pending c)
                  (Store.applyEnvelope (clock 0%nat) env (store c)) in
      flush (size (pending c1)) clock 1 c1.

(** The envelopes waiting in [pending] under [from], [from + 1], ... up to
    the first missing key, at most [n] of them. *)
Fixpoint run (n : nat) (pending : gmap Z OpEnvelope) (from : Z)
  : list OpEnvelope :=
  match n with
  | O => []
  | S n' =>
      match pending !! from with
      | None => []
      | Some e => e :: run n' pending (from + 1)
      end
  end.

(** Applying envelopes to the mirror one after the other, the [k]-th under
    [clock k]. *)
Fixpoint applyAll (clock : nat → nat → Z) (k : nat) (envs : list OpEnvelope)
    (st : Store.RoomState) : Store.RoomState :=
  match envs with
  | [] => st
  | e :: rest => applyAll clock (S k) rest (Store.applyEnvelope (clock k) e st)
  end.

(** Removing the keys [from], [from + 1], ..., [from + n - 1]. *)
Fixpoint deleteRange (n : nat) (from : Z) (pending : gmap Z OpEnvelope)
  : gmap Z OpEnvelope :=
  match n with
  | O => pending
  | S n' => deleteRange n' (from + 1) (delete from pending)
  end.

(** The reorder buffer in the words of the specification: [c'] is what
    handling [env] makes of [c].  An envelope under the expected number is
    dropped, one over it is stored and not applied, the expected one is
    applied, followed by the buffered envelopes with the next numbers up to
    the first one missing. *)
Definition handled_in_order (clock : nat → nat → Z) (env : OpEnvelope)
    (c c' : t) : Prop :=
  let n := env_seq env in
  ((n < expectedSeq c)%Z → c' = c)
  ∧ ((n > expectedSeq c)%Z →
     c' = mk (expectedSeq c) (<[n := env]> (pending c)) (store c))
  ∧ (n = expectedSeq c →
     ∃ buffered : list OpEnvelope,
       (∀ i e, buffered !! i = Some e →
               pending c !! (n + 1 + Z.of_nat i)%Z = Some e)
       ∧ pending c !! (n + 1 + Z.of_nat (length buffered))%Z = None
       ∧ c' = mk (n + 1 + Z.of_nat (length buffered))%Z
                (deleteRange (length buffered) (n + 1) (pending c))
                (applyAll clock 0 (env :: buffered) (store c))).

End RealtimeClient.

(** ** Sample runs *)

Module Sample.

(** The state after one op, whatever it returned. *)
Definition step (now : Z) (userId : string) (op : ClientOp)
    (s : DrawingState.t) : DrawingState.t :=
  (DrawingState.applyClientOp now userId op s).2.

Definition start (id : string) : ClientOp :=
  COp (StrokeStart id brush "#111111" (Fin 4) (Fin 10) (Fin 20)).

(** Alice draws and commits A1, Bob draws and commits B1. *)
Definition two_committed : DrawingState.t :=
  step 4 "bob" (COp (StrokeEnd "B1"))
    (step 3 "bob" (start "B1")
       (step 2 "alice" (COp (StrokeEnd "A1"))
          (step 1 "alice" (start "A1") DrawingState.empty))).

(** ... then Bob undoes, and Alice starts A2 without finishing it. *)
Definition one_undone : DrawingState.t :=
  step 6 "alice" (start "A2") (step 5 "bob" UndoReq two_committed).

(** A [stroke_start] payload with the width [w]. *)
Definition startPayload (w : number) : JsVal :=
  JObj [("t", JStr "stroke_start"); ("strokeId", JStr "S1");
        ("tool", JStr "brush"); ("color", JStr "#ff0000"); ("w", JNum w);
        ("x", JNum (Fin 3)); ("y", JNum (Fin 4))].

(** The double nearest to 0.1. *)
Definition tenth : Q := 3602879701896397 # 36028797018963968.

(** A [stroke_points] payload with no point in it. *)
Definition emptyPoints (id : string) : JsVal :=
  JObj [("t", JStr "stroke_points"); ("strokeId", JStr id); ("pts", JArr [])].

(** A join payload with the client id [cid]. *)
Definition joinPayload (cid : string) : JsVal :=
  JObj [("roomId", JStr "lobby"); ("name", JStr "Ann"); ("clientId", JStr cid)].

(** A client id of 65 code units. *)
Definition longId : string :=
  "01234567890123456789012345678901234567890123456789012345678901234".

Definition alice : Room.RoomUser :=
  Room.mkUser "sock-1" "alice" "Alice" "#ef4444" edit.

(** One room, nothing drawn, Alice joined with edit rights. *)
Definition fresh_rooms : gmap string Room.t :=
  {[ "lobby" := Room.mk "lobby" 0 {[ "sock-1" := alice ]} DrawingState.empty 0 ]}.

(** The same room while Alice is drawing A1. *)
Definition drawing_rooms : gmap string Room.t :=
  {[ "lobby" := Room.mk "lobby" 1 {[ "sock-1" := alice ]}
                  (step 1 "alice" (start "A1") DrawingState.empty) 0 ]}.

(** A clock that stands still. *)
Definition still : nat → nat → Z := λ _ _, 0%Z.

(** The payload of an undo request. *)
Definition undoPayload : JsVal := JObj [("t", JStr "undo")].

Definition firstEnvelope : OpEnvelope :=
  mkEnvelope 1 (UndoApplied "S1") "alice" 0.

Definition sync12 : SyncPayload := mkSync "lobby" 12 [] [] [] [].

(** A sync frame whose room id is the empty string, at sequence number 0. *)
Definition syncNoRoom : SyncPayload := mkSync "" 0 [] [] [] [].

End Sample.

(** ** The rest of the server: file names, rooms, sessions *)

Module Storage.

(** One code unit of the class [[a-zA-Z0-9_-]]. *)
Definition isSafeChar (c : ascii) : bool :=
  let n := nat_of_ascii c in
  ((97 <=? n) && (n <=? 122)) || ((65 <=? n) && (n <=? 90))
  || ((48 <=? n) && (n <=? 57)) || (n =? 95) || (n =? 45).

(** [roomId.replace(/[^a-zA-Z0-9_-]/g, "_")] *)
Fixpoint sanitize (roomId : string) : string :=
  match roomId with
  | EmptyString => EmptyString
  | String c rest =>
      String (if isSafeChar c then c else "_"%char) (sanitize rest)
  end.

(** The file name of [roomPath]: [`room_${safe}.json`]. *)
Definition roomFile (roomId : string) : string :=
  "room_" +:+ sanitize roomId +:+ ".json".

(** [roomPath(roomId)], with [DATA_DIR] given; the file name has no
    separator in it, so [path.join] puts one separator between the two. *)
Definition roomPath (dataDir roomId : string) : string :=
  dataDir +:+ "/" +:+ roomFile roomId.

(** Every code unit is of the class [[a-zA-Z0-9_-]]. *)
Fixpoint allSafe (s : string) : bool :=
  match s with
  | EmptyString => true
  | String c rest => isSafeChar c && allSafe rest
  end.

End Storage.

Module Rooms.

Definition COLOR_PALETTE : list string :=
  ["#ef4444"; "#f97316"; "#eab308"; "#22c55e"; "#06b6d4";
   "#3b82f6"; "#8b5cf6"; "#ec4899"; "#14b8a6"; "#64748b"].

(** [new Room(roomId)], with what [loadRoom(roomId)] returned. *)
Definition newRoom (roomId : string) (persisted : option DrawingState.Persisted)
  : Room.t :=
  match persisted with
  | Some p =>
      Room.mk roomId (DrawingState.p_seq p) ∅ (DrawingState.fromPersisted p) 0
  | None => Room.mk roomId 0 ∅ DrawingState.empty 0
  end.

(** [listUsers()] *)
Definition listUsers (r : Room.t) : list ServerUser :=
  (λ u, mkServerUser (Room.userId u) (Room.name u) (Room.color u) (Room.mode u))
    <$> (map_to_list (Room.users r)).*2.

(** The set [used] of [pickColor]. *)
Definition usedColors (r : Room.t) : gset string :=
  list_to_set (Room.color <$> (map_to_list (Room.users r)).*2).

(** The loop of [pickColor]: the first colour that is not in use. *)
Fixpoint firstUnused (used : gset string) (palette : list string)
  : option string :=
  match palette with
  | [] => None
  | c :: rest => if decide (c ∈ used) then firstUnused used rest else Some c
  end.

(** [pickColor()]; [rnd] is [Math.floor(Math.random() * COLOR_PALETTE.length)],
    a number under 10. *)
Definition pickColor (rnd : nat) (r : Room.t) : string :=
  match firstUnused (usedColors r) COLOR_PALETTE with
  | Some c => c
  | None => default "" (COLOR_PALETTE !! rnd)
  end.

(** [addUser(socketId, userId, name, mode)] *)
Definition addUser (rnd : nat) (socketId userId name : string) (mode : Mode)
    (r : Room.t) : Room.RoomUser * Room.t :=
  let color := pickColor rnd r in
  let u := Room.mkUser socketId userId name color mode in
  (u, Room.mk (Room.roomId r) (Room.seq r) (<[socketId := u]> (Room.users r))
        (Room.drawing r) (Room.lastPersistAt r)).

(** [removeUser(socketId)] *)
Definition removeUser (socketId : string) (r : Room.t)
  : option Room.RoomUser * Room.t :=
  (Room.users r !! socketId,
   Room.mk (Room.roomId r) (Room.seq r) (delete socketId (Room.users r))
     (Room.drawing r) (Room.lastPersistAt r)).

(** [isEmpty()] *)
Definition isEmpty (r : Room.t) : bool := bool_decide (size (Room.users r) = 0).

(** [RoomsManager.getOrCreate(roomId)]; [load] is [loadRoom] on the disk as
    it is. *)
Definition getOrCreate (load : string → option DrawingState.Persisted)
    (roomId : string) (rooms : gmap string Room.t)
  : Room.t * gmap string Room.t :=
  match rooms !! roomId with
  | Some r => (r, rooms)
  | None =>
      let r := newRoom roomId (load roomId) in
      (r, <[roomId := r]> rooms)
  end.

(** [RoomsManager.cleanup(roomId)] *)
Definition cleanup (roomId : string) (rooms : gmap string Room.t)
  : gmap string Room.t :=
  match rooms !! roomId with
  | None => rooms
  | Some r => if isEmpty r then delete roomId rooms else rooms
  end.

(** No two connections of the room with the same colour. *)
Definition distinctColors (r : Room.t) : Prop :=
  ∀ s1 s2 u1 u2,
    Room.users r !! s1 = Some u1 → Room.users r !! s2 = Some u2 →
    Room.color u1 = Room.color u2 → s1 = s2.

(** The arguments of one call of [addUser]. *)
Record Joiner : Type := mkJoiner {
  j_rnd : nat;
  j_sock : string;
  j_userId : string;
  j_name : string;
  j_mode : Mode
}.

(** The calls of [addUser] of a list, one after the other. *)
Definition addAll (joiners : list Joiner) (r : Room.t) : Room.t :=
  foldl (λ room j,
           (addUser (j_rnd j) (j_sock j) (j_userId j) (j_name j)
              (j_mode j) room).2) r joiners.

End Rooms.

Module Session.

(** A code unit that [String.prototype.trim] removes (those under 256). *)
Definition isWhite (c : ascii) : bool :=
  let n := nat_of_ascii c in
  ((9 <=? n) && (n <=? 13)) || (n =? 32) || (n =? 160).

Fixpoint trimStart (s : string) : string :=
  match s with
  | EmptyString => EmptyString
  | String c rest => if isWhite c then trimStart rest else s
  end.

Fixpoint trimEnd (s : string) : string :=
  match s with
  | EmptyString => EmptyString
  | String c rest =>
      match trimEnd rest with
      | EmptyString => if isWhite c then EmptyString else String c EmptyString
      | t => String c t
      end
  end.

(** [s.trim()] *)
Definition trim (s : string) : string := trimEnd (trimStart s).

(** [safeName] of the join handler. *)
Definition safeName (name : option string) (userId : string) : string :=
  match name with
  | Some n =>
      if (0 <? String.length n)%nat && (0 <? String.length (trim n))%nat
      then Validator.slice0 32 (trim n)
      else "User-" +:+ Validator.slice0 4 userId
  | None => "User-" +:+ Validator.slice0 4 userId
  end.

(** What the join handler passes to [ack]. *)
Inductive JoinAck : Type :=
  | JoinErr (err : string)
  | JoinOk (roomId : string) (user : Room.RoomUser).

(** What one run of the join handler does to the outside: the ack, the sync
    frame sent to the joiner, the [user_joined] sent to the others of the
    room. *)
Record JoinOutcome : Type := mkJoinOutcome {
  join_ack : JoinAck;
  join_sync : option SyncPayload;
  join_notify : option (string * Room.RoomUser)
}.

(** [socket.on("join", ...)]: the outcome, the new [socket.data.roomId], the
    rooms. *)
Definition onJoin (load : string → option DrawingState.Persisted) (rnd : nat)
    (sock : string) (sock_room : option string) (raw : JsVal)
    (rooms : gmap string Room.t)
  : JoinOutcome * option string * gmap string Room.t :=
  match Validator.validateJoin raw with
  | Validator.Invalid err =>
      (mkJoinOutcome (JoinErr err) None None, sock_room, rooms)
  | Validator.Valid v =>
      let roomId := Validator.roomId v in
      let (room, rooms1) := Rooms.getOrCreate load roomId rooms in
      let userId :=
        match Validator.clientId v with
        | Some cid => if (0 <? String.length cid)%nat then cid else sock
        | None => sock
        end in
      let name := safeName (Validator.name v) userId in
      let (user, room1) :=
        Rooms.addUser rnd sock userId name (Validator.mode v) room in
      let snap := DrawingState.getSnapshot (Room.drawing room1) in
      let sync :=
        mkSync roomId (Room.getSeq room1) (Rooms.listUsers room1)
          (DrawingState.snap_strokes snap) (DrawingState.snap_undone snap)
          (DrawingState.snap_inProgress snap) in
      (mkJoinOutcome (JoinOk roomId user) (Some sync) (Some (roomId, user)),
       Some roomId, <[roomId := room1]> rooms1)
  end.

(** [socket.data.roomId] as the handlers test it: [if (!roomId) return]
    takes the empty string, like [null], for no room. *)
Definition bound (sock_room : option string) : option string :=
  match sock_room with
  | Some rid => if (0 <? String.length rid)%nat then Some rid else None
  | None => None
  end.

(** [socket.on("cursor", ...)]: what is sent to the others of the room, if
    anything: the room, the user id, the coordinates. *)
Definition onCursor (sock : string) (sock_room : option string) (raw : JsVal)
    (rooms : gmap string Room.t) : option (string * string * number * number) :=
  match bound sock_room with
  | None => None
  | Some rid =>
      match Validator.getField raw "x", Validator.getField raw "y" with
      | JNum x, JNum y =>
          match rooms !! rid with
          | None => None
          | Some room =>
              match Room.getUser sock room with
              | None => None
              | Some user => Some (rid, Room.userId user, x, y)
              end
          end
      | _, _ => None
      end
  end.

(** [socket.on("disconnect", ...)]: the [user_left] sent to the others, and
    the rooms. *)
Definition onDisconnect (sock : string) (sock_room : option string)
    (rooms : gmap string Room.t)
  : option (string * string) * gmap string Room.t :=
  match bound sock_room with
  | None => (None, rooms)
  | Some rid =>
      match rooms !! rid with
      | None => (None, rooms)
      | Some room =>
          let (u, room1) := Rooms.removeUser sock room in
          let rooms1 := <[rid := room1]> rooms in
          (match u with
           | Some user => Some (rid, Room.userId user)
           | None => None
           end,
           Rooms.cleanup rid rooms1)
      end
  end.

(** A message of a connection to the "msg" handler: the socket, its room,
    the payload and the three clock readings. *)
Record Incoming : Type := mkIncoming {
  in_sock : string;
  in_room : option string;
  in_raw : JsVal;
  in_apply : Z;
  in_env : Z;
  in_persist : Z
}.

(** The "msg" handler on the messages of a list, one after the other, each
    with [socket.data.roomId] as the handler tests it: the envelopes emitted,
    in order, and the rooms at the end. *)
Fixpoint serve (msgs : list Incoming) (rooms : gmap string Room.t)
  : list (string * OpEnvelope) * gmap string Room.t :=
  match msgs with
  | [] => ([], rooms)
  | m :: rest =>
      let (out, rooms1) :=
        Server.onMsg (in_sock m) (bound (in_room m)) (in_raw m)
          (in_apply m) (in_env m) (in_persist m) rooms in
      let (envs, rooms2) := serve rest rooms1 in
      (Server.emitted out ++ envs, rooms2)
  end.

(** The envelopes of a list that went to the room [rid]. *)
Definition envelopesOf (rid : string) (envs : list (string * OpEnvelope))
  : list OpEnvelope :=
  (filter (λ p : string * OpEnvelope, p.1 = rid) envs).*2.

(** The room a join ends up in: the one in memory, or a new one built from
    the disk. *)
Definition roomFor (load : string → option DrawingState.Persisted)
    (rid : string) (rooms : gmap string Room.t) : Room.t :=
  match rooms !! rid with
  | Some r => r
  | None => Rooms.newRoom rid (load rid)
  end.

End Session.

(** ** Ops on the wire *)

Module Wire.

Definition toolName (t : Tool) : string :=
  match t with
  | brush => "brush" | eraser => "eraser" | rectangle => "rectangle"
  | circle => "circle" | square => "square"
  end.

Definition encodePoint (p : Point) : JsVal := JArr [JNum p.1; JNum p.2].

(** A client op as the object the client sends: the typed value seen as an
    untyped one. *)
Definition encodeOp (op : ClientOp) : JsVal :=
  match op with
  | COp (StrokeStart id tool color w x y) =>
      JObj [("t", JStr "stroke_start"); ("strokeId", JStr id);
            ("tool", JStr (toolName tool)); ("color", JStr color);
            ("w", JNum w); ("x", JNum x); ("y", JNum y)]
  | COp (StrokePoints id pts) =>
      JObj [("t", JStr "stroke_points"); ("strokeId", JStr id);
            ("pts", JArr (encodePoint <$> pts))]
  | COp (StrokeEnd id) =>
      JObj [("t", JStr "stroke_end"); ("strokeId", JStr id)]
  | UndoReq => JObj [("t", JStr "undo")]
  | RedoReq => JObj [("t", JStr "redo")]
  end.

Definition tag (op : ClientOp) : string :=
  match op with
  | COp (StrokeStart _ _ _ _ _ _) => "stroke_start"
  | COp (StrokePoints _ _) => "stroke_points"
  | COp (StrokeEnd _) => "stroke_end"
  | UndoReq => "undo"
  | RedoReq => "redo"
  end.

Definition finitePoint (p : Point) : Prop :=
  isFinite p.1 = true ∧ isFinite p.2 = true.

(** What the validator guarantees of an op it lets through. *)
Definition wellFormed (op : ClientOp) : Prop :=
  match op with
  | COp (StrokeStart id tool color w x y) =>
      id ≠ "" ∧ color ≠ "" ∧ in_range 1 64 w ∧ Validator.clampWidth w = w
      ∧ isFinite x = true ∧ isFinite y = true
  | COp (StrokePoints id pts) =>
      id ≠ "" ∧ length pts ≤ 200 ∧ Forall finitePoint pts
  | COp (StrokeEnd id) => id ≠ ""
  | UndoReq | RedoReq => True
  end.

End Wire.

(** ** The mirror against the server *)

Module Mirror.

(** Two records of one stroke; the two sides stamp their own clocks. *)
Definition sameStroke (a b : StrokeRecord) : Prop :=
  sr_id a = sr_id b ∧ sr_userId a = sr_userId b ∧ sr_tool a = sr_tool b
  ∧ sr_color a = sr_color b ∧ sr_w a = sr_w b ∧ sr_points a = sr_points b
  ∧ sr_committed a = sr_committed b.

Definition committedOf (d : DrawingState.t) (id : string) : option StrokeRecord :=
  match DrawingState.strokes d !! id with
  | Some rec => if sr_committed rec then Some rec else None
  | None => None
  end.

Definition inProgressOf (d : DrawingState.t) (id : string) : option StrokeRecord :=
  match DrawingState.strokes d !! id with
  | Some rec => if sr_committed rec then None else Some rec
  | None => None
  end.

(** The client's store shows the server's drawing state: the committed
    strokes, the strokes in progress, the undone ids. *)
Definition agrees (d : DrawingState.t) (st : Store.RoomState) : Prop :=
  (∀ id, option_Forall2 sameStroke (committedOf d id) (Store.strokes st !! id))
  ∧ (∀ id, option_Forall2 sameStroke (inProgressOf d id)
             (Store.inProgress st !! id))
  ∧ Store.undone st = DrawingState.undone d.

End Mirror.

(** ** Runs of the client *)

Module ClientRun.
Import RealtimeClient.

(** What reaches the client from the server. *)
Inductive event : Type :=
  | GotSync (sync : SyncPayload)
  | GotEnvelope (clock : nat → nat → Z) (env : OpEnvelope).

Definition step (c : t) (e : event) : t :=
  match e with
  | GotSync sync => onSync sync c
  | GotEnvelope clock env => handleEnvelope clock env c
  end.

Definition runEvents (events : list event) (c : t) : t := foldl step c events.

(** The buffer holds only envelopes that are not due yet, each under its own
    sequence number, and the mirror is at the envelope before the expected
    one. *)
Record ok (c : t) : Prop := mk_ok {
  ok_ahead : ∀ k e, pending c !! k = Some e → (expectedSeq c < k)%Z;
  ok_keyed : ∀ k e, pending c !! k = Some e → env_seq e = k;
  ok_seq : (Store.seq (store c) + 1)%Z = expectedSeq c
}.

(** The envelopes of a list handed to the client in the order of the list. *)
Definition deliver (clock : nat → nat → Z) (envs : list OpEnvelope) (c : t) : t :=
  foldl (λ c e, handleEnvelope clock e c) c envs.

End ClientRun.

(** ** More sample values *)

Module Fixture.

(** The room of [Sample.fresh_rooms]: nothing drawn, Alice joined. *)
Definition lobby : Room.t :=
  Room.mk "lobby" 0 {[ "sock-1" := Sample.alice ]} DrawingState.empty 0.

Definition bob : Room.RoomUser :=
  Room.mkUser "sock-2" "bob" "Bob" "#f97316" view.

(** The lobby with Alice, who may edit, and Bob, who may only view. *)
Definition mixed_rooms : gmap string Room.t :=
  {[ "lobby" := Room.mk "lobby" 0
                  {[ "sock-1" := Sample.alice; "sock-2" := bob ]}
                  DrawingState.empty 0 ]}.

(** Alice starts A1, ends it, undoes, asks for an undo that finds nothing. *)
Definition four_messages : list Session.Incoming :=
  [Session.mkIncoming "sock-1" (Some "lobby")
     (Wire.encodeOp (Sample.start "A1")) 10 11 12;
   Session.mkIncoming "sock-1" (Some "lobby")
     (Wire.encodeOp (COp (StrokeEnd "A1"))) 20 21 22;
   Session.mkIncoming "sock-1" (Some "lobby") Sample.undoPayload 30 31 32;
   Session.mkIncoming "sock-1" (Some "lobby") Sample.undoPayload 40 41 42].

(** A disk with nothing on it. *)
Definition no_disk : string → option DrawingState.Persisted := λ _, None.

(** A disk with the export of [Sample.one_undone] for every room. *)
Definition one_disk : string → option DrawingState.Persisted :=
  λ _, Some (DrawingState.exportPersisted 6 Sample.one_undone).

(** The sync frame of a room. *)
Definition syncOf (room : Room.t) : SyncPayload :=
  let snap := DrawingState.getSnapshot (Room.drawing room) in
  mkSync (Room.roomId room) (Room.getSeq room) (Rooms.listUsers room)
    (DrawingState.snap_strokes snap) (DrawingState.snap_undone snap)
    (DrawingState.snap_inProgress snap).

End Fixture.

(** * Properties *)

(** ** Undo picks the latest active stroke *)

Section UndoTarget.
Import DrawingState.

Lemma undoScan_take order cm un n :
  undoScan order cm un n
  = last (filter (λ id, id ∈ cm ∧ id ∉ un) (take n order)).
Proof.
  induction n as [|i IH]; simpl.
  - done.
  - destruct (order !! i) as [id|] eqn:Hi.
    + rewrite (take_S_r _ _ _ Hi), filter_app, filter_cons, filter_nil.
      destruct (decide (id ∈ cm)) as [Hc|Hc].
      * destruct (decide (id ∈ un)) as [Hu|Hu].
        -- rewrite decide_False by tauto. by rewrite app_nil_r.
        -- rewrite decide_True by tauto. by rewrite last_snoc.
      * rewrite decide_False by tauto. by rewrite app_nil_r.
    + apply lookup_ge_None in Hi.
      rewrite IH, !take_ge by lia. done.
Qed.

Lemma undoScan_latestActive s :
  undoScan (committedOrder s) (committed s) (undone s)
    (length (committedOrder s)) = latestActive s.
Proof.
  unfold latestActive. rewrite undoScan_take, take_ge by lia. done.
Qed.

Lemma applyClientOp_undo now u s :
  applyClientOp now u UndoReq s =
    match latestActive s with
    | Some id =>
        (Ok (Some (UndoApplied id)),
         mk (strokes s) (committed s) ({[id]} ∪ undone s)
            (committedOrder s) (redoStack s ++ [id]))
    | None => (Ok None, s)
    end.
Proof. simpl. by rewrite undoScan_latestActive. Qed.

End UndoTarget.

(** C1. For every drawing state and every user, an undo request selects the
    last id of [committedOrder] that is in [committed] and not in [undone],
    adds it to [undone], pushes it onto [redoStack] and broadcasts
    [{t: "undo", strokeId}] for it; without such an id the call succeeds with
    no broadcast and the state as it was.  Neither the requesting user (nor
    the clock) nor the stroke records, hence the strokes' owners, have a say
    in the choice. *)
Theorem C1_undo_latest_active (now : Z) (userId : string) (s : DrawingState.t) :
  DrawingState.applyClientOp now userId UndoReq s =
    match DrawingState.latestActive s with
    | Some id =>
        (DrawingState.Ok (Some (UndoApplied id)),
         DrawingState.mk (DrawingState.strokes s) (DrawingState.committed s)
           ({[id]} ∪ DrawingState.undone s)
           (DrawingState.committedOrder s)
           (DrawingState.redoStack s ++ [id]))
    | None => (DrawingState.Ok None, s)
    end
  ∧ (∀ now' userId',
       DrawingState.applyClientOp now' userId' UndoReq s
       = DrawingState.applyClientOp now userId UndoReq s)
  ∧ (∀ records,
       (DrawingState.applyClientOp now userId UndoReq
          (DrawingState.set_strokes records s)).1
       = (DrawingState.applyClientOp now userId UndoReq s).1).
Proof.
  split; [apply applyClientOp_undo|]. split.
  - intros now' u'. by rewrite !applyClientOp_undo.
  - intros records. rewrite !applyClientOp_undo.
    unfold DrawingState.latestActive; simpl.
    by destruct (last _).
Qed.

(** ** The representation invariant *)

Section Invariant.
Import DrawingState.

Lemma wf_empty : wf empty.
Proof.
  split; simpl; try apply NoDup_nil_2; set_solver.
Qed.

(** What the redo loop returns: the first entry from the top that is both
    committed and undone, with the entries under it. *)
Lemma redoScan_inv cm un l r rest :
  redoScan cm un l = (r, rest) →
  match r with
  | Some id => id ∈ cm ∧ id ∈ un ∧ ∃ stale, l = stale ++ id :: rest
  | None => rest = []
  end.
Proof.
  revert r rest. induction l as [|x l IH]; simpl; intros r rest H.
  - by inversion H.
  - destruct (decide (x ∈ cm)) as [Hc|Hc];
      [destruct (decide (x ∈ un)) as [Hu|Hu]|].
    + inversion H; subst. split_and!; [done..|]. by exists [].
    + specialize (IH _ _ H). destruct r; [|done].
      destruct IH as (? & ? & stale & ->). split_and!; [done..|].
      by exists (x :: stale).
    + specialize (IH _ _ H). destruct r; [|done].
      destruct IH as (? & ? & stale & ->). split_and!; [done..|].
      by exists (x :: stale).
Qed.

(** With every entry committed and undone, the loop stops at the top. *)
Lemma redoScan_top cm un id rest :
  id ∈ cm → id ∈ un → redoScan cm un (id :: rest) = (Some id, rest).
Proof. intros Hc Hu. simpl. by rewrite !decide_True. Qed.

Lemma latestActive_Some s id :
  latestActive s = Some id →
  id ∈ committedOrder s ∧ id ∈ committed s ∧ id ∉ undone s.
Proof.
  unfold latestActive. intros H.
  apply last_Some in H as [l' H].
  assert (Hin : id ∈ filter (λ id, id ∈ committed s ∧ id ∉ undone s)
                       (committedOrder s)).
  { rewrite H. set_solver. }
  apply list_elem_of_filter in Hin. tauto.
Qed.

Lemma latestActive_None s :
  latestActive s = None →
  ∀ id, id ∈ committedOrder s → ¬ (id ∈ committed s ∧ id ∉ undone s).
Proof.
  unfold latestActive. intros H id Hin Hact.
  apply last_None in H.
  assert (Hf : id ∈ filter (λ id, id ∈ committed s ∧ id ∉ undone s)
                      (committedOrder s))
    by (apply list_elem_of_filter; done).
  rewrite H in Hf. by apply not_elem_of_nil in Hf.
Qed.

Lemma wf_apply now u op s b s' :
  wf s → applyClientOp now u op s = (Ok b, s') → wf s'.
Proof.
  intros W H. destruct op as [[id tool color w x y|id pts|id]| |]; simpl in H.
  - destruct (strokes s !! id) as [rec|] eqn:Hl; [done|]. inversion H; subst; clear H.
    assert (Hnc : id ∉ committed s).
    { intros Hc. apply (wf_known _ W) in Hc. rewrite Hl in Hc. by destruct Hc. }
    destruct W as [Wk Wf Wn Wo Wd Wu Wr Wrd]. split; simpl; try done.
    + intros k r. rewrite lookup_insert.
      case_decide; [by intros [= <-]|apply Wk].
    + intros k r. rewrite lookup_insert. case_decide; [|apply Wf].
      intros [= <-]. subst k. simpl. split; [discriminate|done].
    + intros k Hk. rewrite lookup_insert. case_decide; eauto.
  - destruct (strokes s !! id) as [rec|] eqn:Hl; [|done].
    destruct (sr_committed rec) eqn:Hc; [done|].
    case_bool_decide; simpl in H; [|done]. inversion H; subst; clear H.
    assert (Hnc : id ∉ committed s).
    { intros Hin. apply (wf_flag _ W _ _ Hl) in Hin. congruence. }
    pose proof (wf_key _ W _ _ Hl) as Hk.
    destruct W as [Wk Wf Wn Wo Wd Wu Wr Wrd]. split; simpl; try done.
    + intros k r. rewrite lookup_insert.
      case_decide; [intros [= <-]; by subst k|apply Wk].
    + intros k r. rewrite lookup_insert. case_decide; [|apply Wf].
      intros [= <-]. subst k. simpl. split; [discriminate|done].
    + intros k Hk'. rewrite lookup_insert. case_decide; eauto.
  - destruct (strokes s !! id) as [rec|] eqn:Hl; [|done].
    destruct (sr_committed rec) eqn:Hc; [done|].
    case_bool_decide; simpl in H; [|done]. inversion H; subst; clear H.
    assert (Hnc : id ∉ committed s).
    { intros Hin. apply (wf_flag _ W _ _ Hl) in Hin. congruence. }
    pose proof (wf_key _ W _ _ Hl) as Hk.
    destruct W as [Wk Wf Wn Wo Wd Wu Wr Wrd]. split; simpl.
    + intros k r. rewrite lookup_insert.
      case_decide; [intros [= <-]; by subst k|apply Wk].
    + intros k r. rewrite lookup_insert. case_decide.
      * intros [= <-]. simpl. set_solver.
      * intros Hr. rewrite (Wf _ _ Hr). set_solver.
    + intros k Hk'. rewrite lookup_insert. case_decide; [eauto|].
      apply Wn. set_solver.
    + intros k. rewrite elem_of_app, Wo. set_solver.
    + apply NoDup_app. split_and!; [done| |apply NoDup_singleton].
      intros k Hk1 Hk2. apply Wo in Hk1. set_solver.
    + set_solver.
    + set_solver.
    + apply NoDup_nil_2.
  - rewrite undoScan_latestActive in H.
    destruct (latestActive s) as [id|] eqn:Hu; inversion H; subst; clear H; [|done].
    apply latestActive_Some in Hu as (Ho & Hc & Hn).
    destruct W as [Wk Wf Wn Wo Wd Wu Wr Wrd]. split; simpl; try done.
    + set_solver.
    + intros k. rewrite elem_of_app. intros [Hk|Hk]; [|set_solver].
      apply Wr in Hk. set_solver.
    + apply NoDup_app. split_and!; [done| |apply NoDup_singleton].
      intros k Hk1 Hk2. apply Wr in Hk1. set_solver.
  - destruct (redoScan _ _ _) as [r rest] eqn:Hr.
    pose proof (redoScan_inv _ _ _ _ _ Hr) as Hinv.
    destruct r as [id|]; inversion H; subst; clear H.
    + destruct Hinv as (Hc & Hu & stale & Hst).
      assert (Hnd : NoDup (stale ++ id :: rest)).
      { rewrite <- Hst, reverse_Permutation. apply W. }
      apply NoDup_app in Hnd as (_ & _ & Hnd). apply NoDup_cons in Hnd as [Hni Hnd].
      assert (Hsub : ∀ k, k ∈ rest → k ∈ redoStack s).
      { intros k Hk. rewrite <- elem_of_reverse, Hst. set_solver. }
      destruct W as [Wk Wf Wn Wo Wd Wu Wr Wrd]. split; simpl; try done.
      * set_solver.
      * intros k Hk. rewrite elem_of_reverse in Hk.
        pose proof (Wr _ (Hsub _ Hk)). set_solver.
      * by rewrite reverse_Permutation.
    + destruct W as [Wk Wf Wn Wo Wd Wu Wr Wrd]. split; simpl; try done.
      * set_solver.
      * apply NoDup_nil_2.
Qed.

Lemma foldl_restoreStroke_strokes (M : gmap string StrokeRecord) l ds k :
  (∀ r, r ∈ l → M !! sr_id r = Some r) →
  strokes (foldl restoreStroke ds l) !! k
  = if decide (k ∈ sr_id <$> l) then M !! k else strokes ds !! k.
Proof.
  revert ds. induction l as [|r l IH]; intros ds Hl; simpl.
  - done.
  - rewrite IH by (intros; apply Hl; set_solver). simpl.
    destruct (decide (k ∈ sr_id <$> l)) as [Hin|Hin].
    + rewrite decide_True; [done|]. set_solver.
    + rewrite lookup_insert. case_decide as Hk.
      * rewrite decide_True by set_solver. subst k. symmetry. apply Hl. set_solver.
      * rewrite decide_False; [done|]. set_solver.
Qed.

Lemma foldl_restoreStroke_committed l ds :
  committed (foldl restoreStroke ds l) = list_to_set (sr_id <$> l) ∪ committed ds.
Proof.
  revert ds. induction l as [|r l IH]; intros ds; simpl.
  - set_solver.
  - rewrite IH. simpl. set_solver.
Qed.

Lemma foldl_restoreStroke_rest l ds :
  undone (foldl restoreStroke ds l) = undone ds
  ∧ committedOrder (foldl restoreStroke ds l) = committedOrder ds
  ∧ redoStack (foldl restoreStroke ds l) = redoStack ds.
Proof.
  revert ds. induction l as [|r l IH]; intros ds; simpl; [done|].
  destruct (IH (restoreStroke ds r)) as (-> & -> & ->). done.
Qed.

Lemma elem_of_committedStrokes s r :
  r ∈ committedStrokes s ↔
  ∃ id, id ∈ committedOrder s ∧ strokes s !! id = Some r ∧ sr_committed r = true.
Proof.
  unfold committedStrokes. rewrite list_elem_of_omap. split.
  - intros (id & Hin & Hf). exists id.
    destruct (strokes s !! id) as [rec|]; [|done].
    destruct (sr_committed rec) eqn:Hc; [|done]. by inversion Hf; subst.
  - intros (id & Hin & Hl & Hc). exists id. by rewrite Hl, Hc.
Qed.

Lemma committedStrokes_ids s k :
  wf s → k ∈ sr_id <$> committedStrokes s ↔ k ∈ committed s.
Proof.
  intros W. rewrite list_elem_of_fmap. split.
  - intros (r & -> & Hr). apply elem_of_committedStrokes in Hr as (id & Hin & Hl & Hc).
    rewrite (wf_key _ W _ _ Hl). by apply (wf_order _ W).
  - intros Hk. destruct (wf_known _ W _ Hk) as [r Hl]. exists r.
    split; [by rewrite (wf_key _ W _ _ Hl)|].
    apply elem_of_committedStrokes. exists k. split_and!; [by apply (wf_order _ W)|done|].
    by apply (wf_flag _ W _ _ Hl).
Qed.

Lemma restore_strokes s seq k :
  wf s →
  strokes (fromPersisted (exportPersisted seq s)) !! k
  = if decide (k ∈ committed s) then strokes s !! k else None.
Proof.
  intros W. simpl.
  rewrite (foldl_restoreStroke_strokes (strokes s)).
  - destruct (decide (k ∈ sr_id <$> committedStrokes s)) as [Hin|Hin];
      rewrite committedStrokes_ids in Hin by done.
    + by rewrite decide_True.
    + by rewrite decide_False.
  - intros r Hr. apply elem_of_committedStrokes in Hr as (id & Hin & Hl & Hc).
    by rewrite (wf_key _ W _ _ Hl).
Qed.

Lemma restore_fields s seq :
  wf s →
  let s' := fromPersisted (exportPersisted seq s) in
  committed s' = committed s ∧ undone s' = undone s
  ∧ committedOrder s' = committedOrder s ∧ redoStack s' = redoStack s.
Proof.
  intros W. simpl. split_and!; try done.
  - rewrite foldl_restoreStroke_committed. simpl.
    apply set_eq. intros k. rewrite elem_of_union, elem_of_list_to_set, committedStrokes_ids by done.
    set_solver.
  - apply set_eq. intros k. rewrite elem_of_list_to_set, elem_of_elements. done.
Qed.

Lemma wf_restore s seq : wf s → wf (fromPersisted (exportPersisted seq s)).
Proof.
  intros W. destruct (restore_fields s seq W) as (Hc & Hu & Ho & Hr).
  split; rewrite ?Hc, ?Hu, ?Ho, ?Hr; try apply W.
  - intros k r. rewrite restore_strokes by done. case_decide; [apply W|done].
  - intros k r. rewrite restore_strokes by done. case_decide; [apply W|done].
  - intros k Hk. rewrite restore_strokes, decide_True by done. by apply W.
Qed.

(** A failing call returns before it changes anything. *)
Lemma applyClientOp_err now u op s err s' :
  applyClientOp now u op s = (Err err, s') → s' = s.
Proof.
  destruct op as [[id tool color w x y|id pts|id]| |]; simpl.
  - destruct (strokes s !! id); by intros [= <-].
  - destruct (strokes s !! id) as [rec|]; [|by intros [= <-]].
    destruct (sr_committed rec); [by intros [= <-]|].
    case_bool_decide; simpl; by intros [= <-].
  - destruct (strokes s !! id) as [rec|]; [|by intros [= <-]].
    destruct (sr_committed rec); [by intros [= <-]|].
    case_bool_decide; simpl; by intros [= <-].
  - destruct (undoScan _ _ _ _); intros [=].
  - destruct (redoScan _ _ _) as [[?|] ?]; intros [=].
Qed.

Lemma reachable_wf s : reachable s → wf s.
Proof.
  induction 1 as [|now u op s b s' _ IH Hstep|seq s _ IH].
  - apply wf_empty.
  - by eapply wf_apply.
  - by apply wf_restore.
Qed.

End Invariant.

(** ** Reachable states *)

Lemma reachable_step now u op s :
  DrawingState.reachable s →
  (∃ b, (DrawingState.applyClientOp now u op s).1 = DrawingState.Ok b) →
  DrawingState.reachable (Sample.step now u op s).
Proof.
  intros Hr [b Hb]. unfold Sample.step.
  destruct (DrawingState.applyClientOp now u op s) as [r s'] eqn:E.
  simpl in *. subst r. by eapply DrawingState.reachable_apply.
Qed.

Lemma reachable_two_committed : DrawingState.reachable Sample.two_committed.
Proof.
  unfold Sample.two_committed.
  do 4 (apply reachable_step; [|eexists; vm_compute; reflexivity]).
  apply DrawingState.reachable_empty.
Qed.

Lemma reachable_one_undone : DrawingState.reachable Sample.one_undone.
Proof.
  unfold Sample.one_undone.
  do 2 (apply reachable_step; [|eexists; vm_compute; reflexivity]).
  apply reachable_two_committed.
Qed.

(** C2. In every state reached from the empty drawing state by successful
    calls of [applyClientOp] (by any users, with any ops; rebuilding the state
    from its own export in between is allowed too), [undone] is a subset of
    [committed] and every id on [redoStack] is in both [committed] and
    [undone]; and whatever [applyClientOp] does next, the two still hold. *)
Theorem C2_undone_and_redo_within_committed (s : DrawingState.t) :
  DrawingState.reachable s →
  (DrawingState.undone s ⊆ DrawingState.committed s
   ∧ ∀ id, id ∈ DrawingState.redoStack s →
       id ∈ DrawingState.committed s ∧ id ∈ DrawingState.undone s)
  ∧ ∀ now userId op result s',
      DrawingState.applyClientOp now userId op s = (result, s') →
      DrawingState.undone s' ⊆ DrawingState.committed s'
      ∧ ∀ id, id ∈ DrawingState.redoStack s' →
          id ∈ DrawingState.committed s' ∧ id ∈ DrawingState.undone s'.
Proof.
  intros Hr. pose proof (reachable_wf _ Hr) as W. split.
  - split; apply W.
  - intros now u op result s' Hstep.
    assert (W' : DrawingState.wf s').
    { destruct result as [b|err].
      - by eapply wf_apply.
      - by rewrite (applyClientOp_err _ _ _ _ _ _ Hstep). }
    split; apply W'.
Qed.

Lemma C2_witness :
  DrawingState.reachable Sample.one_undone
  ∧ DrawingState.undone Sample.one_undone = {[ "B1" ]}
  ∧ DrawingState.redoStack Sample.one_undone = ["B1"]
  ∧ DrawingState.undone Sample.one_undone
    ⊆ DrawingState.committed Sample.one_undone.
Proof.
  split; [apply reachable_one_undone|].
  split; [vm_compute; reflexivity|].
  split; [vm_compute; reflexivity|].
  apply (C2_undone_and_redo_within_committed Sample.one_undone).
  apply reachable_one_undone.
Defined.

(** ** Undo followed by redo *)

Section UndoRedo.
Import DrawingState.

Lemma latestActive_is_Some s :
  wf s → 0 < size (active s) → is_Some (latestActive s).
Proof.
  intros W Hsz. apply size_pos_elem_of in Hsz as [id Hid].
  unfold active in Hid. apply elem_of_difference in Hid as [Hc Hu].
  destruct (latestActive s) as [x|] eqn:E; [eauto|].
  exfalso. eapply (latestActive_None _ E id); [by apply (wf_order _ W)|done].
Qed.

Lemma undo_then_redo now now' u v s :
  wf s → 0 < size (active s) →
  (applyClientOp now' v RedoReq (applyClientOp now u UndoReq s).2).2 = s.
Proof.
  intros W Hsz. destruct (latestActive_is_Some s W Hsz) as [id Hid].
  rewrite applyClientOp_undo, Hid.
  apply latestActive_Some in Hid as (Ho & Hc & Hu).
  cbn [snd applyClientOp strokes committed undone committedOrder redoStack].
  rewrite reverse_snoc, redoScan_top by set_solver.
  cbn [snd]. rewrite reverse_involutive.
  assert (({[id]} ∪ undone s) ∖ {[id]} = undone s) as -> by set_solver.
  by destruct s.
Qed.

Lemma undo_active now u s :
  wf s → 0 < size (active s) →
  size (active (applyClientOp now u UndoReq s).2) = pred (size (active s)).
Proof.
  intros W Hsz. destruct (latestActive_is_Some s W Hsz) as [id Hid].
  rewrite applyClientOp_undo, Hid.
  apply latestActive_Some in Hid as (Ho & Hc & Hu).
  unfold active; simpl.
  assert (committed s ∖ ({[id]} ∪ undone s) = (committed s ∖ undone s) ∖ {[id]})
    as -> by set_solver.
  rewrite size_difference by set_solver. rewrite size_singleton. lia.
Qed.

Lemma undo_wf now u s : wf s → wf (applyClientOp now u UndoReq s).2.
Proof.
  intros W. destruct (applyClientOp now u UndoReq s) as [r s'] eqn:E.
  destruct r as [b|err]; simpl.
  - by eapply wf_apply.
  - by rewrite (applyClientOp_err _ _ _ _ _ _ E).
Qed.

Lemma undoAll_cons now u us s :
  undoAll now (u :: us) s = undoAll now us (applyClientOp now u UndoReq s).2.
Proof. done. Qed.

Lemma redoAll_snoc now vs v s :
  redoAll now (vs ++ [v]) s = (applyClientOp now v RedoReq (redoAll now vs s)).2.
Proof. unfold redoAll. by rewrite foldl_snoc. Qed.

Lemma undoAll_redoAll now now' us : ∀ vs s,
  wf s → length us = length vs → length us ≤ size (active s) →
  redoAll now' vs (undoAll now us s) = s.
Proof.
  induction us as [|u us IH]; intros vs s W Hlen Hsz.
  - destruct vs; [done|discriminate].
  - destruct (decide (vs = [])) as [->|Hne]; [discriminate|].
    apply exists_last in Hne. hnf in Hne. destruct Hne as (vs' & v & ->).
    rewrite length_app in Hlen. simpl in Hlen, Hsz.
    rewrite undoAll_cons, redoAll_snoc, IH.
    + apply undo_then_redo; [done|lia].
    + by apply undo_wf.
    + lia.
    + rewrite undo_active by (done || lia). lia.
Qed.

Lemma draw_history now u op s :
  isDraw op = true → history (applyClientOp now u op s).2 = history s.
Proof.
  destruct op as [[id tool color w x y|id pts|id]| |]; try done; intros _; simpl.
  - by destruct (strokes s !! id).
  - destruct (strokes s !! id) as [rec|]; [|done].
    destruct (sr_committed rec); [done|]. by case_bool_decide.
Qed.

Lemma undo_redo_history now u now' u' op s s' :
  isUndo op || isRedo op = true →
  history s = history s' →
  history (applyClientOp now u op s).2 = history (applyClientOp now' u' op s').2.
Proof.
  intros Hop H. destruct s as [m c un o r], s' as [m' c' un' o' r'].
  injection H as -> -> -> ->.
  destruct op as [[| |]| |]; try done.
  - rewrite !applyClientOp_undo. unfold latestActive; simpl.
    by destruct (last _).
  - simpl. by destruct (redoScan _ _ _) as [[?|] ?].
Qed.

Lemma runAll_history reqs : ∀ s s',
  Forall (λ r : request, isUndo r.2 || isRedo r.2 || isDraw r.2 = true) reqs →
  history s = history s' →
  history (runAll reqs s)
  = history (runAll (filter (λ r : request, isDraw r.2 = false) reqs) s').
Proof.
  induction reqs as [|r reqs IH]; intros s s' Hall H; [done|].
  apply Forall_cons in Hall as [Hr Hall]. rewrite filter_cons. simpl.
  destruct (isDraw r.2) eqn:Hd.
  - rewrite decide_False by done. apply IH; [done|].
    by rewrite draw_history.
  - rewrite decide_True by done. simpl. apply IH; [done|].
    apply undo_redo_history; [|done]. by rewrite orb_false_r in Hr.
Qed.

Lemma runAll_cons (r : request) reqs s :
  runAll (r :: reqs) s = runAll reqs (applyClientOp r.1.1 r.1.2 r.2 s).2.
Proof. done. Qed.

Lemma runAll_undos now reqs : ∀ s,
  Forall (λ r : request, isUndo r.2 = true) reqs →
  runAll reqs s = undoAll now (map (λ r : request, r.1.2) reqs) s.
Proof.
  induction reqs as [|[[n u] op] reqs IH]; intros s Hall; [done|].
  apply Forall_cons in Hall as [Hr Hall]. simpl in Hr.
  destruct op as [[| |]| |]; try done.
  rewrite runAll_cons, IH by done. simpl map.
  rewrite undoAll_cons. cbn [fst snd]. by rewrite !applyClientOp_undo.
Qed.

Lemma runAll_redos now reqs : ∀ s,
  Forall (λ r : request, isRedo r.2 = true) reqs →
  runAll reqs s = redoAll now (map (λ r : request, r.1.2) reqs) s.
Proof.
  induction reqs as [|[[n u] op] reqs IH]; intros s Hall; [done|].
  apply Forall_cons in Hall as [Hr Hall]. simpl in Hr.
  destruct op as [[| |]| |]; try done.
  by rewrite runAll_cons, IH.
Qed.

Lemma active_history s s' : history s = history s' → active s = active s'.
Proof. unfold history, active. by intros [= -> -> _ _]. Qed.

Lemma runAll_app reqs reqs' s : runAll (reqs ++ reqs') s = runAll reqs' (runAll reqs s).
Proof. apply foldl_app. Qed.

Lemma runAll_undos_redos (before after : list request) s :
  wf s →
  Forall (λ r : request, isUndo r.2 || isDraw r.2 = true) before →
  Forall (λ r : request, isRedo r.2 || isDraw r.2 = true) after →
  length (filter (λ r : request, isUndo r.2 = true) before)
  = length (filter (λ r : request, isRedo r.2 = true) after) →
  length (filter (λ r : request, isUndo r.2 = true) before) ≤ size (active s) →
  active (runAll (before ++ after) s) = active s.
Proof.
  intros W Hb Ha Hlen Hsz.
  set (U := filter (λ r : request, isDraw r.2 = false) before).
  set (R := filter (λ r : request, isDraw r.2 = false) after).
  assert (HU : Forall (λ r : request, isUndo r.2 = true) U).
  { apply Forall_forall. intros r Hr. apply list_elem_of_filter in Hr as [Hd Hin].
    rewrite Forall_forall in Hb. specialize (Hb r Hin). rewrite Hd in Hb.
    by rewrite orb_false_r in Hb. }
  assert (HR : Forall (λ r : request, isRedo r.2 = true) R).
  { apply Forall_forall. intros r Hr. apply list_elem_of_filter in Hr as [Hd Hin].
    rewrite Forall_forall in Ha. specialize (Ha r Hin). rewrite Hd in Ha.
    by rewrite orb_false_r in Ha. }
  assert (HlenU : length U = length (filter (λ r : request, isUndo r.2 = true) before)).
  { clear -Hb. unfold U. induction before as [|r l IH]; [done|].
    apply Forall_cons in Hb as [Hr Hb]. rewrite !filter_cons.
    destruct (isDraw r.2) eqn:Hd, (isUndo r.2) eqn:Hu; try done.
    - by destruct r as [[? ?] [[| |]| |]].
    - rewrite decide_False, decide_False by done. by apply IH.
    - rewrite decide_True, decide_True by done. simpl. f_equal. by apply IH. }
  assert (HlenR : length R = length (filter (λ r : request, isRedo r.2 = true) after)).
  { clear -Ha. unfold R. induction after as [|r l IH]; [done|].
    apply Forall_cons in Ha as [Hr Ha]. rewrite !filter_cons.
    destruct (isDraw r.2) eqn:Hd, (isRedo r.2) eqn:Hu; try done.
    - by destruct r as [[? ?] [[| |]| |]].
    - rewrite decide_False, decide_False by done. by apply IH.
    - rewrite decide_True, decide_True by done. simpl. f_equal. by apply IH. }
  apply active_history.
  rewrite (runAll_history (before ++ after) s s); [|..|done].
  - rewrite filter_app. fold U R. rewrite runAll_app.
    rewrite (runAll_undos 0 U), (runAll_redos 0 R) by done.
    rewrite undoAll_redoAll; [done|done|..].
    + rewrite !length_map. lia.
    + rewrite length_map. lia.
  - apply Forall_app. split.
    + eapply Forall_impl; [exact Hb|]. intros r Hr. simpl in *.
      destruct (isUndo r.2), (isRedo r.2), (isDraw r.2); done.
    + eapply Forall_impl; [exact Ha|]. intros r Hr. simpl in *.
      destruct (isUndo r.2), (isRedo r.2), (isDraw r.2); done.
Qed.

End UndoRedo.

(** C3. From a state a room can be in, [N] undo requests followed by [N]
    redo requests, with [N] at most the number of committed strokes that are
    not undone, give back the set of active strokes (committed and not
    undone) there was before, whoever sends the requests; in particular one
    undo followed at once by one redo, when there is a stroke to undo.  The
    same holds when [stroke_start] and [stroke_points] ops, failing or not,
    come in between, as long as no [stroke_end] does. *)
Theorem C3_undos_then_redos_restore_active (now now' : Z) (s : DrawingState.t) :
  DrawingState.reachable s →
  (∀ undoers redoers : list string,
     length undoers = length redoers →
     length undoers ≤ size (DrawingState.active s) →
     DrawingState.active
       (DrawingState.redoAll now' redoers (DrawingState.undoAll now undoers s))
     = DrawingState.active s)
  ∧ (0 < size (DrawingState.active s) →
     ∀ u v,
       DrawingState.active
         (DrawingState.applyClientOp now' v RedoReq
            (DrawingState.applyClientOp now u UndoReq s).2).2
       = DrawingState.active s)
  ∧ (∀ before after : list DrawingState.request,
       Forall (λ r : DrawingState.request,
                 DrawingState.isUndo r.2 || DrawingState.isDraw r.2 = true)
         before →
       Forall (λ r : DrawingState.request,
                 DrawingState.isRedo r.2 || DrawingState.isDraw r.2 = true)
         after →
       length (filter (λ r : DrawingState.request,
                         DrawingState.isUndo r.2 = true) before)
       = length (filter (λ r : DrawingState.request,
                           DrawingState.isRedo r.2 = true) after) →
       length (filter (λ r : DrawingState.request,
                         DrawingState.isUndo r.2 = true) before)
       ≤ size (DrawingState.active s) →
       DrawingState.active (DrawingState.runAll (before ++ after) s)
       = DrawingState.active s).
Proof.
  intros Hr. pose proof (reachable_wf _ Hr) as W. split_and!.
  - intros us vs Hlen Hsz. by rewrite undoAll_redoAll.
  - intros Hsz u v. by rewrite undo_then_redo.
  - intros before after. by apply runAll_undos_redos.
Qed.

Lemma C3_witness :
  DrawingState.reachable Sample.two_committed
  ∧ length ["bob"; "alice"] = length ["alice"; "carol"]
  ∧ length ["bob"; "alice"] ≤ size (DrawingState.active Sample.two_committed)
  ∧ DrawingState.active
      (DrawingState.redoAll 8 ["alice"; "carol"]
         (DrawingState.undoAll 7 ["bob"; "alice"] Sample.two_committed))
    = DrawingState.active Sample.two_committed.
Proof.
  split; [apply reachable_two_committed|].
  split; [reflexivity|].
  split; [vm_compute; lia|].
  apply (C3_undos_then_redos_restore_active 7 8 Sample.two_committed).
  - apply reachable_two_committed.
  - reflexivity.
  - vm_compute; lia.
Defined.

(** ** Persisting and restoring *)

Section PersistRestore.
Import DrawingState.

Lemma restore_strokes_filter s seq :
  wf s →
  strokes (fromPersisted (exportPersisted seq s))
  = filter (λ kv : string * StrokeRecord, sr_committed kv.2 = true) (strokes s).
Proof.
  intros W. apply map_eq. intros k. rewrite restore_strokes by done.
  destruct (strokes s !! k) as [r|] eqn:Hl.
  - pose proof (wf_flag _ W _ _ Hl) as Hf. case_decide as Hc.
    + symmetry. apply map_lookup_filter_Some. split; [done|]. by apply Hf.
    + symmetry. apply map_lookup_filter_None. right. intros r' Hr'. simpl.
      rewrite Hl in Hr'. inversion Hr'; subst. intros Ht. by apply Hc, Hf.
  - case_decide; symmetry; apply map_lookup_filter_None; by left.
Qed.

Lemma values_filter (m : gmap string StrokeRecord) :
  (map_to_list (filter (λ kv : string * StrokeRecord, sr_committed kv.2 = true) m)).*2
  ≡ₚ filter (λ rec, sr_committed rec = true) (map_to_list m).*2.
Proof.
  rewrite map_filter_alt.
  rewrite map_to_list_to_map.
  - generalize (map_to_list m). intros l. induction l as [|[k r] l IH]; [done|].
    rewrite fmap_cons, !filter_cons. simpl.
    destruct (decide (sr_committed r = true)); simpl; by rewrite IH.
  - eapply sublist_NoDup; [apply (NoDup_fst_map_to_list m)|].
    apply fmap_sublist, sublist_filter.
Qed.

Lemma getSnapshot_restore seq s :
  wf s →
  let snap := getSnapshot s in
  let snap' := getSnapshot (fromPersisted (exportPersisted seq s)) in
  snap_strokes snap' ≡ₚ snap_strokes snap
  ∧ snap_undone snap' ≡ₚ snap_undone snap
  ∧ snap_inProgress snap' = [].
Proof.
  intros W. destruct (restore_fields s seq W) as (_ & Hu & _ & _).
  unfold getSnapshot. cbn [snap_strokes snap_undone snap_inProgress].
  rewrite Hu, restore_strokes_filter by done. split_and!; [|done|].
  - rewrite values_filter, list_filter_filter.
    erewrite list_filter_iff; [done|]. tauto.
  - apply Permutation_nil_r. rewrite values_filter, list_filter_filter.
    generalize ((map_to_list (strokes s)).*2). intros l.
    induction l as [|r l IH]; [done|].
    rewrite filter_cons. case_decide as Hd; [|done].
    destruct Hd; congruence.
Qed.

End PersistRestore.

(** C4. For every state a room can be in, exporting it with
    [exportPersisted] and rebuilding it with [fromPersisted] gives a state
    whose snapshot has the committed stroke records of the original snapshot
    (the same records, in some order), the same undone ids, and no stroke in
    progress. *)
Theorem C4_persist_restore_snapshot (seq : Z) (s : DrawingState.t) :
  DrawingState.reachable s →
  let snap := DrawingState.getSnapshot s in
  let snap' :=
    DrawingState.getSnapshot
      (DrawingState.fromPersisted (DrawingState.exportPersisted seq s)) in
  DrawingState.snap_strokes snap' ≡ₚ DrawingState.snap_strokes snap
  ∧ DrawingState.snap_undone snap' ≡ₚ DrawingState.snap_undone snap
  ∧ DrawingState.snap_inProgress snap' = [].
Proof. intros Hr. by apply getSnapshot_restore, reachable_wf. Qed.

Lemma C4_witness :
  DrawingState.reachable Sample.one_undone
  ∧ length (DrawingState.snap_inProgress
              (DrawingState.getSnapshot Sample.one_undone)) = 1
  ∧ DrawingState.snap_inProgress
      (DrawingState.getSnapshot
         (DrawingState.fromPersisted
            (DrawingState.exportPersisted 5 Sample.one_undone))) = [].
Proof.
  split; [apply reachable_one_undone|].
  split; [vm_compute; reflexivity|].
  apply (C4_persist_restore_snapshot 5 Sample.one_undone).
  apply reachable_one_undone.
Defined.

(** ** Failing calls *)

(** C6. A call of [applyClientOp] that fails leaves the drawing state as it
    was, every field of it; in particular a [stroke_start] with the id of a
    stroke that exists fails, and the record of that stroke stays as it
    was. *)
Theorem C6_failure_leaves_state (now : Z) (userId : string) (op : ClientOp)
    (s s' : DrawingState.t) (err : string) :
  DrawingState.applyClientOp now userId op s = (DrawingState.Err err, s') →
  s' = s
  ∧ ∀ id rec tool color w x y,
      DrawingState.strokes s !! id = Some rec →
      ∃ err' s'',
        DrawingState.applyClientOp now userId
          (COp (StrokeStart id tool color w x y)) s
        = (DrawingState.Err err', s'')
        ∧ s'' = s
        ∧ DrawingState.strokes s'' !! id = Some rec.
Proof.
  intros H. split; [by eapply applyClientOp_err|].
  intros id rec tool color w x y Hl. simpl. rewrite Hl. eauto.
Qed.

Lemma C6_witness :
  DrawingState.applyClientOp 9 "bob" (Sample.start "A1") Sample.two_committed
  = (DrawingState.Err "strokeId already exists", Sample.two_committed)
  ∧ ∃ err' s'',
      DrawingState.applyClientOp 9 "bob"
        (COp (StrokeStart "B1" eraser "#000000" (Fin 2) (Fin 0) (Fin 0)))
        Sample.two_committed
      = (DrawingState.Err err', s'')
      ∧ s'' = Sample.two_committed
      ∧ DrawingState.strokes s'' !! "B1"
        = Some (mkStroke "B1" "bob" brush "#111111" (Fin 4) [(Fin 10, Fin 20)]
                  true 3 4).
Proof.
  assert (H : DrawingState.applyClientOp 9 "bob" (Sample.start "A1")
                Sample.two_committed
              = (DrawingState.Err "strokeId already exists",
                 Sample.two_committed)) by (vm_compute; reflexivity).
  split; [exact H|].
  apply (proj2 (C6_failure_leaves_state 9 "bob" (Sample.start "A1")
                  Sample.two_committed Sample.two_committed
                  "strokeId already exists" H)).
  vm_compute; reflexivity.
Defined.

(** ** The width of a stroke *)

Section Width.
Import Validator.

Lemma isNum_Some v n : isNum v = Some n → ∃ q, v = JNum (Fin q) ∧ n = Fin q.
Proof.
  destruct v as [| | |m| | |]; simpl; try done.
  destruct m; simpl; try done. intros [= <-]. eauto.
Qed.

Lemma validateClientOp_start raw id tool color w x y :
  validateClientOp raw = Valid (COp (StrokeStart id tool color w x y)) →
  ∃ raw_w, isNum (getField raw "w") = Some raw_w ∧ w = clampWidth raw_w.
Proof.
  unfold validateClientOp.
  repeat (case_match; try discriminate).
  intros [= <- <- <- <- <- <-]. eauto.
Qed.

Lemma clampWidth_Fin q :
  clampWidth (Fin q)
  = if Qle_bool 64 q then Fin 64 else if Qle_bool q 1 then Fin 1 else Fin q.
Proof.
  unfold clampWidth, math_min, math_max.
  destruct (Qle_bool 64 q) eqn:E; [reflexivity|]. done.
Qed.

Lemma clampWidth_range q : in_range 1 64 (clampWidth (Fin q)).
Proof.
  rewrite clampWidth_Fin.
  destruct (Qle_bool 64 q) eqn:E1; [simpl; split; by apply Qle_bool_imp_le|].
  destruct (Qle_bool q 1) eqn:E2; [simpl; split; by apply Qle_bool_imp_le|].
  simpl. split.
  - apply Qlt_le_weak, Qnot_le_lt. intros H. apply Qle_bool_iff in H. congruence.
  - apply Qlt_le_weak, Qnot_le_lt. intros H. apply Qle_bool_iff in H. congruence.
Qed.

Lemma is_integer_inject z : is_integer (Fin (inject_Z z)).
Proof. exists z. reflexivity. Qed.

Lemma clampWidth_integer q : is_integer (Fin q) → is_integer (clampWidth (Fin q)).
Proof.
  intros H. rewrite clampWidth_Fin.
  destruct (Qle_bool 64 q); [apply (is_integer_inject 64)|].
  destruct (Qle_bool q 1); [apply (is_integer_inject 1)|done].
Qed.

Lemma half_not_integer : ¬ is_integer (Fin (5 # 2)).
Proof.
  intros [z Hz]. unfold Qeq in Hz. simpl in Hz. lia.
Qed.

End Width.

(** C8, amended.  For every [stroke_start] payload the validator accepts,
    the given width is a finite number [q] and the stored width is [q] clamped
    to the range from 1 to 64: 1 when [q <= 1], 64 when [q >= 64], [q] itself
    in between.  It is an integer when [q] is one (and whenever [q] lies
    outside the range), not otherwise.  Width 0.1 is stored as 1 and width 999
    as 64. *)
Theorem C8_stored_width_clamped :
  (∀ raw id tool color w x y,
     Validator.validateClientOp raw
     = Validator.Valid (COp (StrokeStart id tool color w x y)) →
     ∃ q : Q,
       Validator.getField raw "w" = JNum (Fin q)
       ∧ w = Validator.clampWidth (Fin q)
       ∧ in_range 1 64 w
       ∧ ((q <= 1)%Q → w = Fin 1)
       ∧ ((64 <= q)%Q → w = Fin 64)
       ∧ ((1 < q)%Q → (q < 64)%Q → w = Fin q)
       ∧ (is_integer (Fin q) → is_integer w))
  ∧ Validator.validateClientOp (Sample.startPayload (Fin Sample.tenth))
    = Validator.Valid
        (COp (StrokeStart "S1" brush "#ff0000" (Fin 1) (Fin 3) (Fin 4)))
  ∧ Validator.validateClientOp (Sample.startPayload (Fin 999))
    = Validator.Valid
        (COp (StrokeStart "S1" brush "#ff0000" (Fin 64) (Fin 3) (Fin 4))).
Proof.
  split; [|split; vm_compute; reflexivity].
  intros raw id tool color w x y H.
  apply validateClientOp_start in H as (n & Hn & ->).
  destruct (isNum_Some _ _ Hn) as (q & Hq & ->).
  exists q. split; [exact Hq|]. split; [done|].
  split; [apply clampWidth_range|]. rewrite clampWidth_Fin. split_and!.
  - intros Hle. apply Qle_bool_iff in Hle.
    destruct (Qle_bool 64 q) eqn:E; [|by rewrite Hle].
    apply Qle_bool_iff in E, Hle. exfalso.
    apply (Qle_not_lt _ _ (Qle_trans _ _ _ E Hle)). reflexivity.
  - intros Hge. apply Qle_bool_iff in Hge. by rewrite Hge.
  - intros Hlo Hhi.
    destruct (Qle_bool 64 q) eqn:E1.
    { apply Qle_bool_iff in E1. by apply Qle_not_lt in E1. }
    destruct (Qle_bool q 1) eqn:E2; [|done].
    apply Qle_bool_iff in E2. by apply Qle_not_lt in E2.
  - intros Hint. rewrite <- clampWidth_Fin. by apply clampWidth_integer.
Qed.

Lemma C8_witness :
  Validator.validateClientOp (Sample.startPayload (Fin (5 # 2)))
  = Validator.Valid
      (COp (StrokeStart "S1" brush "#ff0000" (Fin (5 # 2)) (Fin 3) (Fin 4)))
  ∧ ∃ q : Q,
      Validator.getField (Sample.startPayload (Fin (5 # 2))) "w" = JNum (Fin q)
      ∧ Fin (5 # 2) = Validator.clampWidth (Fin q)
      ∧ in_range 1 64 (Fin (5 # 2))
      ∧ ((q <= 1)%Q → Fin (5 # 2) = Fin 1)
      ∧ ((64 <= q)%Q → Fin (5 # 2) = Fin 64)
      ∧ ((1 < q)%Q → (q < 64)%Q → Fin (5 # 2) = Fin q)
      ∧ (is_integer (Fin q) → is_integer (Fin (5 # 2))).
Proof.
  split; [vm_compute; reflexivity|].
  apply (proj1 C8_stored_width_clamped
           (Sample.startPayload (Fin (5 # 2))) "S1" brush "#ff0000"
           (Fin (5 # 2)) (Fin 3) (Fin 4)).
  vm_compute; reflexivity.
Defined.

(** C8 as first stated fails: the payload with width 2.5 is accepted, and the
    width stored for it is 2.5, which is in the range but is not an
    integer. *)
Lemma C8_counterexample :
  Validator.validateClientOp (Sample.startPayload (Fin (5 # 2)))
  = Validator.Valid
      (COp (StrokeStart "S1" brush "#ff0000" (Fin (5 # 2)) (Fin 3) (Fin 4)))
  ∧ ¬ is_integer (Fin (5 # 2)).
Proof. split; [vm_compute; reflexivity|apply half_not_integer]. Qed.

(** ** The client id of a join *)

Section ClientId.
Import Validator.

Lemma slice0_short n s : String.length s ≤ n → slice0 n s = s.
Proof.
  unfold slice0. revert n. induction s as [|c s IH]; intros n Hn.
  - by destruct n.
  - destruct n as [|n]; simpl in *; [lia|]. rewrite IH; [done|lia].
Qed.

Lemma validateJoin_clientId raw v cid :
  validateJoin raw = Valid v →
  getField raw "clientId" = JStr cid →
  clientId v = if (String.length cid <=? 64)%nat then Some cid else None.
Proof.
  unfold validateJoin. intros H Hc.
  destruct (negb (isObj raw)); [done|].
  destruct (isStr (getField raw "roomId")); [|done].
  inversion H; subst; clear H. simpl. by rewrite Hc.
Qed.

Lemma joinUserId_clientId sock raw v cid :
  validateJoin raw = Valid v →
  getField raw "clientId" = JStr cid →
  Server.joinUserId sock raw
  = Valid (if (0 <? String.length cid)%nat && (String.length cid <=? 64)%nat
           then cid else sock).
Proof.
  intros H Hc. unfold Server.joinUserId.
  rewrite H, (validateJoin_clientId _ _ _ H Hc).
  destruct (String.length cid <=? 64)%nat; [|by rewrite andb_false_r].
  rewrite andb_true_r. by destruct (0 <? String.length cid)%nat.
Qed.

End ClientId.

(** C9, amended.  For every join payload the validator accepts and whose
    [clientId] is a string: a client id of at most 64 code units is kept as
    it is (it is its own prefix of 64 code units) and, unless empty, is the
    user id; a client id of more than 64 code units is dropped, and the user
    id is the connection id, as it is when no client id is given. *)
Theorem C9_client_id_kept_or_dropped (sock : string) (raw : JsVal)
    (v : Validator.JoinPayload) (cid : string) :
  Validator.validateJoin raw = Validator.Valid v →
  Validator.getField raw "clientId" = JStr cid →
  (String.length cid ≤ 64 →
     Validator.clientId v = Some cid
     ∧ Validator.slice0 64 cid = cid
     ∧ Server.joinUserId sock raw
       = Validator.Valid (if (0 <? String.length cid)%nat then cid else sock))
  ∧ (64 < String.length cid →
     Validator.clientId v = None
     ∧ Server.joinUserId sock raw = Validator.Valid sock).
Proof.
  intros Hv Hc.
  pose proof (validateJoin_clientId _ _ _ Hv Hc) as Hcid.
  pose proof (joinUserId_clientId sock _ _ _ Hv Hc) as Hu.
  split; intros Hlen.
  - assert ((String.length cid <=? 64)%nat = true) as E by (apply Nat.leb_le; lia).
    rewrite E in Hcid, Hu. rewrite andb_true_r in Hu.
    split_and!; [done|by apply slice0_short|done].
  - assert ((String.length cid <=? 64)%nat = false) as E
      by (apply Nat.leb_gt; lia).
    rewrite E in Hcid, Hu. rewrite andb_false_r in Hu. done.
Qed.

Lemma C9_witness :
  Validator.validateJoin (Sample.joinPayload "ann-7")
  = Validator.Valid (Validator.mkJoin "lobby" (Some "Ann") edit (Some "ann-7"))
  ∧ Server.joinUserId "sock-1" (Sample.joinPayload "ann-7")
    = Validator.Valid "ann-7".
Proof.
  assert (Hv : Validator.validateJoin (Sample.joinPayload "ann-7")
               = Validator.Valid
                   (Validator.mkJoin "lobby" (Some "Ann") edit (Some "ann-7")))
    by (vm_compute; reflexivity).
  split; [exact Hv|].
  refine (proj2 (proj2 (proj1
    (C9_client_id_kept_or_dropped "sock-1" (Sample.joinPayload "ann-7")
       _ "ann-7" Hv _) _))).
  - vm_compute; reflexivity.
  - vm_compute; lia.
Defined.

(** C9 as first stated fails: a client id of 65 code units is not cut to its
    first 64; the payload is accepted without a client id and the user id is
    the connection id. *)
Lemma C9_counterexample :
  String.length Sample.longId = 65
  ∧ Validator.validateJoin (Sample.joinPayload Sample.longId)
    = Validator.Valid (Validator.mkJoin "lobby" (Some "Ann") edit None)
  ∧ Server.joinUserId "sock-1" (Sample.joinPayload Sample.longId)
    = Validator.Valid "sock-1"
  ∧ Server.joinUserId "sock-1" (Sample.joinPayload Sample.longId)
    ≠ Validator.Valid (Validator.slice0 64 Sample.longId).
Proof.
  split_and!; [vm_compute; reflexivity..|].
  vm_compute. discriminate.
Qed.

(** ** The reorder buffer *)

Section Reorder.
Import RealtimeClient.

Lemma run_delete n : ∀ (p : gmap Z OpEnvelope) from d,
  (d < from)%Z → run n (delete d p) from = run n p from.
Proof.
  induction n as [|n IH]; intros p from d Hd; simpl; [done|].
  rewrite lookup_delete_ne by lia.
  destruct (p !! from); [|done]. rewrite IH by lia. done.
Qed.

Lemma run_lookup n : ∀ (p : gmap Z OpEnvelope) from i e,
  run n p from !! i = Some e → p !! (from + Z.of_nat i)%Z = Some e.
Proof.
  induction n as [|n IH]; intros p from i e; simpl; [done|].
  destruct (p !! from) as [x|] eqn:Hx; [|done].
  destruct i as [|i]; simpl.
  - intros [= <-]. by rewrite Z.add_0_r.
  - intros H. apply IH in H. rewrite <- H. f_equal. lia.
Qed.

Lemma flush_run fuel : ∀ clock k c,
  size (pending c) ≤ fuel →
  let buffered := run fuel (pending c) (expectedSeq c) in
  flush fuel clock k c
  = mk (expectedSeq c + Z.of_nat (length buffered))
       (deleteRange (length buffered) (expectedSeq c) (pending c))
       (applyAll clock k buffered (store c))
  ∧ pending c !! (expectedSeq c + Z.of_nat (length buffered))%Z = None.
Proof.
  induction fuel as [|fuel IH]; intros clock k c Hsz; simpl.
  - rewrite Z.add_0_r. split; [by destruct c|].
    assert (pending c = ∅) as -> by (apply map_size_empty_iff; lia).
    apply lookup_empty.
  - destruct (pending c !! expectedSeq c) as [next|] eqn:Hn; simpl.
    + destruct (IH clock (S k)
                 (mk (expectedSeq c + 1) (delete (expectedSeq c) (pending c))
                     (Store.applyEnvelope (clock k) next (store c))))
        as [Heq Hgap].
      { simpl. rewrite map_size_delete_Some by eauto. lia. }
      simpl in Heq, Hgap. rewrite run_delete in Heq, Hgap by lia.
      rewrite Heq. split.
      * f_equal. lia.
      * rewrite lookup_delete_ne in Hgap by lia. rewrite <- Hgap. f_equal. lia.
    + rewrite Z.add_0_r. split; [by destruct c|done].
Qed.

Lemma hasRoom_true st :
  hasRoom st = true ↔ ∃ rid, Store.roomId st = Some rid ∧ rid ≠ "".
Proof.
  unfold hasRoom. destruct (Store.roomId st) as [[|a rid]|]; simpl.
  - split; [done|]. by intros (? & [= <-] & ?).
  - split; [eauto|done].
  - split; [done|]. by intros (? & ? & _).
Qed.

Lemma hasRoom_false st :
  hasRoom st = false ↔ Store.roomId st = None ∨ Store.roomId st = Some "".
Proof.
  unfold hasRoom. destruct (Store.roomId st) as [[|a rid]|]; simpl.
  - split; [by right|done].
  - split; [done|]. by intros [?|?].
  - split; [by left|done].
Qed.

Lemma handleEnvelope_unsynced clock env c :
  hasRoom (store c) = false → handleEnvelope clock env c = c.
Proof. intros Hs. unfold handleEnvelope. by rewrite Hs. Qed.

Lemma handleEnvelope_synced clock env c :
  hasRoom (store c) = true →
  handled_in_order clock env c (handleEnvelope clock env c).
Proof.
  intros Hs. unfold handled_in_order, handleEnvelope.
  rewrite Hs. cbn [negb]. split_and!.
  - intros Hlt. by rewrite bool_decide_true.
  - intros Hgt. rewrite bool_decide_false, bool_decide_true by lia. done.
  - intros Heq. rewrite bool_decide_false, bool_decide_false by lia.
    match goal with |- context [flush ?f ?cl ?k ?c1] =>
      destruct (flush_run f cl k c1) as [Hf Hgap]; [done|] end.
    simpl in Hf, Hgap.
    exists (run (size (pending c)) (pending c) (expectedSeq c + 1)).
    rewrite Heq. split_and!.
    + intros i e Hi. apply (run_lookup _ _ _ _ _ Hi).
    + done.
    + cbv zeta. simpl pending. rewrite Hf. done.
Qed.

Lemma handleEnvelope_7_6_5 clock7 clock6 clock5 e5 e6 e7 c :
  hasRoom (store c) = true →
  expectedSeq c = 5%Z → pending c = ∅ →
  env_seq e5 = 5%Z → env_seq e6 = 6%Z → env_seq e7 = 7%Z →
  let c7 := handleEnvelope clock7 e7 c in
  let c6 := handleEnvelope clock6 e6 c7 in
  let c5 := handleEnvelope clock5 e5 c6 in
  store c6 = store c ∧ expectedSeq c6 = 5%Z
  ∧ store c5 = applyAll clock5 0 [e5; e6; e7] (store c)
  ∧ expectedSeq c5 = 8%Z ∧ pending c5 = ∅.
Proof.
  intros Hs He Hp H5 H6 H7. destruct c as [e p st]. simpl in *. subst e p.
  unfold handleEnvelope. simpl.
  rewrite Hs. cbn [negb].
  rewrite H7. simpl. rewrite Hs, H6. simpl.
  rewrite Hs, H5. simpl.
  assert (Hsz : size (<[6%Z:=e6]> (<[7%Z:=e7]> (∅ : gmap Z OpEnvelope))) = 2).
  { vm_compute. reflexivity. }
  rewrite Hsz. cbn [flush expectedSeq pending store].
  change (5 + 1)%Z with 6%Z. rewrite lookup_insert_eq.
  cbn [flush expectedSeq pending store].
  change (6 + 1)%Z with 7%Z.
  rewrite lookup_delete_ne, lookup_insert_ne, lookup_insert_eq by lia.
  cbn [flush expectedSeq pending store].
  split_and!; done.
Qed.

End Reorder.

(** C7, amended.  The client handles an envelope only once its store has a
    room: the guard [if (!state.roomId) return] ignores every envelope while
    [roomId] is null, as it is before the first sync, and also while it is the
    empty string.  With a room id that is not empty, an envelope with sequence
    number [n] is dropped when [n < expectedSeq], stored in [pending] and not
    applied when [n > expectedSeq], and when [n = expectedSeq] it is applied
    to the mirror, followed in order by the buffered envelopes numbered
    [n + 1], [n + 2], ... up to the first number missing from [pending], which
    becomes the new [expectedSeq]; the envelopes applied leave [pending].  In
    particular, with a room id that is not empty, [expectedSeq = 5] and nothing
    buffered, the arrivals 7, 6, 5 change nothing in the mirror until 5
    arrives, and then 5, 6, 7 are applied in this order and [expectedSeq]
    is 8. *)
Theorem C7_reorder_buffer_once_synced (clock : nat → nat → Z)
    (env : OpEnvelope) (c : RealtimeClient.t) :
  (Store.roomId (RealtimeClient.store c) = None
   ∨ Store.roomId (RealtimeClient.store c) = Some "" →
   RealtimeClient.handleEnvelope clock env c = c)
  ∧ (∀ rid,
       Store.roomId (RealtimeClient.store c) = Some rid → rid ≠ "" →
       RealtimeClient.handled_in_order clock env c
         (RealtimeClient.handleEnvelope clock env c))
  ∧ (∀ rid,
       Store.roomId (RealtimeClient.store c) = Some rid → rid ≠ "" →
       RealtimeClient.expectedSeq c = 5%Z →
       RealtimeClient.pending c = ∅ →
       ∀ clock7 clock6 e5 e6 e7,
         env_seq e5 = 5%Z → env_seq e6 = 6%Z → env_seq e7 = 7%Z →
         let c7 := RealtimeClient.handleEnvelope clock7 e7 c in
         let c6 := RealtimeClient.handleEnvelope clock6 e6 c7 in
         let c5 := RealtimeClient.handleEnvelope clock e5 c6 in
         RealtimeClient.store c6 = RealtimeClient.store c
         ∧ RealtimeClient.expectedSeq c6 = 5%Z
         ∧ RealtimeClient.store c5
           = RealtimeClient.applyAll clock 0 [e5; e6; e7]
               (RealtimeClient.store c)
         ∧ RealtimeClient.expectedSeq c5 = 8%Z
         ∧ RealtimeClient.pending c5 = ∅).
Proof.
  split_and!.
  - intros Hn. by apply handleEnvelope_unsynced, hasRoom_false.
  - intros rid Hr Hne. apply handleEnvelope_synced, hasRoom_true. eauto.
  - intros rid Hr Hne He Hp clock7 clock6 e5 e6 e7 H5 H6 H7.
    apply handleEnvelope_7_6_5; try done. apply hasRoom_true. eauto.
Qed.

Lemma C7_witness :
  Store.roomId
    (RealtimeClient.store
       (RealtimeClient.onSync Sample.sync12 RealtimeClient.initial))
  = Some "lobby"
  ∧ RealtimeClient.handled_in_order Sample.still
      (mkEnvelope 13 (UndoApplied "S1") "alice" 0)
      (RealtimeClient.onSync Sample.sync12 RealtimeClient.initial)
      (RealtimeClient.handleEnvelope Sample.still
         (mkEnvelope 13 (UndoApplied "S1") "alice" 0)
         (RealtimeClient.onSync Sample.sync12 RealtimeClient.initial))
  ∧ RealtimeClient.handleEnvelope Sample.still
      (mkEnvelope 1 (UndoApplied "S1") "alice" 0)
      (RealtimeClient.onSync Sample.syncNoRoom RealtimeClient.initial)
    = RealtimeClient.onSync Sample.syncNoRoom RealtimeClient.initial.
Proof.
  split; [reflexivity|]. split.
  - exact (proj1 (proj2 (C7_reorder_buffer_once_synced Sample.still
                           (mkEnvelope 13 (UndoApplied "S1") "alice" 0)
                           (RealtimeClient.onSync Sample.sync12
                              RealtimeClient.initial)))
             "lobby" eq_refl ltac:(discriminate)).
  - exact (proj1 (C7_reorder_buffer_once_synced Sample.still
                    (mkEnvelope 1 (UndoApplied "S1") "alice" 0)
                    (RealtimeClient.onSync Sample.syncNoRoom
                       RealtimeClient.initial))
             (or_intror eq_refl)).
Defined.

(** C7 as first stated fails: the client as created expects sequence number
    1, and the envelope numbered 1 that reaches it before any sync is not
    applied; the client stays as it was. *)
Lemma C7_counterexample :
  RealtimeClient.expectedSeq RealtimeClient.initial = env_seq Sample.firstEnvelope
  ∧ RealtimeClient.handleEnvelope Sample.still Sample.firstEnvelope
      RealtimeClient.initial
    = RealtimeClient.initial
  ∧ ¬ RealtimeClient.handled_in_order Sample.still Sample.firstEnvelope
        RealtimeClient.initial
        (RealtimeClient.handleEnvelope Sample.still Sample.firstEnvelope
           RealtimeClient.initial).
Proof.
  split; [reflexivity|]. split; [reflexivity|].
  intros (_ & _ & H). destruct (H eq_refl) as (buffered & _ & _ & Heq).
  apply (f_equal RealtimeClient.expectedSeq) in Heq. simpl in Heq. lia.
Qed.

(** ** The dispatcher *)

Section Dispatcher.
Import Server.

Lemma edit_may_write (user : Room.RoomUser) (b : bool) :
  Room.mode user = edit → b && bool_decide (Room.mode user = view) = false.
Proof. intros ->. by rewrite andb_false_r. Qed.

Lemma onMsg_applied sock rid raw t1 t2 t3 (rooms : gmap string Room.t) room user op :
  rooms !! rid = Some room →
  Room.getUser sock room = Some user →
  Room.mode user = edit →
  Validator.validateClientOp raw = Validator.Valid op →
  onMsg sock (Some rid) raw t1 t2 t3 rooms =
    match DrawingState.applyClientOp t1 (Room.userId user) op (Room.drawing room) with
    | (DrawingState.Err err, d) =>
        (mkOutcome (AckErr err) [] None, <[rid := Room.set_drawing d room]> rooms)
    | (DrawingState.Ok None, d) =>
        (mkOutcome AckNoOp [] None, <[rid := Room.set_drawing d room]> rooms)
    | (DrawingState.Ok (Some broadcast), d) =>
        let (seq, room1) := Room.bumpSeq (Room.set_drawing d room) in
        let env := mkEnvelope seq broadcast (Room.userId user) t2 in
        let (written, room2) := Room.maybePersist t3 room1 in
        (mkOutcome (AckSeq seq) [(rid, env)] written, <[rid := room2]> rooms)
    end.
Proof.
  intros Hroom Huser Hmode Hop. unfold onMsg, get.
  rewrite Hroom, Huser, Hop, (edit_may_write _ _ Hmode). done.
Qed.

Lemma maybePersist_seq now r :
  Room.seq (Room.maybePersist now r).2 = Room.seq r.
Proof. unfold Room.maybePersist. by case_bool_decide. Qed.

Lemma maybePersist_drawing now r :
  Room.drawing (Room.maybePersist now r).2 = Room.drawing r.
Proof. unfold Room.maybePersist. by case_bool_decide. Qed.

Lemma onMsg_seq sock sock_room raw t1 t2 t3 rooms :
  seq_moves_with_broadcast sock_room rooms
    (onMsg sock sock_room raw t1 t2 t3 rooms).2
    (onMsg sock sock_room raw t1 t2 t3 rooms).1.
Proof.
  intros rid room Hroom.
  assert (Hsame : ∀ a, ∃ room', rooms !! rid = Some room' ∧
      ((Room.seq room' = Room.seq room
        ∧ (sock_room = Some rid →
           emitted (mkOutcome (AckErr a) [] None) = []
           ∧ ∀ n, ack (mkOutcome (AckErr a) [] None) ≠ AckSeq n))
       ∨ (sock_room = Some rid
          ∧ Room.seq room' = (Room.seq room + 1)%Z
          ∧ ack (mkOutcome (AckErr a) [] None) = AckSeq (Room.seq room + 1)
          ∧ ∃ env, emitted (mkOutcome (AckErr a) [] None) = [(rid, env)]
                   ∧ env_seq env = (Room.seq room + 1)%Z))).
  { intros a. exists room. split; [done|]. left. split; [done|]. by intros _. }
  unfold onMsg, get.
  destruct sock_room as [r|]; [|apply Hsame].
  destruct (rooms !! r) as [room0|] eqn:Hr; [|apply Hsame].
  destruct (Room.getUser sock room0) as [user|]; [|apply Hsame].
  destruct (Validator.validateClientOp raw) as [op|err]; [|apply Hsame].
  destruct (_ && _); [apply Hsame|].
  destruct (DrawingState.applyClientOp _ _ _ _) as [[[b|]|err] d]; simpl.
  - destruct (Room.maybePersist _ _) as [written room2] eqn:Hp. simpl.
    pose proof (maybePersist_seq t3
      (Room.mk (Room.roomId room0) (Room.seq room0 + 1) (Room.users room0) d
         (Room.lastPersistAt room0))) as Hs.
    rewrite Hp in Hs. simpl in Hs.
    destruct (decide (r = rid)) as [->|Hne].
    + rewrite lookup_insert_eq. exists room2. split; [done|]. right.
      rewrite Hroom in Hr. inversion Hr; subst room0. eauto 10.
    + rewrite lookup_insert_ne by done. exists room. split; [done|]. left.
      split; [done|]. intros [= ?]. done.
  - destruct (decide (r = rid)) as [->|Hne].
    + rewrite lookup_insert_eq. eexists. split; [done|]. left.
      rewrite Hroom in Hr. inversion Hr; subst room0. simpl. split; [done|]. by intros _.
    + rewrite lookup_insert_ne by done. exists room. split; [done|]. left.
      split; [done|]. by intros _.
  - destruct (decide (r = rid)) as [->|Hne].
    + rewrite lookup_insert_eq. eexists. split; [done|]. left.
      rewrite Hroom in Hr. inversion Hr; subst room0. simpl. split; [done|]. by intros _.
    + rewrite lookup_insert_ne by done. exists room. split; [done|]. left.
      split; [done|]. by intros _.
Qed.

Lemma validate_emptyPoints id :
  id ≠ "" →
  Validator.validateClientOp (Sample.emptyPoints id) = Validator.Valid (COp (StrokePoints id [])).
Proof. intros Hid. destruct id; [done|]. reflexivity. Qed.

Lemma apply_no_points now u s id rec :
  DrawingState.strokes s !! id = Some rec →
  sr_committed rec = false →
  sr_userId rec = u →
  DrawingState.applyClientOp now u (COp (StrokePoints id [])) s
  = (DrawingState.Ok (Some (SOp (StrokePoints id []))),
     DrawingState.set_strokes
       (<[id := mkStroke (sr_id rec) (sr_userId rec) (sr_tool rec) (sr_color rec)
                 (sr_w rec) (sr_points rec) (sr_committed rec)
                 (sr_createdAt rec) now]> (DrawingState.strokes s)) s).
Proof.
  intros Hl Hc Hu. simpl. rewrite Hl, Hc, bool_decide_true by done. simpl.
  by rewrite app_nil_r.
Qed.

End Dispatcher.

(** C5. When a joined user with edit rights sends an op for which
    [applyClientOp] succeeds with nothing to broadcast (an undo or a redo
    that finds nothing, as an undo in a room where nothing is committed), the
    handler acknowledges [{ok: true, noOp: true}], emits no envelope, writes
    nothing and leaves the room's [seq] as it was.  And whatever the handler
    is given, a room's [seq] either stays, with no envelope for that room, or
    goes up by exactly one together with the one envelope that carries the
    new value. *)
Theorem C5_noop_is_not_sequenced (sock rid : string) (raw : JsVal)
    (t_apply t_env t_persist : Z) (rooms : gmap string Room.t)
    (room : Room.t) (user : Room.RoomUser) (op : ClientOp)
    (d : DrawingState.t) :
  rooms !! rid = Some room →
  Room.getUser sock room = Some user →
  Room.mode user = edit →
  Validator.validateClientOp raw = Validator.Valid op →
  DrawingState.applyClientOp t_apply (Room.userId user) op (Room.drawing room)
  = (DrawingState.Ok None, d) →
  Server.onMsg sock (Some rid) raw t_apply t_env t_persist rooms
  = (Server.mkOutcome Server.AckNoOp [] None,
     <[rid := Room.set_drawing d room]> rooms)
  ∧ Room.seq (Room.set_drawing d room) = Room.seq room
  ∧ ∀ sock' sock_room' raw' t_apply' t_env' t_persist',
      Server.seq_moves_with_broadcast sock_room' rooms
        (Server.onMsg sock' sock_room' raw' t_apply' t_env' t_persist' rooms).2
        (Server.onMsg sock' sock_room' raw' t_apply' t_env' t_persist' rooms).1.
Proof.
  intros Hroom Huser Hmode Hop Happly. split_and!.
  - by rewrite (onMsg_applied _ _ _ _ _ _ _ _ _ _ Hroom Huser Hmode Hop), Happly.
  - done.
  - intros. apply onMsg_seq.
Qed.

Lemma C5_witness :
  Server.onMsg "sock-1" (Some "lobby") Sample.undoPayload 10 11 12
    Sample.fresh_rooms
  = (Server.mkOutcome Server.AckNoOp [] None, Sample.fresh_rooms).
Proof.
  assert (Hroom : Sample.fresh_rooms !! "lobby"
                  = Some (Room.mk "lobby" 0 {[ "sock-1" := Sample.alice ]}
                            DrawingState.empty 0))
    by (vm_compute; reflexivity).
  assert (Hsame : <["lobby" := Room.set_drawing DrawingState.empty
                                 (Room.mk "lobby" 0 {[ "sock-1" := Sample.alice ]}
                                    DrawingState.empty 0)]> Sample.fresh_rooms
                  = Sample.fresh_rooms)
    by (vm_compute; reflexivity).
  rewrite <- Hsame at 2.
  refine (proj1 (C5_noop_is_not_sequenced "sock-1" "lobby" Sample.undoPayload
                   10 11 12 Sample.fresh_rooms _ Sample.alice UndoReq
                   DrawingState.empty Hroom _ _ _ _));
    vm_compute; reflexivity.
Defined.

(** C10. The validator accepts a [stroke_points] op whose [pts] is the empty
    array; sent by the owner of a stroke that exists and is not committed,
    [applyClientOp] succeeds with the op itself as the broadcast and the
    points of the stroke (and every other stroke) as they were; and the
    handler gives the op the next sequence number and emits its envelope. *)
Theorem C10_empty_points_take_a_seq sock rid t1 t2 t3 (rooms : gmap string Room.t) room user id rec :
  id ≠ "" →
  rooms !! rid = Some room →
  Room.getUser sock room = Some user →
  Room.mode user = edit →
  DrawingState.strokes (Room.drawing room) !! id = Some rec →
  sr_committed rec = false →
  sr_userId rec = Room.userId user →
  Validator.validateClientOp (Sample.emptyPoints id) = Validator.Valid (COp (StrokePoints id []))
  ∧ (∃ d rec',
       DrawingState.applyClientOp t1 (Room.userId user) (COp (StrokePoints id []))
         (Room.drawing room)
       = (DrawingState.Ok (Some (SOp (StrokePoints id []))), d)
       ∧ DrawingState.strokes d !! id = Some rec'
       ∧ sr_points rec' = sr_points rec
       ∧ ∀ k, k ≠ id →
           DrawingState.strokes d !! k = DrawingState.strokes (Room.drawing room) !! k)
  ∧ (∃ room' rec',
       let result := Server.onMsg sock (Some rid) (Sample.emptyPoints id) t1 t2 t3 rooms in
       Server.ack result.1 = Server.AckSeq (Room.seq room + 1)
       ∧ Server.emitted result.1
         = [(rid, mkEnvelope (Room.seq room + 1) (SOp (StrokePoints id []))
                    (Room.userId user) t2)]
       ∧ result.2 !! rid = Some room'
       ∧ Room.seq room' = (Room.seq room + 1)%Z
       ∧ DrawingState.strokes (Room.drawing room') !! id = Some rec'
       ∧ sr_points rec' = sr_points rec).
Proof.
  intros Hid Hroom Huser Hmode Hl Hc Hu.
  pose proof (validate_emptyPoints id Hid) as Hv.
  pose proof (apply_no_points t1 _ _ _ _ Hl Hc Hu) as Ha.
  split; [done|]. split.
  - eexists _, _. split; [exact Ha|]. simpl. rewrite lookup_insert_eq.
    split_and!; [done..|]. intros k Hk. by rewrite lookup_insert_ne.
  - rewrite (onMsg_applied _ _ _ _ _ _ _ _ _ _ Hroom Huser Hmode Hv), Ha.
    cbn [Room.bumpSeq Room.set_drawing Room.seq Room.roomId Room.users
         Room.drawing Room.lastPersistAt].
    match goal with |- context [Room.maybePersist ?t ?r] =>
      pose proof (maybePersist_seq t r) as Hs;
      pose proof (maybePersist_drawing t r) as Hd;
      destruct (Room.maybePersist t r) as [written room2]
    end.
    simpl in Hs, Hd. eexists room2, _. simpl.
    rewrite lookup_insert_eq, Hd, Hs. simpl. rewrite lookup_insert_eq. done.
Qed.
Lemma C10_witness :
  Server.ack
    (Server.onMsg "sock-1" (Some "lobby") (Sample.emptyPoints "A1") 10 11 12
       Sample.drawing_rooms).1
  = Server.AckSeq 2
  ∧ Validator.validateClientOp (Sample.emptyPoints "A1")
    = Validator.Valid (COp (StrokePoints "A1" [])).
Proof.
  split; [vm_compute; reflexivity|].
  refine (proj1 (C10_empty_points_take_a_seq "sock-1" "lobby" 10 11 12
                   Sample.drawing_rooms
                   (Room.mk "lobby" 1 {[ "sock-1" := Sample.alice ]}
                      (Sample.step 1 "alice" (Sample.start "A1")
                         DrawingState.empty) 0)
                   Sample.alice "A1"
                   (mkStroke "A1" "alice" brush "#111111" (Fin 4)
                      [(Fin 10, Fin 20)] false 1 1)
                   _ _ _ _ _ _ _));
    try (vm_compute; reflexivity).
  discriminate.
Defined.

(** ** The scenarios of the specification, run on the model *)

(** Global undo across users: Alice commits A1, Bob commits B1; Bob's undo
    takes B1, Alice's undo takes A1, Alice's redo brings A1 back. *)
Example scenario_global_undo :
  let s1 := Sample.step 5 "bob" UndoReq Sample.two_committed in
  let s2 := Sample.step 6 "alice" UndoReq s1 in
  (DrawingState.applyClientOp 5 "bob" UndoReq Sample.two_committed).1
  = DrawingState.Ok (Some (UndoApplied "B1"))
  ∧ (DrawingState.applyClientOp 6 "alice" UndoReq s1).1
    = DrawingState.Ok (Some (UndoApplied "A1"))
  ∧ (DrawingState.applyClientOp 7 "alice" RedoReq s2).1
    = DrawingState.Ok (Some (RedoApplied "A1")).
Proof. vm_compute. done. Qed.

(** Redo invalidation: after commit, undo, commit, a redo finds nothing and
    the redo stack is empty. *)
Example scenario_redo_invalidated :
  let s1 := Sample.step 2 "alice" (COp (StrokeEnd "A1"))
              (Sample.step 1 "alice" (Sample.start "A1") DrawingState.empty) in
  let s2 := Sample.step 3 "alice" UndoReq s1 in
  let s3 := Sample.step 5 "alice" (COp (StrokeEnd "A2"))
              (Sample.step 4 "alice" (Sample.start "A2") s2) in
  DrawingState.redoStack s2 = ["A1"]
  ∧ (DrawingState.applyClientOp 6 "alice" RedoReq s3).1 = DrawingState.Ok None
  ∧ DrawingState.redoStack (Sample.step 6 "alice" RedoReq s3) = [].
Proof. vm_compute. done. Qed.

(** Ownership rejection: Bob cannot append to the stroke Alice started, and
    the stroke keeps its one point. *)
Example scenario_ownership :
  let s1 := Sample.step 1 "alice" (Sample.start "S") DrawingState.empty in
  DrawingState.applyClientOp 2 "bob"
    (COp (StrokePoints "S" [(Fin 1, Fin 1)])) s1
  = (DrawingState.Err "stroke owned by another user", s1)
  ∧ sr_points <$> (DrawingState.strokes s1 !! "S") = Some [(Fin 10, Fin 20)].
Proof. vm_compute. done. Qed.

(** Restart: X and Y committed, Y undone, Z committed; the export and the
    restore keep the order and the undone set, and the snapshot then shows
    three committed strokes and nothing in progress. *)
Example scenario_restart :
  let commit (now : Z) (id : string) (s : DrawingState.t) :=
    Sample.step (now + 1) "alice" (COp (StrokeEnd id))
      (Sample.step now "alice" (Sample.start id) s) in
  let s := commit 5%Z "Z"
             (Sample.step 4 "alice" UndoReq
                (commit 2%Z "Y" (commit 0%Z "X" DrawingState.empty))) in
  let s' := DrawingState.fromPersisted (DrawingState.exportPersisted 12 s) in
  DrawingState.committedOrder s' = ["X"; "Y"; "Z"]
  ∧ DrawingState.undone s' = {[ "Y" ]}
  ∧ length (DrawingState.snap_strokes (DrawingState.getSnapshot s')) = 3
  ∧ DrawingState.snap_inProgress (DrawingState.getSnapshot s') = [].
Proof. vm_compute. done. Qed.

(** * More of the drawing state *)

Section DrawingRuns.
Import DrawingState.

Lemma applyClientOp_order_prefix now u op s :
  committedOrder s `prefix_of` committedOrder (applyClientOp now u op s).2.
Proof.
  destruct op as [[id tool color w x y|id pts|id]| |]; simpl.
  - by destruct (strokes s !! id).
  - destruct (strokes s !! id) as [rec|]; [|done].
    destruct (sr_committed rec); [done|]. by case_bool_decide.
  - destruct (strokes s !! id) as [rec|]; [|done].
    destruct (sr_committed rec); [done|].
    case_bool_decide; simpl; [|done]. by apply prefix_app_r.
  - by destruct (undoScan _ _ _ _).
  - by destruct (redoScan _ _ _) as [[?|] ?].
Qed.

Lemma applyClientOp_keeps_committed now u op s id rec :
  strokes s !! id = Some rec → sr_committed rec = true →
  strokes (applyClientOp now u op s).2 !! id = Some rec.
Proof.
  intros Hl Hc.
  destruct op as [[k tool color w x y|k pts|k]| |]; simpl.
  - destruct (strokes s !! k) eqn:Hk; [done|]. simpl.
    rewrite lookup_insert_ne; [done|]. congruence.
  - destruct (strokes s !! k) as [r|] eqn:Hk; [|done].
    destruct (sr_committed r) eqn:Hr; [done|].
    case_bool_decide; simpl; [|done].
    rewrite lookup_insert_ne; [done|]. congruence.
  - destruct (strokes s !! k) as [r|] eqn:Hk; [|done].
    destruct (sr_committed r) eqn:Hr; [done|].
    case_bool_decide; simpl; [|done].
    rewrite lookup_insert_ne; [done|]. congruence.
  - by destruct (undoScan _ _ _ _).
  - by destruct (redoScan _ _ _) as [[?|] ?].
Qed.

Lemma applyClientOp_keeps_foreign now u op s id rec :
  strokes s !! id = Some rec → u ≠ sr_userId rec →
  strokes (applyClientOp now u op s).2 !! id = Some rec.
Proof.
  intros Hl Hu.
  destruct op as [[k tool color w x y|k pts|k]| |]; simpl.
  - destruct (strokes s !! k) eqn:Hk; [done|]. simpl.
    rewrite lookup_insert_ne; [done|]. congruence.
  - destruct (strokes s !! k) as [r|] eqn:Hk; [|done].
    destruct (sr_committed r) eqn:Hr; [done|].
    case_bool_decide as Ho; simpl; [|done].
    rewrite lookup_insert_ne; [done|]. intros ->. congruence.
  - destruct (strokes s !! k) as [r|] eqn:Hk; [|done].
    destruct (sr_committed r) eqn:Hr; [done|].
    case_bool_decide as Ho; simpl; [|done].
    rewrite lookup_insert_ne; [done|]. intros ->. congruence.
  - by destruct (undoScan _ _ _ _).
  - by destruct (redoScan _ _ _) as [[?|] ?].
Qed.

Lemma committedStrokes_ids_order s :
  wf s → sr_id <$> committedStrokes s = committedOrder s.
Proof.
  intros W. unfold committedStrokes.
  assert (H : ∀ id, id ∈ committedOrder s →
            ∃ rec, strokes s !! id = Some rec ∧ sr_committed rec = true
                   ∧ sr_id rec = id).
  { intros id Hin. apply (wf_order _ W) in Hin.
    destruct (wf_known _ W _ Hin) as [rec Hl]. exists rec.
    split_and!; [done|by apply (wf_flag _ W _ _ Hl)|by apply (wf_key _ W _ _ Hl)]. }
  induction (committedOrder s) as [|id l IH]; [done|].
  simpl. destruct (H id) as (rec & Hl & Hc & Hk); [set_solver|].
  rewrite Hl, Hc. simpl. rewrite Hk. f_equal. apply IH.
  intros k Hk'. apply H. set_solver.
Qed.

Lemma committedStrokes_records s :
  wf s →
  Forall2 (λ id rec, strokes s !! id = Some rec)
    (committedOrder s) (committedStrokes s).
Proof.
  intros W. unfold committedStrokes.
  assert (H : ∀ id, id ∈ committedOrder s →
            ∃ rec, strokes s !! id = Some rec ∧ sr_committed rec = true).
  { intros id Hin. apply (wf_order _ W) in Hin.
    destruct (wf_known _ W _ Hin) as [rec Hl]. exists rec.
    split; [done|by apply (wf_flag _ W _ _ Hl)]. }
  induction (committedOrder s) as [|id l IH]; [constructor|].
  simpl. destruct (H id) as (rec & Hl & Hc); [set_solver|].
  rewrite Hl, Hc. simpl. constructor; [done|].
  apply IH. intros k Hk. apply H. set_solver.
Qed.

Lemma committedStrokes_flag s :
  Forall (λ rec, sr_committed rec = true) (committedStrokes s).
Proof.
  apply Forall_forall. intros r Hr.
  apply elem_of_committedStrokes in Hr as (id & _ & _ & Hc). done.
Qed.

Lemma redo_top now u s l id :
  wf s → redoStack s = l ++ [id] →
  applyClientOp now u RedoReq s
  = (Ok (Some (RedoApplied id)),
     mk (strokes s) (committed s) (undone s ∖ {[id]}) (committedOrder s) l).
Proof.
  intros W Hr. simpl. rewrite Hr, reverse_snoc.
  destruct (wf_redo _ W id) as [Hc Hu]; [rewrite Hr; set_solver|].
  rewrite redoScan_top by done. by rewrite reverse_involutive.
Qed.

Lemma redo_empty now u s :
  redoStack s = [] → applyClientOp now u RedoReq s = (Ok None, s).
Proof. intros Hr. simpl. rewrite Hr. simpl. destruct s; simpl in *. by subst. Qed.

Lemma end_clears_redo now u id s b s' :
  applyClientOp now u (COp (StrokeEnd id)) s = (Ok b, s') → redoStack s' = [].
Proof.
  simpl. destruct (strokes s !! id) as [rec|]; [|done].
  destruct (sr_committed rec); [done|].
  case_bool_decide; simpl; [|done]. by intros [= _ <-].
Qed.

Lemma snapshot_partition s :
  snap_strokes (getSnapshot s) ++ snap_inProgress (getSnapshot s)
  ≡ₚ (map_to_list (strokes s)).*2.
Proof.
  unfold getSnapshot; simpl.
  generalize ((map_to_list (strokes s)).*2). intros l.
  induction l as [|r l IH]; [done|].
  rewrite !filter_cons. destruct (sr_committed r) eqn:Hc.
  - rewrite decide_True, decide_False by done. simpl. by rewrite IH.
  - rewrite decide_False, decide_True by done.
    rewrite <- Permutation_middle. by rewrite IH.
Qed.

Lemma snapshot_undone_known s id :
  wf s → id ∈ snap_undone (getSnapshot s) →
  ∃ rec, rec ∈ snap_strokes (getSnapshot s) ∧ sr_id rec = id.
Proof.
  intros W Hin. unfold getSnapshot in *; simpl in *.
  apply elem_of_elements in Hin. apply (wf_undone _ W) in Hin.
  destruct (wf_known _ W _ Hin) as [rec Hl]. exists rec. split.
  - apply list_elem_of_filter. split; [by apply (wf_flag _ W _ _ Hl)|].
    apply list_elem_of_fmap. exists (id, rec). split; [done|].
    by apply elem_of_map_to_list.
  - by apply (wf_key _ W _ _ Hl).
Qed.

Lemma restore_history s seq :
  wf s → history (fromPersisted (exportPersisted seq s)) = history s.
Proof.
  intros W. destruct (restore_fields s seq W) as (Hc & Hu & Ho & Hr).
  unfold history. by rewrite Hc, Hu, Ho, Hr.
Qed.

Lemma undo_redo_result now u now' u' op s s' :
  isUndo op || isRedo op = true →
  history s = history s' →
  (applyClientOp now u op s).1 = (applyClientOp now' u' op s').1.
Proof.
  intros Hop H. destruct s as [m c un o r], s' as [m' c' un' o' r'].
  injection H as -> -> -> ->.
  destruct op as [[| |]| |]; try done.
  - rewrite !applyClientOp_undo. unfold latestActive; simpl.
    by destruct (last _).
  - simpl. by destruct (redoScan _ _ _) as [[?|] ?].
Qed.

Lemma restore_drops_in_progress now u seq s id rec pts :
  wf s → strokes s !! id = Some rec → sr_committed rec = false →
  applyClientOp now u (COp (StrokePoints id pts))
    (fromPersisted (exportPersisted seq s))
  = (Err "unknown strokeId", fromPersisted (exportPersisted seq s)).
Proof.
  intros W Hl Hc.
  assert (Hn : strokes (fromPersisted (exportPersisted seq s)) !! id = None).
  { rewrite restore_strokes by done. case_decide as Hin; [|done].
    apply (wf_flag _ W _ _ Hl) in Hin. congruence. }
  cbn [applyClientOp]. by rewrite Hn.
Qed.

End DrawingRuns.

(** X1. Whatever calls of [applyClientOp] are made, failing or not,
    [committedOrder] only grows at its end: the order before the calls is a
    prefix of the order after them. *)
Theorem X1_committedOrder_append_only (reqs : list DrawingState.request)
    (s : DrawingState.t) :
  DrawingState.committedOrder s
    `prefix_of` DrawingState.committedOrder (DrawingState.runAll reqs s).
Proof.
  revert s. induction reqs as [|r reqs IH]; intros s; [done|].
  rewrite runAll_cons. etrans; [|apply IH].
  apply applyClientOp_order_prefix.
Qed.

(** X2. In every state a room can be in, an id is in [committedOrder] exactly
    when it is in [committed], exactly when [strokes] has a record for it
    with the committed flag set; [committedOrder] has no id twice; and every
    record is stored under its own id. *)
Theorem X2_committed_three_ways (s : DrawingState.t) :
  DrawingState.reachable s →
  (∀ id, id ∈ DrawingState.committedOrder s ↔ id ∈ DrawingState.committed s)
  ∧ (∀ id, id ∈ DrawingState.committed s
           ↔ ∃ rec, DrawingState.strokes s !! id = Some rec
                    ∧ sr_committed rec = true)
  ∧ NoDup (DrawingState.committedOrder s)
  ∧ (∀ id rec, DrawingState.strokes s !! id = Some rec → sr_id rec = id).
Proof.
  intros Hr. pose proof (reachable_wf _ Hr) as W. split_and!.
  - apply W.
  - intros id. split.
    + intros Hin. destruct (DrawingState.wf_known _ W _ Hin) as [rec Hl].
      exists rec. split; [done|]. by apply (DrawingState.wf_flag _ W _ _ Hl).
    + intros (rec & Hl & Hc). by apply (DrawingState.wf_flag _ W _ _ Hl).
  - apply W.
  - apply W.
Qed.

Lemma X2_witness :
  DrawingState.reachable Sample.one_undone
  ∧ DrawingState.committedOrder Sample.one_undone = ["A1"; "B1"]
  ∧ NoDup (DrawingState.committedOrder Sample.one_undone).
Proof.
  split; [apply reachable_one_undone|]. split; [vm_compute; reflexivity|].
  apply (X2_committed_three_ways Sample.one_undone).
  apply reachable_one_undone.
Defined.

(** X3. A committed stroke is frozen: whatever calls of [applyClientOp]
    follow, by whatever users, its record (owner, tool, colour, width, points,
    flag and both timestamps) stays as it is. *)
Theorem X3_committed_stroke_frozen (reqs : list DrawingState.request)
    (s : DrawingState.t) (id : string) (rec : StrokeRecord) :
  DrawingState.strokes s !! id = Some rec →
  sr_committed rec = true →
  DrawingState.strokes (DrawingState.runAll reqs s) !! id = Some rec.
Proof.
  revert s. induction reqs as [|r reqs IH]; intros s Hl Hc; [done|].
  rewrite runAll_cons. apply IH; [|done].
  by apply applyClientOp_keeps_committed.
Qed.

Lemma X3_witness :
  DrawingState.strokes
    (DrawingState.runAll
       [(9%Z, "alice", COp (StrokePoints "A1" [(Fin 1, Fin 1)]));
        (10%Z, "bob", Sample.start "A1");
        (11%Z, "alice", COp (StrokeEnd "A1"));
        (12%Z, "bob", UndoReq); (13%Z, "alice", UndoReq)]
       Sample.two_committed) !! "A1"
  = Some (mkStroke "A1" "alice" brush "#111111" (Fin 4) [(Fin 10, Fin 20)]
            true 1 2).
Proof.
  apply X3_committed_stroke_frozen; vm_compute; reflexivity.
Defined.

(** X4. A successful [stroke_end] leaves the redo stack empty, so that a redo
    right after it finds nothing: it succeeds with no broadcast and changes
    nothing. *)
Theorem X4_commit_empties_redo (now : Z) (userId id : string)
    (s s' : DrawingState.t) (b : option ServerOp) :
  DrawingState.applyClientOp now userId (COp (StrokeEnd id)) s
  = (DrawingState.Ok b, s') →
  DrawingState.redoStack s' = []
  ∧ ∀ now' userId',
      DrawingState.applyClientOp now' userId' RedoReq s'
      = (DrawingState.Ok None, s').
Proof.
  intros H. pose proof (end_clears_redo _ _ _ _ _ _ H) as Hr.
  split; [done|]. intros now' u'. by apply redo_empty.
Qed.

Lemma X4_witness :
  DrawingState.redoStack Sample.one_undone = ["B1"]
  ∧ DrawingState.redoStack
      (Sample.step 7 "alice" (COp (StrokeEnd "A2")) Sample.one_undone) = [].
Proof.
  split; [vm_compute; reflexivity|].
  refine (proj1 (X4_commit_empties_redo 7 "alice" "A2" Sample.one_undone _
                   (Some (SOp (StrokeEnd "A2"))) _)).
  vm_compute; reflexivity.
Defined.

(** X5. In every state a room can be in, a redo takes the id on top of the
    redo stack, the one undone last: it leaves [undone], it is popped, and it
    is the broadcast; nothing else changes.  With an empty stack the redo
    succeeds with no broadcast and changes nothing. *)
Theorem X5_redo_takes_last_undone (now : Z) (userId : string)
    (s : DrawingState.t) :
  DrawingState.reachable s →
  (∀ below id,
     DrawingState.redoStack s = below ++ [id] →
     DrawingState.applyClientOp now userId RedoReq s
     = (DrawingState.Ok (Some (RedoApplied id)),
        DrawingState.mk (DrawingState.strokes s) (DrawingState.committed s)
          (DrawingState.undone s ∖ {[id]}) (DrawingState.committedOrder s)
          below))
  ∧ (DrawingState.redoStack s = [] →
     DrawingState.applyClientOp now userId RedoReq s = (DrawingState.Ok None, s)).
Proof.
  intros Hr. pose proof (reachable_wf _ Hr) as W. split.
  - intros below id Hs. by apply redo_top.
  - apply redo_empty.
Qed.

Lemma X5_witness :
  DrawingState.reachable Sample.one_undone
  ∧ DrawingState.redoStack Sample.one_undone = [] ++ ["B1"]
  ∧ (DrawingState.applyClientOp 7 "alice" RedoReq Sample.one_undone).1
    = DrawingState.Ok (Some (RedoApplied "B1")).
Proof.
  split; [apply reachable_one_undone|].
  assert (Hs : DrawingState.redoStack Sample.one_undone = [] ++ ["B1"])
    by (vm_compute; reflexivity).
  split; [exact Hs|].
  rewrite (proj1 (X5_redo_takes_last_undone 7 "alice" Sample.one_undone
                    reachable_one_undone) [] "B1" Hs).
  reflexivity.
Defined.

(** X6. No call of [applyClientOp] by a user who does not own a stroke
    changes the record of that stroke, committed or not: the others cannot
    add points to it, commit it or replace it. *)
Theorem X6_foreign_stroke_untouched (reqs : list DrawingState.request)
    (s : DrawingState.t) (id : string) (rec : StrokeRecord) :
  DrawingState.strokes s !! id = Some rec →
  Forall (λ r : DrawingState.request, r.1.2 ≠ sr_userId rec) reqs →
  DrawingState.strokes (DrawingState.runAll reqs s) !! id = Some rec.
Proof.
  revert s. induction reqs as [|r reqs IH]; intros s Hl Hall; [done|].
  apply Forall_cons in Hall as [Hr Hall].
  rewrite runAll_cons. apply IH; [|done].
  by apply applyClientOp_keeps_foreign.
Qed.

Lemma X6_witness :
  DrawingState.strokes
    (DrawingState.runAll
       [(9%Z, "bob", COp (StrokePoints "A2" [(Fin 1, Fin 1)]));
        (10%Z, "carol", COp (StrokeEnd "A2"));
        (11%Z, "bob", Sample.start "A2"); (12%Z, "bob", UndoReq)]
       Sample.one_undone) !! "A2"
  = Some (mkStroke "A2" "alice" brush "#111111" (Fin 4) [(Fin 10, Fin 20)]
            false 6 6).
Proof.
  apply X6_foreign_stroke_untouched; [vm_compute; reflexivity|].
  repeat (apply Forall_cons; split; [simpl; discriminate|]).
  apply Forall_nil_2.
Defined.

(** X7. The snapshot for late joiners puts every stroke of the state in
    exactly one of its two lists, committed or in progress; and in every
    state a room can be in, each undone id of the snapshot is the id of a
    stroke in its committed list. *)
Theorem X7_snapshot_covers (s : DrawingState.t) :
  DrawingState.reachable s →
  DrawingState.snap_strokes (DrawingState.getSnapshot s)
    ++ DrawingState.snap_inProgress (DrawingState.getSnapshot s)
  ≡ₚ (map_to_list (DrawingState.strokes s)).*2
  ∧ ∀ id, id ∈ DrawingState.snap_undone (DrawingState.getSnapshot s) →
      ∃ rec, rec ∈ DrawingState.snap_strokes (DrawingState.getSnapshot s)
             ∧ sr_id rec = id.
Proof.
  intros Hr. split; [apply snapshot_partition|].
  intros id. by apply snapshot_undone_known, reachable_wf.
Qed.

Lemma X7_witness :
  DrawingState.reachable Sample.one_undone
  ∧ DrawingState.snap_undone (DrawingState.getSnapshot Sample.one_undone)
    = ["B1"]
  ∧ ∃ rec, rec ∈ DrawingState.snap_strokes
                   (DrawingState.getSnapshot Sample.one_undone)
           ∧ sr_id rec = "B1".
Proof.
  split; [apply reachable_one_undone|]. split; [vm_compute; reflexivity|].
  apply (proj2 (X7_snapshot_covers Sample.one_undone reachable_one_undone)).
  vm_compute. apply list_elem_of_here.
Defined.

(** X8. In every state a room can be in, [exportPersisted] lists the
    committed strokes in commit order: one record per id of [committedOrder],
    in that order, each the very record the state holds under that id (owner,
    tool, colour, width, points, timestamps and all), each with its flag set.
    It carries the sequence number it is given, the commit order and the redo
    stack as they are, and the undone ids, each once. *)
Theorem X8_export_in_commit_order (seq : Z) (s : DrawingState.t) :
  DrawingState.reachable s →
  sr_id <$> DrawingState.p_strokes (DrawingState.exportPersisted seq s)
  = DrawingState.committedOrder s
  ∧ Forall (λ rec, sr_committed rec = true)
      (DrawingState.p_strokes (DrawingState.exportPersisted seq s))
  ∧ DrawingState.p_seq (DrawingState.exportPersisted seq s) = seq
  ∧ Forall2 (λ id rec, DrawingState.strokes s !! id = Some rec)
      (DrawingState.committedOrder s)
      (DrawingState.p_strokes (DrawingState.exportPersisted seq s))
  ∧ DrawingState.p_committedOrder (DrawingState.exportPersisted seq s)
    = DrawingState.committedOrder s
  ∧ DrawingState.p_redoStack (DrawingState.exportPersisted seq s)
    = DrawingState.redoStack s
  ∧ NoDup (DrawingState.p_undone (DrawingState.exportPersisted seq s))
  ∧ (∀ id, id ∈ DrawingState.p_undone (DrawingState.exportPersisted seq s)
           ↔ id ∈ DrawingState.undone s).
Proof.
  intros Hr. pose proof (reachable_wf _ Hr) as W.
  split_and!; [|apply committedStrokes_flag|done| |done|done| |].
  - by apply committedStrokes_ids_order.
  - by apply committedStrokes_records.
  - apply (NoDup_elements (DrawingState.undone s)).
  - intros id. apply (elem_of_elements (DrawingState.undone s)).
Qed.

Lemma X8_witness :
  DrawingState.reachable Sample.one_undone
  ∧ sr_id <$> DrawingState.p_strokes
                (DrawingState.exportPersisted 6 Sample.one_undone)
    = ["A1"; "B1"]
  ∧ Forall2 (λ id rec, DrawingState.strokes Sample.one_undone !! id = Some rec)
      (DrawingState.committedOrder Sample.one_undone)
      (DrawingState.p_strokes
         (DrawingState.exportPersisted 6 Sample.one_undone)).
Proof.
  split; [apply reachable_one_undone|]. split.
  - rewrite (proj1 (X8_export_in_commit_order 6 Sample.one_undone
                      reachable_one_undone)).
    vm_compute; reflexivity.
  - apply (X8_export_in_commit_order 6 Sample.one_undone
             reachable_one_undone).
Defined.

(** X9. Export and restore keep the history: [committed], [undone],
    [committedOrder] and [redoStack] come back as they were, so that the next
    undo or redo gives the same result after the restart as before it. *)
Theorem X9_restart_keeps_history (seq : Z) (s : DrawingState.t) :
  DrawingState.reachable s →
  DrawingState.history
    (DrawingState.fromPersisted (DrawingState.exportPersisted seq s))
  = DrawingState.history s
  ∧ ∀ now userId op,
      DrawingState.isUndo op || DrawingState.isRedo op = true →
      (DrawingState.applyClientOp now userId op
         (DrawingState.fromPersisted (DrawingState.exportPersisted seq s))).1
      = (DrawingState.applyClientOp now userId op s).1.
Proof.
  intros Hr. pose proof (reachable_wf _ Hr) as W.
  pose proof (restore_history s seq W) as Hh. split; [done|].
  intros now u op Hop. by apply undo_redo_result.
Qed.

Lemma X9_witness :
  DrawingState.reachable Sample.one_undone
  ∧ DrawingState.redoStack
      (DrawingState.fromPersisted
         (DrawingState.exportPersisted 6 Sample.one_undone)) = ["B1"]
  ∧ DrawingState.history
      (DrawingState.fromPersisted
         (DrawingState.exportPersisted 6 Sample.one_undone))
    = DrawingState.history Sample.one_undone.
Proof.
  split; [apply reachable_one_undone|]. split; [vm_compute; reflexivity|].
  apply (X9_restart_keeps_history 6 Sample.one_undone reachable_one_undone).
Defined.

(** X10. A stroke in progress does not survive export and restore: in the
    restored state its id is unknown, and the next [stroke_points] for it,
    even by its owner, fails with "unknown strokeId" and changes nothing. *)
Theorem X10_restart_drops_in_progress (now seq : Z) (userId id : string)
    (pts : list Point) (s : DrawingState.t) (rec : StrokeRecord) :
  DrawingState.reachable s →
  DrawingState.strokes s !! id = Some rec →
  sr_committed rec = false →
  DrawingState.applyClientOp now userId (COp (StrokePoints id pts))
    (DrawingState.fromPersisted (DrawingState.exportPersisted seq s))
  = (DrawingState.Err "unknown strokeId",
     DrawingState.fromPersisted (DrawingState.exportPersisted seq s)).
Proof.
  intros Hr Hl Hc.
  eapply restore_drops_in_progress; [by apply reachable_wf|exact Hl|exact Hc].
Qed.

Lemma X10_witness :
  (DrawingState.applyClientOp 7 "alice" (COp (StrokePoints "A2" [(Fin 1, Fin 2)]))
     Sample.one_undone).1
  = DrawingState.Ok (Some (SOp (StrokePoints "A2" [(Fin 1, Fin 2)])))
  ∧ (DrawingState.applyClientOp 7 "alice"
       (COp (StrokePoints "A2" [(Fin 1, Fin 2)]))
       (DrawingState.fromPersisted
          (DrawingState.exportPersisted 6 Sample.one_undone))).1
    = DrawingState.Err "unknown strokeId".
Proof.
  split; [vm_compute; reflexivity|].
  rewrite (X10_restart_drops_in_progress 7 6 "alice" "A2" [(Fin 1, Fin 2)]
             Sample.one_undone
             (mkStroke "A2" "alice" brush "#111111" (Fin 4) [(Fin 10, Fin 20)]
                false 6 6) reachable_one_undone).
  - reflexivity.
  - vm_compute; reflexivity.
  - reflexivity.
Defined.

(** * More of the validator *)

Section ValidatorFacts.
Import Validator.

Lemma isStr_Some v s : isStr v = Some s ↔ v = JStr s ∧ s ≠ "".
Proof.
  destruct v as [| | | |s'| |]; simpl; try (split; [done|by intros [? ?]]).
  destruct s' as [|c s']; simpl.
  - split; [done|]. intros [[= <-] ?]. done.
  - split; [by intros [= <-]|]. by intros [[= <-] _].
Qed.

Lemma isNum_finite v n : isNum v = Some n → isFinite n = true.
Proof. intros H. apply isNum_Some in H as (q & _ & ->). done. Qed.

Lemma allPts_Some items : ∀ all,
  allPts items = Some all →
  length all = length items ∧ Forall Wire.finitePoint all.
Proof.
  induction items as [|p items IH]; simpl; intros all H.
  - by inversion H.
  - destruct (isPt p) as [pt|] eqn:Hp; [|done].
    destruct (allPts items) as [pts|]; [|done]. inversion H; subst.
    destruct (IH pts eq_refl) as [Hlen Hall]. split; [simpl; lia|].
    apply Forall_cons. split; [|done].
    unfold isPt in Hp. destruct p as [| | | | |[|a [|b [|? ?]]]|]; try done.
    destruct (isNum a) as [x|] eqn:Ha; [|done].
    destruct (isNum b) as [y|] eqn:Hb; [|done].
    inversion Hp; subst. split; simpl; by eapply isNum_finite.
Qed.

Lemma allPts_encode pts :
  Forall Wire.finitePoint pts → allPts (Wire.encodePoint <$> pts) = Some pts.
Proof.
  induction 1 as [|[x y] pts [Hx Hy] _ IH]; [done|].
  rewrite fmap_cons. cbn [allPts isPt Wire.encodePoint fst snd isNum] in *.
  by rewrite Hx, Hy, IH.
Qed.

Lemma validateClientOp_points raw id pts :
  validateClientOp raw = Valid (COp (StrokePoints id pts)) →
  ∃ items all,
    getField raw "pts" = JArr items ∧ allPts items = Some all
    ∧ pts = take 200 all.
Proof.
  unfold validateClientOp.
  repeat (case_match; try discriminate).
  intros [= <- <-].
  match goal with H : isPts _ = Some _ |- _ => unfold isPts in H end.
  destruct (getField raw "pts") as [| | | | |items|]; try done. eauto.
Qed.

Lemma clampWidth_idem w : isFinite w = true → clampWidth (clampWidth w) = clampWidth w.
Proof.
  destruct w as [q| | |]; try done. intros _.
  rewrite clampWidth_Fin.
  destruct (Qle_bool 64 q) eqn:E1; [done|].
  destruct (Qle_bool q 1) eqn:E2; [done|].
  by rewrite clampWidth_Fin, E1, E2.
Qed.

Lemma validateClientOp_wellFormed raw op :
  validateClientOp raw = Valid op → Wire.wellFormed op.
Proof.
  intros H. destruct op as [[id tool color w x y|id pts|id]| |]; simpl; try done.
  - pose proof (validateClientOp_start _ _ _ _ _ _ _ H) as (n & Hn & ->).
    revert H. unfold validateClientOp.
    repeat (case_match; try discriminate).
    intros [= <- <- <- <- <- <-].
    repeat match goal with
           | H : isStr _ = Some _ |- _ => apply isStr_Some in H as [? ?]
           | H : isNum _ = Some _ |- _ =>
               pose proof (isNum_finite _ _ H); apply isNum_Some in H as (? & ? & ->)
           end.
    split_and!; try done.
    + apply clampWidth_range.
    + by apply clampWidth_idem.
  - destruct (validateClientOp_points _ _ _ H) as (items & all & Hf & Ha & ->).
    destruct (allPts_Some _ _ Ha) as [Hlen Hfin].
    revert H. unfold validateClientOp.
    repeat (case_match; try discriminate).
    intros [= <- _].
    match goal with H : isStr _ = Some _ |- _ => apply isStr_Some in H as [? ?] end.
    split_and!; [done|rewrite length_take; lia|by apply Forall_take].
  - revert H. unfold validateClientOp.
    repeat (case_match; try discriminate).
    intros [= <-].
    match goal with H : isStr _ = Some _ |- _ => apply isStr_Some in H as [? ?] end.
    done.
Qed.

Lemma isStr_JStr s : s ≠ "" → isStr (JStr s) = Some s.
Proof. intros H. apply isStr_Some. done. Qed.

Lemma validateClientOp_encode op :
  Wire.wellFormed op → validateClientOp (Wire.encodeOp op) = Valid op.
Proof.
  destruct op as [[id tool color w x y|id pts|id]| |]; simpl; try done.
  - intros (Hid & Hc & Hr & Hw & Hx & Hy).
    destruct id as [|ci id]; [done|]. destruct color as [|cc color]; [done|].
    destruct w as [q| | |]; try done. destruct x as [qx| | |]; try done.
    destruct y as [qy| | |]; try done.
    unfold validateClientOp. destruct tool; simpl; rewrite Hw; reflexivity.
  - intros (Hid & Hlen & Hfin). destruct id as [|ci id]; [done|].
    unfold validateClientOp. cbn -[allPts take]. rewrite (allPts_encode _ Hfin).
    by rewrite take_ge by lia.
  - intros Hid. by destruct id as [|ci id].
Qed.

Lemma validateClientOp_tag raw op :
  validateClientOp raw = Valid op →
  isObj raw = true ∧ getField raw "t" = JStr (Wire.tag op).
Proof.
  unfold validateClientOp.
  destruct (isObj raw); [|done]. simpl.
  destruct (isStr (getField raw "t")) as [t|] eqn:Ht; [|done].
  apply isStr_Some in Ht as [Ht _]. rewrite Ht.
  destruct (String.eqb t "undo") eqn:E1.
  { apply String.eqb_eq in E1 as ->. by intros [= <-]. }
  destruct (String.eqb t "redo") eqn:E2.
  { apply String.eqb_eq in E2 as ->. by intros [= <-]. }
  destruct (String.eqb t "stroke_start") eqn:E3.
  { apply String.eqb_eq in E3 as ->.
    repeat (case_match; try discriminate). by intros [= <-]. }
  destruct (String.eqb t "stroke_points") eqn:E4.
  { apply String.eqb_eq in E4 as ->.
    repeat (case_match; try discriminate). by intros [= <-]. }
  destruct (String.eqb t "stroke_end") eqn:E5; [|done].
  apply String.eqb_eq in E5 as ->.
  repeat (case_match; try discriminate). by intros [= <-].
Qed.

Lemma slice0_length n s : String.length (slice0 n s) ≤ n.
Proof.
  unfold slice0. revert n. induction s as [|c s IH]; intros [|n]; simpl; try lia.
  specialize (IH n). lia.
Qed.

Lemma slice0_prefix n s : ∃ rest, s = slice0 n s +:+ rest.
Proof.
  unfold slice0. revert n. induction s as [|c s IH]; intros [|n]; simpl; eauto.
  destruct (IH n) as [rest Hr]. exists rest.
  change (String c s = String c (String.substring 0 n s +:+ rest)).
  by rewrite <- Hr.
Qed.

Lemma slice0_length_min n s :
  String.length (slice0 n s) = n `min` String.length s.
Proof.
  unfold slice0. revert n. induction s as [|c s IH]; intros [|n]; simpl; try done.
  by rewrite IH.
Qed.

Lemma validateJoin_exact raw v :
  validateJoin raw = Valid v →
  (∀ given, getField raw "name" = JStr given →
     Validator.name v = Some (slice0 32 given))
  ∧ ((∀ given, getField raw "name" ≠ JStr given) → Validator.name v = None)
  ∧ (∀ c, Validator.clientId v = Some c
          ↔ getField raw "clientId" = JStr c ∧ String.length c ≤ 64).
Proof.
  unfold validateJoin. destruct (negb (isObj raw)); [done|].
  destruct (isStr (getField raw "roomId")) as [rid|]; [|done].
  intros [= <-]. simpl. split_and!.
  - by intros given ->.
  - intros Hno. destruct (getField raw "name") as [| | | |given| |]; try done.
    by destruct (Hno given).
  - intros c. destruct (getField raw "clientId") as [| | | |cid| |];
      try (split; [done|by intros [? _]]).
    destruct (String.length cid <=? 64)%nat eqn:E.
    + apply Nat.leb_le in E. split; [by intros [= <-]|by intros [[= <-] _]].
    + apply Nat.leb_gt in E. split; [done|]. intros [[= <-] ?]. lia.
Qed.

Lemma validateJoin_shape raw v :
  validateJoin raw = Valid v →
  Validator.roomId v ≠ ""
  ∧ getField raw "roomId" = JStr (Validator.roomId v)
  ∧ (∀ n, Validator.name v = Some n →
       String.length n ≤ 32
       ∧ ∃ given rest, getField raw "name" = JStr given ∧ given = n +:+ rest)
  ∧ (Validator.name v = None → ∀ given, getField raw "name" ≠ JStr given)
  ∧ (Validator.mode v = view ↔ getField raw "mode" = JStr "view")
  ∧ (∀ c, Validator.clientId v = Some c → String.length c ≤ 64).
Proof.
  unfold validateJoin. destruct (negb (isObj raw)); [done|].
  destruct (isStr (getField raw "roomId")) as [rid|] eqn:Hr; [|done].
  apply isStr_Some in Hr as [Hr Hne]. intros [= <-]. simpl.
  split_and!; try done.
  - intros n. destruct (getField raw "name") as [| | | |given| |]; try done.
    intros [= <-]. split; [apply slice0_length|].
    destruct (slice0_prefix 32 given) as [rest Hrest]. eauto.
  - destruct (getField raw "name"); done.
  - destruct (getField raw "mode") as [| | | |m| |]; try done.
    destruct (decide (m = "view")) as [->|Hm]; [done|].
    assert (match m with "view" => view | _ => edit end = edit) as ->.
    { destruct m as [|[[] [] [] [] [] [] [] []] m]; try done;
      repeat (destruct m as [|[[] [] [] [] [] [] [] []] m]; try done). }
    split; [done|]. intros [= ->]. done.
  - intros c. destruct (getField raw "clientId") as [| | | |cid| |]; try done.
    destruct (String.length cid <=? 64)%nat eqn:E; [|done].
    intros [= <-]. by apply Nat.leb_le.
Qed.

Lemma allPts_encode_bad pts :
  ¬ Forall Wire.finitePoint pts → allPts (Wire.encodePoint <$> pts) = None.
Proof.
  induction pts as [|[x y] pts IH]; intros Hn.
  - destruct Hn. apply Forall_nil_2.
  - rewrite fmap_cons. cbn [allPts isPt Wire.encodePoint fst snd isNum].
    destruct (isFinite x) eqn:Hx; [|done].
    destruct (isFinite y) eqn:Hy; [|done].
    rewrite IH; [done|]. intros Hall. apply Hn. by apply Forall_cons.
Qed.

Lemma validateClientOp_points_encoded id pts :
  id ≠ "" →
  validateClientOp (Wire.encodeOp (COp (StrokePoints id pts)))
  = match allPts (Wire.encodePoint <$> pts) with
    | Some all => Valid (COp (StrokePoints id (take 200 all)))
    | None => Invalid "pts must be array of [x,y]"
    end.
Proof.
  intros Hid. destruct id as [|ci id]; [done|].
  unfold validateClientOp. cbn -[allPts take]. done.
Qed.

End ValidatorFacts.

(** X11. Every op the validator lets through is well formed: stroke ids and
    colours are not empty, the width is a finite number between 1 and 64 that
    the clamp leaves alone, all coordinates are finite, and a
    [stroke_points] op has at most 200 points. *)
Theorem X11_accepted_ops_well_formed (raw : JsVal) (op : ClientOp) :
  Validator.validateClientOp raw = Validator.Valid op → Wire.wellFormed op.
Proof. apply validateClientOp_wellFormed. Qed.

Lemma X11_witness :
  Wire.wellFormed
    (COp (StrokeStart "S1" brush "#ff0000" (Fin 64) (Fin 3) (Fin 4))).
Proof.
  apply (X11_accepted_ops_well_formed (Sample.startPayload (Fin 999))).
  vm_compute; reflexivity.
Defined.

(** X12. Validation is a round trip on well-formed ops: sent as it is, a
    well-formed op is accepted unchanged; so an op that came out of the
    validator goes through it again unchanged. *)
Theorem X12_validate_round_trip (op : ClientOp) :
  (Wire.wellFormed op →
   Validator.validateClientOp (Wire.encodeOp op) = Validator.Valid op)
  ∧ (∀ raw, Validator.validateClientOp raw = Validator.Valid op →
            Validator.validateClientOp (Wire.encodeOp op) = Validator.Valid op).
Proof.
  split; [apply validateClientOp_encode|].
  intros raw H. by eapply validateClientOp_encode, validateClientOp_wellFormed.
Qed.

Lemma X12_witness :
  Validator.validateClientOp
    (Wire.encodeOp (COp (StrokeStart "S1" brush "#ff0000" (Fin 64) (Fin 3) (Fin 4))))
  = Validator.Valid (COp (StrokeStart "S1" brush "#ff0000" (Fin 64) (Fin 3) (Fin 4))).
Proof.
  apply (proj2 (X12_validate_round_trip _) (Sample.startPayload (Fin 999))).
  vm_compute; reflexivity.
Defined.

(** X13. The kind of an accepted op is the one its tag names: the payload is
    an object (or an array) whose [t] is "stroke_start", "stroke_points",
    "stroke_end", "undo" or "redo", matching the op returned; nothing else is
    accepted. *)
Theorem X13_tag_decides_kind (raw : JsVal) (op : ClientOp) :
  Validator.validateClientOp raw = Validator.Valid op →
  Validator.isObj raw = true
  ∧ Validator.getField raw "t" = JStr (Wire.tag op).
Proof. apply validateClientOp_tag. Qed.

Lemma X13_witness :
  Validator.getField (Sample.emptyPoints "A1") "t" = JStr "stroke_points".
Proof.
  apply (X13_tag_decides_kind (Sample.emptyPoints "A1")
           (COp (StrokePoints "A1" []))).
  vm_compute; reflexivity.
Defined.

(** X14. A [stroke_points] payload with a stroke id and any number of points
    with finite coordinates is accepted and cut to its first 200 points, in
    order; if one coordinate is not finite the whole payload is refused. *)
Theorem X14_points_cut_to_200 (id : string) (pts : list Point) :
  id ≠ "" →
  (Forall Wire.finitePoint pts →
   Validator.validateClientOp (Wire.encodeOp (COp (StrokePoints id pts)))
   = Validator.Valid (COp (StrokePoints id (take 200 pts))))
  ∧ (¬ Forall Wire.finitePoint pts →
     Validator.validateClientOp (Wire.encodeOp (COp (StrokePoints id pts)))
     = Validator.Invalid "pts must be array of [x,y]").
Proof.
  intros Hid. rewrite validateClientOp_points_encoded by done. split.
  - intros Hall. by rewrite allPts_encode.
  - intros Hbad. by rewrite allPts_encode_bad.
Qed.

Lemma X14_witness :
  Validator.validateClientOp
    (Wire.encodeOp (COp (StrokePoints "A1" (replicate 250 (Fin 1, Fin 2)))))
  = Validator.Valid (COp (StrokePoints "A1" (replicate 200 (Fin 1, Fin 2)))).
Proof.
  refine (eq_trans
            (proj1 (X14_points_cut_to_200 "A1" (replicate 250 (Fin 1, Fin 2)) _) _)
            _).
  - discriminate.
  - apply Forall_replicate. split; reflexivity.
  - reflexivity.
Defined.

(** X15. A join payload that is accepted has a room id that is not empty,
    taken as it is from the payload.  Its name is the given name cut at 32
    code units: the first 32 code units of a longer name, the whole name when
    it has at most 32, and no name exactly when the payload has no string
    under [name].  Its mode is [view] only when the payload says "view",
    [edit] in every other case.  Its client id is the given one exactly when
    that is a string of at most 64 code units, and there is none otherwise. *)
Theorem X15_join_payload_shape (raw : JsVal) (v : Validator.JoinPayload) :
  Validator.validateJoin raw = Validator.Valid v →
  Validator.roomId v ≠ ""
  ∧ Validator.getField raw "roomId" = JStr (Validator.roomId v)
  ∧ (∀ n, Validator.name v = Some n →
       String.length n ≤ 32
       ∧ ∃ given rest,
           Validator.getField raw "name" = JStr given ∧ given = n +:+ rest)
  ∧ (Validator.name v = None →
     ∀ given, Validator.getField raw "name" ≠ JStr given)
  ∧ (Validator.mode v = view ↔ Validator.getField raw "mode" = JStr "view")
  ∧ (∀ c, Validator.clientId v = Some c → String.length c ≤ 64)
  ∧ (∀ given, Validator.getField raw "name" = JStr given →
       ∃ n rest,
         Validator.name v = Some n
         ∧ n = Validator.slice0 32 given
         ∧ given = n +:+ rest
         ∧ String.length n = 32 `min` String.length given
         ∧ (String.length given ≤ 32 → n = given))
  ∧ ((∀ given, Validator.getField raw "name" ≠ JStr given) →
     Validator.name v = None)
  ∧ (∀ c, Validator.clientId v = Some c
          ↔ Validator.getField raw "clientId" = JStr c
            ∧ String.length c ≤ 64).
Proof.
  intros Hv.
  destruct (validateJoin_shape raw v Hv) as (H1 & H2 & H3 & H4 & H5 & H6).
  destruct (validateJoin_exact raw v Hv) as (H7 & H8 & H9).
  split_and!; try done.
  intros given Hg. destruct (slice0_prefix 32 given) as [rest Hrest].
  exists (Validator.slice0 32 given), rest.
  split_and!; [by apply H7|done|done|apply slice0_length_min|].
  apply slice0_short.
Qed.

Lemma X15_witness :
  Validator.validateJoin (Sample.joinPayload "ann-7")
  = Validator.Valid (Validator.mkJoin "lobby" (Some "Ann") edit (Some "ann-7"))
  ∧ ("lobby" : string) ≠ ""
  ∧ ∃ n rest,
      Some "Ann" = Some n
      ∧ n = Validator.slice0 32 "Ann"
      ∧ "Ann" = n +:+ rest
      ∧ String.length n = 32 `min` 3
      ∧ (3 ≤ 32 → n = "Ann").
Proof.
  assert (Hv : Validator.validateJoin (Sample.joinPayload "ann-7")
               = Validator.Valid
                   (Validator.mkJoin "lobby" (Some "Ann") edit (Some "ann-7")))
    by (vm_compute; reflexivity).
  split; [exact Hv|]. split.
  - exact (proj1 (X15_join_payload_shape _ _ Hv)).
  - exact (proj1 (proj2 (proj2 (proj2 (proj2 (proj2
             (proj2 (X15_join_payload_shape _ _ Hv)))))))
             "Ann" eq_refl).
Defined.

(** * File names *)

Section StorageFacts.
Import Storage.

Lemma sanitize_length s : String.length (sanitize s) = String.length s.
Proof. induction s as [|c s IH]; simpl; [done|]. by rewrite IH. Qed.

Lemma sanitize_allSafe s : allSafe (sanitize s) = true.
Proof.
  induction s as [|c s IH]; simpl; [done|]. rewrite IH, andb_true_r.
  by destruct (isSafeChar c) eqn:E.
Qed.

Lemma sanitize_safe s : allSafe s = true → sanitize s = s.
Proof.
  induction s as [|c s IH]; simpl; [done|].
  intros [Hc Hs]%andb_true_iff. by rewrite Hc, IH.
Qed.

Lemma sanitize_fixes s : sanitize s = s → allSafe s = true.
Proof. intros <-. apply sanitize_allSafe. Qed.

Lemma append_length (a b : string) :
  String.length (a +:+ b) = String.length a + String.length b.
Proof.
  induction a as [|c a IH]; [done|].
  change (S (String.length (a +:+ b)) = S (String.length a + String.length b)).
  by rewrite IH.
Qed.

Lemma append_cancel_r (a b t : string) : a +:+ t = b +:+ t → a = b.
Proof.
  revert b. induction a as [|c a IH]; intros [|d b] H.
  - done.
  - apply (f_equal String.length) in H.
    rewrite !append_length in H. simpl in H. lia.
  - apply (f_equal String.length) in H.
    rewrite !append_length in H. simpl in H. lia.
  - change (String c (a +:+ t) = String d (b +:+ t)) in H.
    injection H as -> H. f_equal. by apply IH.
Qed.

Lemma append_cancel_l (p a b : string) : p +:+ a = p +:+ b → a = b.
Proof.
  induction p as [|c p IH]; [done|].
  change (String c (p +:+ a) = String c (p +:+ b) → a = b).
  intros [= H]. by apply IH.
Qed.

Lemma roomPath_inj dataDir a b :
  roomPath dataDir a = roomPath dataDir b ↔ sanitize a = sanitize b.
Proof.
  unfold roomPath, roomFile. split; [|by intros ->].
  intros H. do 3 apply append_cancel_l in H. by apply append_cancel_r in H.
Qed.

End StorageFacts.

(** X16. The file name of a room keeps the length of the room id, has only
    code units of [[a-zA-Z0-9_-]] in the place of the id, and leaves an id
    alone exactly when the id has only such code units.  Two room ids get the
    same file exactly when they are the same after the replacement: so a room
    id shares its file with its own sanitized form, which is another id as
    soon as one code unit is outside the class. *)
Theorem X16_room_file_name (dataDir a b : string) :
  String.length (Storage.sanitize a) = String.length a
  ∧ Storage.allSafe (Storage.sanitize a) = true
  ∧ (Storage.sanitize a = a ↔ Storage.allSafe a = true)
  ∧ (Storage.roomPath dataDir a = Storage.roomPath dataDir b
     ↔ Storage.sanitize a = Storage.sanitize b)
  ∧ Storage.roomPath dataDir (Storage.sanitize a) = Storage.roomPath dataDir a.
Proof.
  split_and!.
  - apply sanitize_length.
  - apply sanitize_allSafe.
  - split; [apply sanitize_fixes|apply sanitize_safe].
  - apply roomPath_inj.
  - apply roomPath_inj, sanitize_safe, sanitize_allSafe.
Qed.

(** * Rooms *)

Section RoomsFacts.
Import Rooms.

Lemma firstUnused_Some used palette c :
  firstUnused used palette = Some c →
  (c ∉ used)
  ∧ ∃ before after,
      palette = before ++ (c :: after) ∧ (∀ b, b ∈ before → b ∈ used).
Proof.
  induction palette as [|p palette IH]; simpl; [done|].
  destruct (decide (p ∈ used)) as [Hp|Hp].
  - intros H. destruct (IH H) as (Hc & before & after & -> & Hb).
    split; [done|]. exists (p :: before), after. split; [done|]. set_solver.
  - intros [= <-]. split; [done|]. exists [], palette. split; [done|]. set_solver.
Qed.

Lemma firstUnused_None used palette :
  firstUnused used palette = None → ∀ c, c ∈ palette → c ∈ used.
Proof.
  induction palette as [|p palette IH]; simpl; [set_solver|].
  destruct (decide (p ∈ used)) as [Hp|Hp]; [|done].
  intros H c Hc. apply elem_of_cons in Hc as [->|Hc]; [done|by apply IH].
Qed.

Lemma COLOR_PALETTE_NoDup : NoDup COLOR_PALETTE.
Proof. apply (bool_decide_unpack (NoDup COLOR_PALETTE)). by vm_compute. Qed.

Lemma size_list_to_set_le (l : list string) :
  size (list_to_set l : gset string) ≤ length l.
Proof.
  induction l as [|x l IH]; [done|].
  rewrite list_to_set_cons, size_union_alt, size_singleton. simpl.
  pose proof (subseteq_size (list_to_set l ∖ {[x]}) (list_to_set l : gset string)) as H.
  specialize (H ltac:(set_solver)). lia.
Qed.

Lemma usedColors_size r : size (usedColors r) ≤ size (Room.users r).
Proof.
  unfold usedColors. etrans; [apply size_list_to_set_le|].
  by rewrite !length_fmap, length_map_to_list.
Qed.

Lemma elem_of_usedColors r c :
  c ∈ usedColors r ↔ ∃ s u, Room.users r !! s = Some u ∧ Room.color u = c.
Proof.
  unfold usedColors. rewrite elem_of_list_to_set, list_elem_of_fmap. split.
  - intros (u & -> & Hu). apply list_elem_of_fmap in Hu as ([s u'] & -> & Hin).
    apply elem_of_map_to_list in Hin. eauto.
  - intros (s & u & Hl & <-). exists u. split; [done|].
    apply list_elem_of_fmap. exists (s, u). split; [done|].
    by apply elem_of_map_to_list.
Qed.

Lemma firstUnused_room r :
  size (Room.users r) < 10 →
  is_Some (firstUnused (usedColors r) COLOR_PALETTE).
Proof.
  intros Hsz. destruct (firstUnused _ _) eqn:E; [eauto|]. exfalso.
  pose proof (firstUnused_None _ _ E) as Hall.
  assert (Hsub : (list_to_set COLOR_PALETTE : gset string) ⊆ usedColors r).
  { intros c Hc. apply elem_of_list_to_set in Hc. by apply Hall. }
  apply subseteq_size in Hsub.
  rewrite size_list_to_set in Hsub by apply COLOR_PALETTE_NoDup.
  pose proof (usedColors_size r). simpl in Hsub. lia.
Qed.

Lemma pickColor_fresh rnd r :
  size (Room.users r) < 10 →
  pickColor rnd r ∈ COLOR_PALETTE
  ∧ ∀ s u, Room.users r !! s = Some u → Room.color u ≠ pickColor rnd r.
Proof.
  intros Hsz. unfold pickColor.
  destruct (firstUnused_room r Hsz) as [c Hc]. rewrite Hc.
  destruct (firstUnused_Some _ _ _ Hc) as (Hn & before & after & Hp & _).
  split; [rewrite Hp; set_solver|].
  intros s u Hl Heq. apply Hn. apply elem_of_usedColors. eauto.
Qed.

Lemma addUser_distinct rnd sock uid name mode r :
  size (Room.users r) < 10 → distinctColors r →
  distinctColors (addUser rnd sock uid name mode r).2.
Proof.
  intros Hsz Hd s1 s2 u1 u2. simpl.
  destruct (pickColor_fresh rnd r Hsz) as [_ Hfresh].
  rewrite !lookup_insert.
  destruct (decide (sock = s1)) as [<-|H1], (decide (sock = s2)) as [<-|H2];
    try done.
  - intros [= <-] Hl Hc. simpl in Hc. by destruct (Hfresh _ _ Hl).
  - intros Hl [= <-] Hc. simpl in Hc. by destruct (Hfresh _ _ Hl).
  - apply Hd.
Qed.

Lemma addUser_size rnd sock uid name mode r :
  size (Room.users (addUser rnd sock uid name mode r).2) ≤ S (size (Room.users r)).
Proof.
  simpl. destruct (Room.users r !! sock) eqn:E.
  - rewrite map_size_insert_Some by eauto. lia.
  - rewrite map_size_insert_None by done. lia.
Qed.

Lemma addAll_distinct joiners : ∀ r,
  size (Room.users r) + length joiners ≤ 10 →
  distinctColors r → distinctColors (addAll joiners r).
Proof.
  induction joiners as [|j joiners IH]; intros r Hsz Hd; [done|].
  simpl in Hsz.
  change (addAll (j :: joiners) r)
    with (addAll joiners (addUser (j_rnd j) (j_sock j) (j_userId j) (j_name j)
                            (j_mode j) r).2).
  apply IH.
  - pose proof (addUser_size (j_rnd j) (j_sock j) (j_userId j) (j_name j)
                  (j_mode j) r). lia.
  - apply addUser_distinct; [lia|done].
Qed.

Lemma maybePersist_throttle now1 now2 r saved r' :
  Room.maybePersist now1 r = (Some saved, r') →
  (now1 ≤ now2 < now1 + 2000)%Z →
  Room.maybePersist now2 r' = (None, r').
Proof.
  unfold Room.maybePersist. case_bool_decide; [done|].
  intros [= <- <-] Hn. simpl. by rewrite bool_decide_true by lia.
Qed.

Lemma maybePersist_saves now r saved r' :
  Room.maybePersist now r = (Some saved, r') →
  saved = (Room.roomId r, DrawingState.exportPersisted (Room.seq r) (Room.drawing r))
  ∧ (2000 ≤ now - Room.lastPersistAt r)%Z
  ∧ Room.lastPersistAt r' = now.
Proof.
  unfold Room.maybePersist. case_bool_decide; [done|].
  intros [= <- <-]. simpl. split_and!; [done|lia|done].
Qed.

End RoomsFacts.

(** X17. As long as fewer than ten connections are in a room, the colour
    picked for a newcomer is a colour of the palette that no connection of the
    room has; so connections added to a room, up to ten in all, keep the
    colours of the room pairwise distinct. *)
Theorem X17_first_ten_colours_distinct :
  (∀ rnd r,
     size (Room.users r) < 10 →
     Rooms.pickColor rnd r ∈ Rooms.COLOR_PALETTE
     ∧ ∀ s u, Room.users r !! s = Some u →
              Room.color u ≠ Rooms.pickColor rnd r)
  ∧ (∀ joiners r,
       size (Room.users r) + length joiners ≤ 10 →
       Rooms.distinctColors r →
       Rooms.distinctColors (Rooms.addAll joiners r)).
Proof. split; [apply pickColor_fresh|intros; by apply addAll_distinct]. Qed.

Lemma X17_witness :
  size (Room.users Fixture.lobby) < 10
  ∧ Rooms.pickColor 3 Fixture.lobby = "#f97316"
  ∧ Rooms.pickColor 3 Fixture.lobby ∈ Rooms.COLOR_PALETTE.
Proof.
  assert (Hs : size (Room.users Fixture.lobby) < 10) by (vm_compute; lia).
  split; [exact Hs|]. split; [vm_compute; reflexivity|].
  exact (proj1 (proj1 X17_first_ten_colours_distinct 3 Fixture.lobby Hs)).
Defined.

(** X18. When [maybePersist] writes, at least 2000 ms have passed since the
    last write, what it writes is the export of the room's drawing state at
    the room's [seq] under the room's id, and a call less than 2000 ms later
    writes nothing and leaves the room as it is.  The call changes neither
    [seq] nor the drawing state. *)
Theorem X18_persist_throttled (now1 now2 : Z) (r r' : Room.t)
    (saved : string * DrawingState.Persisted) :
  Room.maybePersist now1 r = (Some saved, r') →
  saved = (Room.roomId r,
           DrawingState.exportPersisted (Room.seq r) (Room.drawing r))
  ∧ (2000 ≤ now1 - Room.lastPersistAt r)%Z
  ∧ Room.seq r' = Room.seq r
  ∧ Room.drawing r' = Room.drawing r
  ∧ ((now1 ≤ now2 < now1 + 2000)%Z → Room.maybePersist now2 r' = (None, r')).
Proof.
  intros H. destruct (maybePersist_saves _ _ _ _ H) as (Hs & Hn & _).
  pose proof (maybePersist_seq now1 r) as Hq.
  pose proof (maybePersist_drawing now1 r) as Hd.
  rewrite H in Hq, Hd. split_and!; [done..|].
  intros Hw. by eapply maybePersist_throttle.
Qed.

Lemma X18_witness :
  (Room.maybePersist 5000 Fixture.lobby).1
  = Some ("lobby", DrawingState.exportPersisted 0 DrawingState.empty)
  ∧ (Room.maybePersist 6999 (Room.maybePersist 5000 Fixture.lobby).2).1 = None.
Proof.
  split; [vm_compute; reflexivity|].
  rewrite (proj2 (proj2 (proj2 (proj2
             (X18_persist_throttled 5000 6999 Fixture.lobby
                (Room.maybePersist 5000 Fixture.lobby).2
                ("lobby", DrawingState.exportPersisted 0 DrawingState.empty)
                eq_refl)))));
    [reflexivity|lia].
Defined.

(** * Sessions *)

Section ServerFacts.
Import Server Session.

Lemma set_drawing_same room :
  Room.set_drawing (Room.drawing room) room = room.
Proof. by destruct room. Qed.

Lemma onMsg_error sock sock_room raw t1 t2 t3 (rooms : gmap string Room.t) err :
  ack (onMsg sock sock_room raw t1 t2 t3 rooms).1 = AckErr err →
  onMsg sock sock_room raw t1 t2 t3 rooms = (mkOutcome (AckErr err) [] None, rooms).
Proof.
  unfold onMsg, get.
  destruct sock_room as [rid|]; [|by intros [= <-]].
  destruct (rooms !! rid) as [room|] eqn:Hr; [|by intros [= <-]].
  destruct (Room.getUser sock room) as [user|]; [|by intros [= <-]].
  destruct (Validator.validateClientOp raw) as [op|e]; [|by intros [= <-]].
  destruct (_ && _); [by intros [= <-]|].
  destruct (DrawingState.applyClientOp _ _ _ _) as [[[b|]|e] d] eqn:Ha; simpl.
  - by destruct (Room.maybePersist _ _).
  - done.
  - intros [= <-]. apply applyClientOp_err in Ha as ->.
    by rewrite set_drawing_same, insert_id.
Qed.

Lemma onMsg_view sock rid raw t1 t2 t3 (rooms : gmap string Room.t) room user :
  rooms !! rid = Some room →
  Room.getUser sock room = Some user →
  Room.mode user = view →
  ∃ err, onMsg sock (Some rid) raw t1 t2 t3 rooms
         = (mkOutcome (AckErr err) [] None, rooms).
Proof.
  intros Hr Hu Hm. unfold onMsg, get. rewrite Hr, Hu.
  destruct (Validator.validateClientOp raw) as [op|e]; [|eauto].
  rewrite Hm, bool_decide_true by done.
  destruct op as [[| |]| |]; simpl; eauto.
Qed.

Lemma onMsg_emitted_room sock sock_room raw t1 t2 t3 rooms rid env :
  (rid, env) ∈ emitted (onMsg sock sock_room raw t1 t2 t3 rooms).1 →
  sock_room = Some rid.
Proof.
  unfold onMsg, get.
  destruct sock_room as [r|]; [|by intros ?%elem_of_nil].
  destruct (rooms !! r) as [room|]; [|by intros ?%elem_of_nil].
  destruct (Room.getUser sock room) as [user|]; [|by intros ?%elem_of_nil].
  destruct (Validator.validateClientOp raw) as [op|e]; [|by intros ?%elem_of_nil].
  destruct (_ && _); [by intros ?%elem_of_nil|].
  destruct (DrawingState.applyClientOp _ _ _ _) as [[[b|]|e] d]; simpl;
    try by intros ?%elem_of_nil.
  destruct (Room.maybePersist _ _). simpl.
  intros [= -> _]%list_elem_of_singleton. done.
Qed.

Lemma envelopesOf_none rid (l : list (string * OpEnvelope)) :
  (∀ env, (rid, env) ∉ l) → envelopesOf rid l = [].
Proof.
  unfold envelopesOf. induction l as [|[r e] l IH]; intros H; [done|].
  rewrite filter_cons. simpl. destruct (decide (r = rid)) as [->|Hne].
  - destruct (H e). set_solver.
  - apply IH. intros env Hin. apply (H env). set_solver.
Qed.

Lemma envelopesOf_app rid (l k : list (string * OpEnvelope)) :
  envelopesOf rid (l ++ k) = envelopesOf rid l ++ envelopesOf rid k.
Proof. unfold envelopesOf. by rewrite filter_app, fmap_app. Qed.

Lemma serve_cons m msgs rooms :
  serve (m :: msgs) rooms
  = let r := Server.onMsg (in_sock m) (bound (in_room m)) (in_raw m)
               (in_apply m) (in_env m) (in_persist m) rooms in
    (Server.emitted r.1 ++ (serve msgs r.2).1, (serve msgs r.2).2).
Proof.
  simpl. destruct (onMsg _ _ _ _ _ _ _) as [out rooms1]. simpl.
  by destruct (serve msgs rooms1).
Qed.

Lemma serve_seq msgs : ∀ (rooms : gmap string Room.t) rid room,
  rooms !! rid = Some room →
  ∃ room',
    (serve msgs rooms).2 !! rid = Some room'
    ∧ env_seq <$> envelopesOf rid (serve msgs rooms).1
      = seqZ (Room.seq room + 1)
          (Z.of_nat (length (envelopesOf rid (serve msgs rooms).1)))
    ∧ Room.seq room'
      = (Room.seq room
         + Z.of_nat (length (envelopesOf rid (serve msgs rooms).1)))%Z.
Proof.
  induction msgs as [|m msgs IH]; intros rooms rid room Hroom.
  - exists room. simpl. split_and!; [done|done|lia].
  - rewrite serve_cons. cbv zeta.
    pose proof (onMsg_seq (in_sock m) (bound (in_room m)) (in_raw m) (in_apply m)
                  (in_env m) (in_persist m) rooms rid room Hroom)
      as (room1 & Hroom1 & Hcase).
    pose proof (onMsg_emitted_room (in_sock m) (bound (in_room m)) (in_raw m)
                  (in_apply m) (in_env m) (in_persist m) rooms rid) as Hem.
    destruct (onMsg _ _ _ _ _ _ rooms) as [out rooms1]. cbn [fst snd] in *.
    destruct (IH rooms1 rid room1 Hroom1) as (room' & Hroom' & Hseqs & Hfin).
    exists room'. split; [done|]. rewrite envelopesOf_app.
    destruct Hcase as [[Hs Hnone]|(Hsr & Hs & _ & env & Hemit & Henv)].
    + assert (Hno : envelopesOf rid (emitted out) = []).
      { apply envelopesOf_none. intros env Hin.
        destruct (Hnone (Hem env Hin)) as [Hnil _].
        rewrite Hnil in Hin. by apply elem_of_nil in Hin. }
      rewrite Hno, !app_nil_l. rewrite Hs in Hseqs, Hfin. done.
    + assert (Hone : envelopesOf rid (emitted out) = [env]).
      { rewrite Hemit. unfold envelopesOf. rewrite filter_cons. simpl.
        by rewrite decide_True. }
      rewrite Hone. rewrite Hs in Hseqs, Hfin.
      rewrite fmap_app, length_app, Hseqs, Hfin. simpl. rewrite Henv.
      split; [|lia].
      rewrite (seqZ_cons (Room.seq room + 1)) by lia. f_equal. f_equal; lia.
Qed.

Lemma slice0_nonempty n s :
  0 < String.length s → 0 < String.length (Validator.slice0 (S n) s).
Proof. destruct s; simpl; lia. Qed.

Lemma safeName_bounds name userId :
  0 < String.length (safeName name userId) ≤ 32.
Proof.
  assert (Hfb : 0 < String.length ("User-" +:+ Validator.slice0 4 userId) ≤ 32).
  { rewrite append_length. pose proof (slice0_length 4 userId). simpl. lia. }
  unfold safeName. destruct name as [n|]; [|done].
  destruct (0 <? String.length n)%nat; [|done]. simpl.
  destruct (0 <? String.length (trim n))%nat eqn:E; [|done].
  apply Nat.ltb_lt in E. split; [by apply slice0_nonempty|apply slice0_length].
Qed.

Lemma isEmpty_true r : Rooms.isEmpty r = true ↔ Room.users r = ∅.
Proof.
  unfold Rooms.isEmpty. rewrite bool_decide_eq_true. apply map_size_empty_iff.
Qed.

Lemma bound_Some sock_room rid :
  bound sock_room = Some rid ↔ sock_room = Some rid ∧ rid ≠ "".
Proof.
  unfold bound. destruct sock_room as [[|c r]|]; simpl.
  - split; [done|]. by intros [[= <-] ?].
  - split; [by intros [= <-]|]. by intros [[= <-] _].
  - split; [done|]. by intros [? _].
Qed.

Lemma onDisconnect_room sock rid (rooms : gmap string Room.t) room :
  rid ≠ "" →
  rooms !! rid = Some room →
  (onDisconnect sock (Some rid) rooms).1
  = (λ u, (rid, Room.userId u)) <$> (Room.users room !! sock)
  ∧ (onDisconnect sock (Some rid) rooms).2 !! rid
    = (if decide (delete sock (Room.users room) = ∅) then None
       else Some (Room.mk (Room.roomId room) (Room.seq room)
                    (delete sock (Room.users room)) (Room.drawing room)
                    (Room.lastPersistAt room)))
  ∧ ∀ other, other ≠ rid →
      (onDisconnect sock (Some rid) rooms).2 !! other = rooms !! other.
Proof.
  intros Hne Hr. unfold onDisconnect.
  rewrite (proj2 (bound_Some (Some rid) rid)) by done.
  rewrite Hr. cbn [Rooms.removeUser fst snd].
  unfold Rooms.cleanup. rewrite lookup_insert_eq.
  split; [by destruct (Room.users room !! sock)|].
  destruct (Rooms.isEmpty _) eqn:E.
  - apply isEmpty_true in E. simpl in E. rewrite decide_True by done.
    split; [by rewrite lookup_delete_eq|].
    intros other Ho. by rewrite lookup_delete_ne, lookup_insert_ne.
  - assert (delete sock (Room.users room) ≠ ∅) as Hd.
    { intros He. apply not_true_iff_false in E. apply E, isEmpty_true. done. }
    rewrite decide_False by done. split; [by rewrite lookup_insert_eq|].
    intros other Ho. by rewrite lookup_insert_ne.
Qed.

Lemma onDisconnect_unbound sock sock_room (rooms : gmap string Room.t) :
  bound sock_room = None →
  onDisconnect sock sock_room rooms = (None, rooms).
Proof. intros Hb. unfold onDisconnect. by rewrite Hb. Qed.

Lemma onCursor_Some sock sock_room raw (rooms : gmap string Room.t) rid uid x y :
  onCursor sock sock_room raw rooms = Some (rid, uid, x, y)
  ↔ sock_room = Some rid
    ∧ rid ≠ ""
    ∧ Validator.getField raw "x" = JNum x
    ∧ Validator.getField raw "y" = JNum y
    ∧ ∃ room user, rooms !! rid = Some room
                   ∧ Room.users room !! sock = Some user
                   ∧ Room.userId user = uid.
Proof.
  unfold onCursor, Room.getUser. split.
  - destruct (bound sock_room) as [r|] eqn:Hb; [|done].
    apply bound_Some in Hb as [-> Hne].
    destruct (Validator.getField raw "x") as [| | |nx| | |]; try done.
    destruct (Validator.getField raw "y") as [| | |ny| | |]; try done.
    destruct (rooms !! r) as [room|] eqn:Hr; [|done].
    destruct (Room.users room !! sock) as [user|] eqn:Hu; [|done].
    intros [= <- <- <- <-]. eauto 10.
  - intros (-> & Hne & Hx & Hy & room & user & Hr & Hu & <-).
    rewrite (proj2 (bound_Some (Some rid) rid)) by done.
    by rewrite Hx, Hy, Hr, Hu.
Qed.

Lemma onJoin_valid load rnd sock sock_room raw (rooms : gmap string Room.t) v :
  Validator.validateJoin raw = Validator.Valid v →
  let rid := Validator.roomId v in
  let room0 := roomFor load rid rooms in
  let uid := match Validator.clientId v with
             | Some cid => if (0 <? String.length cid)%nat then cid else sock
             | None => sock
             end in
  let user := Room.mkUser sock uid (safeName (Validator.name v) uid)
                (Rooms.pickColor rnd room0) (Validator.mode v) in
  let room1 := Room.mk (Room.roomId room0) (Room.seq room0)
                 (<[sock := user]> (Room.users room0)) (Room.drawing room0)
                 (Room.lastPersistAt room0) in
  let snap := DrawingState.getSnapshot (Room.drawing room0) in
  onJoin load rnd sock sock_room raw rooms
  = (mkJoinOutcome (JoinOk rid user)
       (Some (mkSync rid (Room.seq room0) (Rooms.listUsers room1)
                (DrawingState.snap_strokes snap) (DrawingState.snap_undone snap)
                (DrawingState.snap_inProgress snap)))
       (Some (rid, user)),
     Some rid, <[rid := room1]> rooms).
Proof.
  intros Hv. unfold onJoin, roomFor, Rooms.getOrCreate. rewrite Hv.
  destruct (rooms !! Validator.roomId v) as [r|] eqn:Hr; simpl; [done|].
  by rewrite insert_insert_eq.
Qed.

Lemma onJoin_invalid load rnd sock sock_room raw (rooms : gmap string Room.t) err :
  Validator.validateJoin raw = Validator.Invalid err →
  onJoin load rnd sock sock_room raw rooms
  = (mkJoinOutcome (JoinErr err) None None, sock_room, rooms).
Proof. intros Hv. unfold onJoin. by rewrite Hv. Qed.

End ServerFacts.

(** X19. A message the handler refuses changes nothing: whenever the
    acknowledgement is [{ok: false, err}], whatever the reason (not joined,
    room or user missing, payload refused, view-only sender, op refused by the
    drawing state), no envelope is emitted, nothing is written, and the rooms
    are as they were. *)
Theorem X19_refused_message_changes_nothing (sock : string)
    (sock_room : option string) (raw : JsVal) (t_apply t_env t_persist : Z)
    (rooms : gmap string Room.t) (err : string) :
  Server.ack (Server.onMsg sock sock_room raw t_apply t_env t_persist rooms).1
  = Server.AckErr err →
  Server.onMsg sock sock_room raw t_apply t_env t_persist rooms
  = (Server.mkOutcome (Server.AckErr err) [] None, rooms).
Proof. apply onMsg_error. Qed.

Lemma X19_witness :
  Server.onMsg "sock-9" None Sample.undoPayload 10 11 12 Sample.fresh_rooms
  = (Server.mkOutcome (Server.AckErr "not joined") [] None, Sample.fresh_rooms).
Proof.
  apply X19_refused_message_changes_nothing. vm_compute; reflexivity.
Defined.

(** X20. Whatever a view-only user sends to the "msg" handler is refused:
    the acknowledgement is an error, no envelope is emitted, and the rooms are
    as they were. *)
Theorem X20_view_only_user_refused (sock rid : string) (raw : JsVal)
    (t_apply t_env t_persist : Z) (rooms : gmap string Room.t)
    (room : Room.t) (user : Room.RoomUser) :
  rooms !! rid = Some room →
  Room.getUser sock room = Some user →
  Room.mode user = view →
  ∃ err,
    Server.onMsg sock (Some rid) raw t_apply t_env t_persist rooms
    = (Server.mkOutcome (Server.AckErr err) [] None, rooms).
Proof. apply onMsg_view. Qed.

Lemma X20_witness :
  ∃ err,
    Server.onMsg "sock-2" (Some "lobby") (Wire.encodeOp (Sample.start "B1"))
      10 11 12 Fixture.mixed_rooms
    = (Server.mkOutcome (Server.AckErr err) [] None, Fixture.mixed_rooms).
Proof.
  apply (X20_view_only_user_refused "sock-2" "lobby" _ 10 11 12
           Fixture.mixed_rooms
           (Room.mk "lobby" 0
              {[ "sock-1" := Sample.alice; "sock-2" := Fixture.bob ]}
              DrawingState.empty 0) Fixture.bob);
    vm_compute; reflexivity.
Defined.

(** X21. Over any run of the "msg" handler, the envelopes emitted for a room
    carry the sequence numbers [seq + 1], [seq + 2], ... in the order they are
    emitted, with no gap and none twice, where [seq] is the room's counter at
    the start; and the counter at the end is [seq] plus the number of those
    envelopes. *)
Theorem X21_envelopes_numbered_in_a_row (msgs : list Session.Incoming)
    (rooms : gmap string Room.t) (rid : string) (room : Room.t) :
  rooms !! rid = Some room →
  ∃ room',
    (Session.serve msgs rooms).2 !! rid = Some room'
    ∧ env_seq <$> Session.envelopesOf rid (Session.serve msgs rooms).1
      = seqZ (Room.seq room + 1)
          (Z.of_nat
             (length (Session.envelopesOf rid (Session.serve msgs rooms).1)))
    ∧ Room.seq room'
      = (Room.seq room
         + Z.of_nat
             (length (Session.envelopesOf rid (Session.serve msgs rooms).1)))%Z.
Proof. apply serve_seq. Qed.

Lemma X21_witness :
  env_seq <$> Session.envelopesOf "lobby"
                (Session.serve Fixture.four_messages Sample.fresh_rooms).1
  = [1; 2; 3]%Z
  ∧ ∃ room',
      (Session.serve Fixture.four_messages Sample.fresh_rooms).2 !! "lobby"
      = Some room'
      ∧ env_seq <$> Session.envelopesOf "lobby"
                      (Session.serve Fixture.four_messages Sample.fresh_rooms).1
        = seqZ (Room.seq Fixture.lobby + 1)
            (Z.of_nat
               (length (Session.envelopesOf "lobby"
                          (Session.serve Fixture.four_messages
                             Sample.fresh_rooms).1)))
      ∧ Room.seq room'
        = (Room.seq Fixture.lobby
           + Z.of_nat
               (length (Session.envelopesOf "lobby"
                          (Session.serve Fixture.four_messages
                             Sample.fresh_rooms).1)))%Z.
Proof.
  split; [vm_compute; reflexivity|].
  apply (X21_envelopes_numbered_in_a_row Fixture.four_messages
           Sample.fresh_rooms "lobby" Fixture.lobby).
  vm_compute; reflexivity.
Defined.

(** X22. When a connection of a room disconnects: the others are told the
    user id of the connection if it was a user of the room; the room stays in
    memory, without the connection and with its [seq] and drawing state
    untouched, exactly when another connection is left in it, and is dropped
    from memory otherwise; no other room changes. *)
Theorem X22_disconnect (sock rid : string) (rooms : gmap string Room.t)
    (room : Room.t) :
  rid ≠ "" →
  rooms !! rid = Some room →
  (Session.onDisconnect sock (Some rid) rooms).1
  = (λ u, (rid, Room.userId u)) <$> (Room.users room !! sock)
  ∧ (Session.onDisconnect sock (Some rid) rooms).2 !! rid
    = (if decide (delete sock (Room.users room) = ∅) then None
       else Some (Room.mk (Room.roomId room) (Room.seq room)
                    (delete sock (Room.users room)) (Room.drawing room)
                    (Room.lastPersistAt room)))
  ∧ ∀ other, other ≠ rid →
      (Session.onDisconnect sock (Some rid) rooms).2 !! other = rooms !! other.
Proof. apply onDisconnect_room. Qed.

Lemma X22_witness :
  (Session.onDisconnect "sock-1" (Some "lobby") Sample.fresh_rooms).2 !! "lobby"
  = None
  ∧ (Session.onDisconnect "sock-1" (Some "lobby") Sample.fresh_rooms).1
    = Some ("lobby", "alice").
Proof.
  split; [vm_compute; reflexivity|].
  rewrite (proj1 (X22_disconnect "sock-1" "lobby" Sample.fresh_rooms
                    Fixture.lobby ltac:(discriminate) eq_refl)).
  vm_compute; reflexivity.
Defined.

(** X23. A cursor message is passed on exactly when the socket has joined a
    room that is in memory, is a user of it, and the payload has numbers
    under [x] and [y]; it is passed on with the sender's user id and with the
    two numbers as they came, finite or not. *)
Theorem X23_cursor_forwarded (sock : string) (sock_room : option string)
    (raw : JsVal) (rooms : gmap string Room.t) (rid uid : string)
    (x y : number) :
  Session.onCursor sock sock_room raw rooms = Some (rid, uid, x, y)
  ↔ sock_room = Some rid
    ∧ rid ≠ ""
    ∧ Validator.getField raw "x" = JNum x
    ∧ Validator.getField raw "y" = JNum y
    ∧ ∃ room user, rooms !! rid = Some room
                   ∧ Room.users room !! sock = Some user
                   ∧ Room.userId user = uid.
Proof. apply onCursor_Some. Qed.

Lemma X23_witness :
  Session.onCursor "sock-1" (Some "lobby")
    (JObj [("x", JNum (Fin 1%Q)); ("y", JNum NaN)]) Sample.fresh_rooms
  = Some ("lobby", "alice", Fin 1%Q, NaN).
Proof.
  apply X23_cursor_forwarded.
  split_and!; [reflexivity|discriminate|reflexivity|reflexivity|].
  exists Fixture.lobby, Sample.alice. split_and!; reflexivity.
Defined.

(** X24. A join with an accepted payload puts the connection in the room of
    the payload: the room in memory, or else a new one built from the disk.
    The user gets the payload's mode and a name of 1 to 32 code units; the
    room keeps its [seq] and its drawing state; the joiner is sent a sync
    frame with that [seq] and the snapshot of that drawing state, after which
    its reorder buffer expects [seq + 1].  A join with a refused payload
    changes nothing. *)
Theorem X24_join (load : string → option DrawingState.Persisted) (rnd : nat)
    (sock : string) (sock_room : option string) (raw : JsVal)
    (rooms : gmap string Room.t) :
  (∀ v, Validator.validateJoin raw = Validator.Valid v →
     let rid := Validator.roomId v in
     let room0 := Session.roomFor load rid rooms in
     ∃ user room1 sync,
       Session.onJoin load rnd sock sock_room raw rooms
       = (Session.mkJoinOutcome (Session.JoinOk rid user) (Some sync)
            (Some (rid, user)),
          Some rid, <[rid := room1]> rooms)
       ∧ Room.socketId user = sock
       ∧ Room.mode user = Validator.mode v
       ∧ 0 < String.length (Room.name user) ≤ 32
       ∧ Room.users room1 = <[sock := user]> (Room.users room0)
       ∧ Room.seq room1 = Room.seq room0
       ∧ Room.drawing room1 = Room.drawing room0
       ∧ sync_roomId sync = rid
       ∧ sync_seq sync = Room.seq room0
       ∧ sync_strokes sync
         = DrawingState.snap_strokes
             (DrawingState.getSnapshot (Room.drawing room0))
       ∧ sync_undone sync
         = DrawingState.snap_undone
             (DrawingState.getSnapshot (Room.drawing room0))
       ∧ sync_inProgress sync
         = DrawingState.snap_inProgress
             (DrawingState.getSnapshot (Room.drawing room0))
       ∧ ∀ c, RealtimeClient.expectedSeq (RealtimeClient.onSync sync c)
              = (Room.seq room0 + 1)%Z)
  ∧ (∀ err, Validator.validateJoin raw = Validator.Invalid err →
       Session.onJoin load rnd sock sock_room raw rooms
       = (Session.mkJoinOutcome (Session.JoinErr err) None None,
          sock_room, rooms)).
Proof.
  split; [|intros err; apply onJoin_invalid].
  intros v Hv rid room0.
  rewrite (onJoin_valid load rnd sock sock_room raw rooms v Hv).
  eexists _, _, _. split; [reflexivity|]. cbn.
  split_and!; try done; apply safeName_bounds.
Qed.

Lemma X24_witness :
  Validator.validateJoin (Sample.joinPayload "ann-7")
  = Validator.Valid (Validator.mkJoin "lobby" (Some "Ann") edit (Some "ann-7"))
  ∧ ∃ user room1 sync,
      Session.onJoin Fixture.no_disk 0 "sock-3" None
        (Sample.joinPayload "ann-7") Sample.fresh_rooms
      = (Session.mkJoinOutcome (Session.JoinOk "lobby" user) (Some sync)
           (Some ("lobby", user)),
         Some "lobby", <["lobby" := room1]> Sample.fresh_rooms)
      ∧ Room.userId user = "ann-7"
      ∧ Room.color user = "#f97316"
      ∧ sync_seq sync = 0%Z.
Proof.
  assert (Hv : Validator.validateJoin (Sample.joinPayload "ann-7")
               = Validator.Valid
                   (Validator.mkJoin "lobby" (Some "Ann") edit (Some "ann-7")))
    by (vm_compute; reflexivity).
  split; [exact Hv|].
  destruct (proj1 (X24_join Fixture.no_disk 0 "sock-3" None
                     (Sample.joinPayload "ann-7") Sample.fresh_rooms) _ Hv)
    as (user & room1 & sync & Heq & _).
  exists user, room1, sync. split; [exact Heq|].
  pose proof (f_equal (λ o, (Session.join_ack o.1.1, Session.join_sync o.1.1))
                Heq) as H.
  vm_compute in H. injection H as <- <-.
  split_and!; reflexivity.
Defined.

(** X25. A room that is no longer in memory comes back from the disk on the
    next join: if the disk holds the export, at sequence number [n], of a
    state the room could be in, the sync frame of the join carries [n], the
    committed strokes and the undone ids of that state (in some order), and no
    stroke in progress. *)
Theorem X25_rejoin_from_disk (load : string → option DrawingState.Persisted)
    (rnd : nat) (sock : string) (sock_room : option string) (raw : JsVal)
    (rooms : gmap string Room.t) (v : Validator.JoinPayload) (n : Z)
    (s : DrawingState.t) :
  Validator.validateJoin raw = Validator.Valid v →
  rooms !! Validator.roomId v = None →
  load (Validator.roomId v) = Some (DrawingState.exportPersisted n s) →
  DrawingState.reachable s →
  ∃ sync,
    Session.join_sync
      (Session.onJoin load rnd sock sock_room raw rooms).1.1 = Some sync
    ∧ sync_seq sync = n
    ∧ sync_strokes sync
      ≡ₚ DrawingState.snap_strokes (DrawingState.getSnapshot s)
    ∧ sync_undone sync
      ≡ₚ DrawingState.snap_undone (DrawingState.getSnapshot s)
    ∧ sync_inProgress sync = [].
Proof.
  intros Hv Hnone Hload Hr.
  rewrite (onJoin_valid load rnd sock sock_room raw rooms v Hv).
  unfold Session.roomFor. rewrite Hnone, Hload. cbn.
  destruct (getSnapshot_restore n s (reachable_wf _ Hr)) as (H1 & H2 & H3).
  eexists. split; [reflexivity|]. simpl. split_and!; try done.
Qed.

Lemma X25_witness :
  ∃ sync,
    Session.join_sync
      (Session.onJoin Fixture.one_disk 0 "sock-3" None
         (Sample.joinPayload "ann-7") ∅).1.1 = Some sync
    ∧ sync_seq sync = 6%Z
    ∧ sync_strokes sync
      ≡ₚ DrawingState.snap_strokes (DrawingState.getSnapshot Sample.one_undone)
    ∧ sync_undone sync
      ≡ₚ DrawingState.snap_undone (DrawingState.getSnapshot Sample.one_undone)
    ∧ sync_inProgress sync = [].
Proof.
  apply (X25_rejoin_from_disk Fixture.one_disk 0 "sock-3" None
           (Sample.joinPayload "ann-7") ∅
           (Validator.mkJoin "lobby" (Some "Ann") edit (Some "ann-7"))
           6 Sample.one_undone).
  - vm_compute; reflexivity.
  - reflexivity.
  - reflexivity.
  - apply reachable_one_undone.
Defined.

(** ** The client's reorder buffer and mirror *)

Section ClientFacts.
Import RealtimeClient ClientRun.

Lemma applyOp_frame now op who st :
  Store.roomId (Store.applyOp now op who st) = Store.roomId st
  ∧ Store.seq (Store.applyOp now op who st) = Store.seq st.
Proof.
  destruct op as [[id tool color w x y|id pts|id]|id|id]; simpl; try done.
  - by destruct (Store.inProgress st !! id).
  - by destruct (Store.inProgress st !! id).
Qed.

Lemma applyEnvelope_frame now env st :
  Store.roomId (Store.applyEnvelope now env st) = Store.roomId st
  ∧ Store.seq (Store.applyEnvelope now env st) = env_seq env.
Proof.
  unfold Store.applyEnvelope.
  destruct (applyOp_frame now (env_op env) (env_by env)
              (Store.mk (Store.connected st) (Store.roomId st)
                 (Store.selfUserId st) (env_seq env) (Store.users st)
                 (Store.strokes st) (Store.undone st) (Store.inProgress st)))
    as [-> ->]. done.
Qed.

Lemma flush_weak fuel : ∀ clock k c,
  (∀ j e, pending c !! j = Some e → (expectedSeq c ≤ j)%Z ∧ env_seq e = j) →
  (Store.seq (store c) + 1)%Z = expectedSeq c →
  (∀ j e, pending (flush fuel clock k c) !! j = Some e →
          (expectedSeq (flush fuel clock k c) ≤ j)%Z ∧ env_seq e = j)
  ∧ (Store.seq (store (flush fuel clock k c)) + 1)%Z
    = expectedSeq (flush fuel clock k c)
  ∧ Store.roomId (store (flush fuel clock k c)) = Store.roomId (store c)
  ∧ (expectedSeq c ≤ expectedSeq (flush fuel clock k c))%Z.
Proof.
  induction fuel as [|fuel IH]; intros clock k c Hp Hs; simpl.
  - split_and!; [done|done|done|lia].
  - destruct (pending c !! expectedSeq c) as [next|] eqn:Hn.
    + destruct (Hp _ _ Hn) as [_ Hk].
      destruct (applyEnvelope_frame (clock k) next (store c)) as [Hr Hq].
      edestruct (IH clock (S k)
                   (mk (expectedSeq c + 1) (delete (expectedSeq c) (pending c))
                      (Store.applyEnvelope (clock k) next (store c))))
        as (H1 & H2 & H3 & H4).
      * simpl. intros j e Hj.
        destruct (decide (j = expectedSeq c)) as [->|Hne].
        { by rewrite lookup_delete_eq in Hj. }
        rewrite lookup_delete_ne in Hj by done.
        destruct (Hp _ _ Hj). split; [lia|done].
      * simpl. rewrite Hq. lia.
      * simpl in *. split_and!; [done|done|by rewrite H3|lia].
    + split_and!; [done|done|done|lia].
Qed.

Lemma deleteRange_lookup_ge n : ∀ from (p : gmap Z OpEnvelope) j,
  (from + Z.of_nat n ≤ j)%Z → deleteRange n from p !! j = p !! j.
Proof.
  induction n as [|n IH]; intros from p j Hj; simpl; [done|].
  rewrite IH by lia. apply lookup_delete_ne. lia.
Qed.

Lemma flush_gap clock k c :
  pending (flush (size (pending c)) clock k c)
    !! expectedSeq (flush (size (pending c)) clock k c) = None.
Proof.
  destruct (flush_run (size (pending c)) clock k c) as [Heq Hgap]; [done|].
  rewrite Heq. simpl. by rewrite deleteRange_lookup_ge.
Qed.

Lemma ok_initial : ok initial.
Proof. split; [done|done|done]. Qed.

Lemma ok_onSync sync c : ok (onSync sync c).
Proof. split; [done|done|done]. Qed.

Lemma ok_handleEnvelope clock env c : ok c → ok (handleEnvelope clock env c).
Proof.
  intros [Ha Hk Hs]. unfold handleEnvelope.
  destruct (hasRoom (store c)); cbn [negb]; [|by split].
  case_bool_decide as Hlt; [by split|].
  case_bool_decide as Hgt.
  - split; simpl; [| |done].
    + intros k e. rewrite lookup_insert. case_decide; [intros _; lia|apply Ha].
    + intros k e. rewrite lookup_insert.
      case_decide; [by intros [= <-]|apply Hk].
  - assert (Heq : env_seq env = expectedSeq c) by lia.
    destruct (applyEnvelope_frame (clock 0) env (store c)) as [Hr Hq].
    set (c1 := mk (expectedSeq c + 1) (pending c)
                 (Store.applyEnvelope (clock 0) env (store c))).
    cbv zeta. fold c1.
    destruct (flush_weak (size (pending c1)) clock 1 c1) as (H1 & H2 & _ & _).
    { simpl. intros j e Hj. split; [|by eapply Hk].
      specialize (Ha _ _ Hj). lia. }
    { simpl. rewrite Hq. lia. }
    pose proof (flush_gap clock 1 c1) as Hgap.
    split; [|intros k e Hke; by destruct (H1 _ _ Hke)|done].
    intros k e Hke. destruct (H1 _ _ Hke) as [Hle _].
    destruct (decide (k = expectedSeq (flush (size (pending c1)) clock 1 c1)))
      as [->|Hne]; [congruence|lia].
Qed.

Lemma applyAll_roomId clock l : ∀ k st,
  Store.roomId (applyAll clock k l st) = Store.roomId st.
Proof.
  induction l as [|e l IH]; intros k st; [done|]. simpl.
  rewrite IH. apply applyEnvelope_frame.
Qed.

Lemma hasRoom_applyAll clock l k st :
  hasRoom (applyAll clock k l st) = hasRoom st.
Proof. unfold hasRoom. by rewrite applyAll_roomId. Qed.

Lemma handleEnvelope_twice clock clock' env c :
  handleEnvelope clock' env (handleEnvelope clock env c)
  = handleEnvelope clock env c.
Proof.
  remember (handleEnvelope clock env c) as c' eqn:Hc'.
  unfold handleEnvelope in Hc'.
  destruct (hasRoom (store c)) eqn:Hr; cbn [negb] in Hc'.
  2:{ subst c'. unfold handleEnvelope. by rewrite Hr. }
  case_bool_decide as Hlt.
  { subst c'. unfold handleEnvelope. rewrite Hr. cbn [negb].
    by rewrite bool_decide_true. }
  case_bool_decide as Hgt.
  { subst c'. unfold handleEnvelope. simpl. rewrite Hr. cbn [negb].
    rewrite bool_decide_false, bool_decide_true by done.
    by rewrite insert_insert_eq. }
  cbv zeta in Hc'.
  set (c1 := mk (expectedSeq c + 1) (pending c)
               (Store.applyEnvelope (clock 0) env (store c))) in *.
  destruct (flush_run (size (pending c1)) clock 1 c1) as [Heq _]; [done|].
  rewrite Heq in Hc'. subst c'. unfold handleEnvelope. simpl.
  rewrite (hasRoom_applyAll clock _ 1 (Store.applyEnvelope (clock 0) env (store c))).
  change (Store.applyEnvelope (clock 0) env (store c))
    with (applyAll clock 0 [env] (store c)) at 1.
  rewrite hasRoom_applyAll, Hr. cbn [negb].
  rewrite bool_decide_true by lia. done.
Qed.

End ClientFacts.

Section MirrorFacts.
Import Mirror.

Lemma sameStroke_refl r : sameStroke r r.
Proof. by repeat split. Qed.

Lemma cloneStroke_id r : Store.cloneStroke r = r.
Proof.
  destruct r as [i u t c w pts cm ca ua]. unfold Store.cloneStroke. simpl.
  f_equal. induction pts as [|[x y] pts IH]; [done|]. simpl. by rewrite IH.
Qed.

Lemma agrees_step now clk u op d b d' st :
  agrees d st →
  DrawingState.applyClientOp now u op d = (DrawingState.Ok (Some b), d') →
  agrees d' (Store.applyOp clk b u st).
Proof.
  intros (Hc & Hp & Hu) H.
  destruct op as [[id tool color w x y|id pts|id]| |]; simpl in H.
  - destruct (DrawingState.strokes d !! id) as [?|] eqn:Hl; [done|].
    inversion H; subst; clear H. simpl. split_and!; [| |done].
    + intros k. specialize (Hc k). unfold committedOf in *. simpl.
      rewrite lookup_insert. case_decide as Hk; [|done]. subst k.
      by rewrite Hl in Hc.
    + intros k. specialize (Hp k). unfold inProgressOf in *. simpl.
      rewrite !lookup_insert. case_decide as Hk; [|done].
      constructor. by repeat split.
  - destruct (DrawingState.strokes d !! id) as [rec|] eqn:Hl; [|done].
    destruct (sr_committed rec) eqn:Hcm; [done|].
    case_bool_decide as Ho; simpl in H; [|done].
    inversion H; subst; clear H. simpl.
    pose proof (Hp id) as Hid. unfold inProgressOf in Hid. rewrite Hl, Hcm in Hid.
    destruct (Store.inProgress st !! id) as [r2|] eqn:Hr2;
      inversion Hid as [? ? Hsame|]; subst. simpl. split_and!; [| |done].
    + intros k. specialize (Hc k). unfold committedOf in *. simpl.
      rewrite lookup_insert. case_decide as Hk; [|done]. subst k.
      simpl. rewrite ?Hcm. rewrite Hl in Hc. by rewrite ?Hcm in Hc.
    + intros k. specialize (Hp k). unfold inProgressOf in *. simpl.
      rewrite !lookup_insert. case_decide as Hk; [|done]. simpl. rewrite ?Hcm.
      constructor. destruct Hsame as (?&?&?&?&?&Hpts&?).
      repeat split; simpl; try done; [by rewrite Hpts|congruence].
  - destruct (DrawingState.strokes d !! id) as [rec|] eqn:Hl; [|done].
    destruct (sr_committed rec) eqn:Hcm; [done|].
    case_bool_decide as Ho; simpl in H; [|done].
    inversion H; subst; clear H. simpl.
    pose proof (Hp id) as Hid. unfold inProgressOf in Hid. rewrite Hl, Hcm in Hid.
    destruct (Store.inProgress st !! id) as [r2|] eqn:Hr2;
      inversion Hid as [? ? Hsame|]; subst. simpl. split_and!.
    + intros k. specialize (Hc k). unfold committedOf in *. simpl.
      rewrite !lookup_insert. case_decide as Hk; [|done]. simpl.
      constructor. rewrite cloneStroke_id.
      destruct Hsame as (?&?&?&?&?&?&?). by repeat split.
    + intros k. specialize (Hp k). unfold inProgressOf in *. simpl.
      rewrite lookup_insert, lookup_delete. case_decide as Hk; [|done].
      simpl. constructor.
    + by rewrite Hu.
  - destruct (DrawingState.undoScan _ _ _ _) as [id|]; [|done].
    inversion H; subst; clear H. simpl. split_and!; [done|done|by rewrite Hu].
  - destruct (DrawingState.redoScan _ _ _) as [[id|] rest]; [|done].
    inversion H; subst; clear H. simpl. split_and!; [done|done|by rewrite Hu].
Qed.

Lemma agrees_quiet now u op d r d' st :
  agrees d st →
  DrawingState.applyClientOp now u op d = (r, d') →
  (∀ b, r ≠ DrawingState.Ok (Some b)) →
  agrees d' st.
Proof.
  intros Ha H Hnb. destruct r as [[b|]|err].
  - by destruct (Hnb b).
  - assert (DrawingState.strokes d' = DrawingState.strokes d
            ∧ DrawingState.undone d' = DrawingState.undone d) as [Hs Hu].
    { destruct op as [[id tool color w x y|id pts|id]| |]; simpl in H.
      - destruct (DrawingState.strokes d !! id); done.
      - destruct (DrawingState.strokes d !! id) as [rec|]; [|done].
        destruct (sr_committed rec); [done|]. by case_bool_decide.
      - destruct (DrawingState.strokes d !! id) as [rec|]; [|done].
        destruct (sr_committed rec); [done|]. by case_bool_decide.
      - destruct (DrawingState.undoScan _ _ _ _); [done|]. by inversion H.
      - destruct (DrawingState.redoScan _ _ _) as [[?|] ?]; [done|].
        by inversion H. }
    destruct Ha as (Hc & Hp & Hun). unfold agrees, committedOf, inProgressOf in *.
    rewrite Hs, Hu. done.
  - by rewrite (applyClientOp_err _ _ _ _ _ _ H).
Qed.

End MirrorFacts.

Section Convergence.
Import Server Session Mirror RealtimeClient ClientRun.

Lemma foldl_insert_clone (M : gmap string StrokeRecord) l :
  ∀ (acc : gmap string StrokeRecord) k,
  (∀ r, r ∈ l → M !! sr_id r = Some r) →
  foldl (λ m s, <[sr_id s := Store.cloneStroke s]> m) acc l !! k
  = if decide (k ∈ sr_id <$> l) then M !! k else acc !! k.
Proof.
  induction l as [|r l IH]; intros acc k Hl; simpl; [done|].
  rewrite IH by (intros; apply Hl; set_solver).
  destruct (decide (k ∈ sr_id <$> l)) as [Hin|Hin].
  - rewrite decide_True; [done|]. set_solver.
  - rewrite lookup_insert. case_decide as Hk.
    + rewrite decide_True by set_solver. subst k. rewrite cloneStroke_id.
      symmetry. apply Hl. set_solver.
    + rewrite decide_False; [done|]. set_solver.
Qed.

Lemma snapshot_lookup (d : DrawingState.t) (b : bool) k :
  (∀ id rec, DrawingState.strokes d !! id = Some rec → sr_id rec = id) →
  foldl (λ m s, <[sr_id s := Store.cloneStroke s]> m)
    (∅ : gmap string StrokeRecord)
    (filter (λ rec, sr_committed rec = b)
       (map_to_list (DrawingState.strokes d)).*2) !! k
  = match DrawingState.strokes d !! k with
    | Some rec => if bool_decide (sr_committed rec = b) then Some rec else None
    | None => None
    end.
Proof.
  intros W.
  assert (Hmem : ∀ r, r ∈ filter (λ rec, sr_committed rec = b)
                        (map_to_list (DrawingState.strokes d)).*2
                 ↔ sr_committed r = b ∧ DrawingState.strokes d !! sr_id r = Some r).
  { intros r. rewrite list_elem_of_filter, list_elem_of_fmap. split.
    - intros [Hc ([id r'] & -> & Hin)]. apply elem_of_map_to_list in Hin.
      simpl in *. by rewrite (W _ _ Hin).
    - intros [Hc Hl]. split; [done|]. exists (sr_id r, r). split; [done|].
      by apply elem_of_map_to_list. }
  rewrite (foldl_insert_clone (DrawingState.strokes d)) by (intros r Hr; by apply Hmem).
  rewrite lookup_empty.
  destruct (DrawingState.strokes d !! k) as [rec|] eqn:Hl.
  - pose proof (W _ _ Hl) as Hk.
    case_bool_decide as Hc.
    + rewrite decide_True; [done|]. apply list_elem_of_fmap. exists rec.
      split; [done|]. apply Hmem. by rewrite Hk.
    + rewrite decide_False; [done|]. intros Hin.
      apply list_elem_of_fmap in Hin as (r & -> & Hr). apply Hmem in Hr as [Hc' Hr].
      rewrite Hl in Hr. inversion Hr; subst. done.
  - by case_decide.
Qed.

Lemma agrees_sync d sync st :
  (∀ id rec, DrawingState.strokes d !! id = Some rec → sr_id rec = id) →
  sync_strokes sync = DrawingState.snap_strokes (DrawingState.getSnapshot d) →
  sync_undone sync = DrawingState.snap_undone (DrawingState.getSnapshot d) →
  sync_inProgress sync
  = DrawingState.snap_inProgress (DrawingState.getSnapshot d) →
  agrees d (Store.applySync sync st).
Proof.
  intros W H1 H2 H3. unfold agrees, Store.applySync.
  cbn [Store.strokes Store.inProgress Store.undone]. rewrite H1, H2, H3.
  unfold DrawingState.getSnapshot.
  cbn [DrawingState.snap_strokes DrawingState.snap_inProgress
       DrawingState.snap_undone].
  split_and!.
  - intros id. rewrite snapshot_lookup by done. unfold committedOf.
    destruct (DrawingState.strokes d !! id) as [rec|]; [|constructor].
    destruct (sr_committed rec); simpl; constructor. apply sameStroke_refl.
  - intros id. rewrite snapshot_lookup by done. unfold inProgressOf.
    destruct (DrawingState.strokes d !! id) as [rec|]; [|constructor].
    destruct (sr_committed rec); simpl; constructor. apply sameStroke_refl.
  - apply set_eq. intros k. by rewrite elem_of_list_to_set, elem_of_elements.
Qed.

Lemma agrees_seq d st n :
  agrees d st →
  agrees d (Store.mk (Store.connected st) (Store.roomId st) (Store.selfUserId st)
              n (Store.users st) (Store.strokes st) (Store.undone st)
              (Store.inProgress st)).
Proof. done. Qed.

Lemma onMsg_room sock sock_room raw t1 t2 t3 (rooms : gmap string Room.t) rid room :
  rooms !! rid = Some room →
  ∃ room',
    (onMsg sock sock_room raw t1 t2 t3 rooms).2 !! rid = Some room'
    ∧ ((envelopesOf rid (emitted (onMsg sock sock_room raw t1 t2 t3 rooms).1) = []
        ∧ Room.seq room' = Room.seq room
        ∧ ∀ st, agrees (Room.drawing room) st → agrees (Room.drawing room') st)
       ∨ (∃ env,
            envelopesOf rid (emitted (onMsg sock sock_room raw t1 t2 t3 rooms).1)
            = [env]
            ∧ env_seq env = (Room.seq room + 1)%Z
            ∧ Room.seq room' = (Room.seq room + 1)%Z
            ∧ ∀ clk st, agrees (Room.drawing room) st →
                agrees (Room.drawing room')
                  (Store.applyOp clk (env_op env) (env_by env) st))).
Proof.
  intros Hroom.
  assert (Hsame : ∀ _ : unit, ∃ room', rooms !! rid = Some room' ∧
     ((envelopesOf rid [] = [] ∧ Room.seq room' = Room.seq room
       ∧ ∀ st, agrees (Room.drawing room) st → agrees (Room.drawing room') st)
      ∨ (∃ env, envelopesOf rid [] = [env]
           ∧ env_seq env = (Room.seq room + 1)%Z
           ∧ Room.seq room' = (Room.seq room + 1)%Z
           ∧ ∀ clk st, agrees (Room.drawing room) st →
               agrees (Room.drawing room')
                 (Store.applyOp clk (env_op env) (env_by env) st)))).
  { intros _. exists room. split; [done|]. by left. }
  unfold onMsg, get.
  destruct sock_room as [r|]; [|apply (Hsame tt)].
  destruct (rooms !! r) as [room0|] eqn:Hr; [|apply (Hsame tt)].
  destruct (Room.getUser sock room0) as [user|]; [|apply (Hsame tt)].
  destruct (Validator.validateClientOp raw) as [op|err]; [|apply (Hsame tt)].
  destruct (_ && _); [apply (Hsame tt)|].
  destruct (decide (r = rid)) as [->|Hne].
  2:{ destruct (DrawingState.applyClientOp _ _ _ _) as [[[b|]|err] d]; simpl.
      - destruct (Room.maybePersist _ _) as [written room2]. simpl.
        rewrite lookup_insert_ne by done. exists room. split; [done|]. left.
        split_and!; [|done|done]. unfold envelopesOf.
        rewrite filter_cons. simpl. by rewrite decide_False.
      - rewrite lookup_insert_ne by done. exists room. split; [done|]. by left.
      - rewrite lookup_insert_ne by done. exists room. split; [done|]. by left. }
  rewrite Hroom in Hr. inversion Hr; subst room0; clear Hr.
  destruct (DrawingState.applyClientOp _ _ _ _) as [[[b|]|err] d] eqn:Ha; simpl.
  - match goal with |- context [Room.maybePersist ?t ?r] =>
      pose proof (maybePersist_seq t r) as Hs;
      pose proof (maybePersist_drawing t r) as Hd;
      destruct (Room.maybePersist t r) as [written room2]
    end.
    simpl in *. rewrite lookup_insert_eq. exists room2. split; [done|]. right.
    eexists. split_and!.
    + unfold envelopesOf. rewrite filter_cons. simpl. by rewrite decide_True.
    + done.
    + done.
    + intros clk st Hag. rewrite Hd. simpl. by eapply agrees_step.
  - rewrite lookup_insert_eq. eexists. split; [done|]. left. simpl.
    split_and!; [done|done|]. intros st Hag.
    eapply agrees_quiet; [exact Hag|exact Ha|done].
  - rewrite lookup_insert_eq. eexists. split; [done|]. left. simpl.
    split_and!; [done|done|]. intros st Hag.
    eapply agrees_quiet; [exact Hag|exact Ha|done].
Qed.

Lemma handleEnvelope_next clock env c :
  hasRoom (store c) = true → pending c = ∅ →
  env_seq env = expectedSeq c →
  handleEnvelope clock env c
  = mk (expectedSeq c + 1) ∅ (Store.applyEnvelope (clock 0%nat) env (store c)).
Proof.
  intros Hs Hp He. unfold handleEnvelope. rewrite Hs. cbn [negb].
  rewrite !bool_decide_false by lia. rewrite Hp. done.
Qed.

Lemma deliver_app clock l k c :
  deliver clock (l ++ k) c = deliver clock k (deliver clock l c).
Proof. apply foldl_app. Qed.

Lemma serve_converges msgs : ∀ (rooms : gmap string Room.t) rid room clock c,
  rooms !! rid = Some room →
  hasRoom (store c) = true →
  pending c = ∅ →
  expectedSeq c = (Room.seq room + 1)%Z →
  agrees (Room.drawing room) (store c) →
  ∃ room',
    (serve msgs rooms).2 !! rid = Some room'
    ∧ agrees (Room.drawing room')
        (store (deliver clock (envelopesOf rid (serve msgs rooms).1) c))
    ∧ expectedSeq (deliver clock (envelopesOf rid (serve msgs rooms).1) c)
      = (Room.seq room' + 1)%Z
    ∧ pending (deliver clock (envelopesOf rid (serve msgs rooms).1) c) = ∅.
Proof.
  induction msgs as [|m msgs IH]; intros rooms rid room clock c Hroom Hsy Hp He Hag.
  - exists room. by simpl.
  - rewrite serve_cons. cbv zeta.
    destruct (onMsg_room (in_sock m) (bound (in_room m)) (in_raw m) (in_apply m)
                (in_env m) (in_persist m) rooms rid room Hroom)
      as (room1 & Hroom1 & Hcase).
    destruct (onMsg _ _ _ _ _ _ rooms) as [out rooms1]. cbn [fst snd] in *.
    rewrite envelopesOf_app, deliver_app.
    destruct Hcase as [(Hnil & Hs & Hq)|(env & Hone & Henv & Hs & Hstep)].
    + rewrite Hnil. simpl.
      apply (IH rooms1 rid room1 clock c); [done|done|done|lia|by apply Hq].
    + rewrite Hone. unfold deliver at 2 4 6. simpl.
      rewrite handleEnvelope_next by (done || lia).
      destruct (applyEnvelope_frame (clock 0%nat) env (store c)) as [Hrid _].
      apply (IH rooms1 rid room1 clock); simpl.
      * done.
      * unfold hasRoom. by rewrite Hrid.
      * done.
      * lia.
      * unfold Store.applyEnvelope. apply Hstep. by apply agrees_seq.
Qed.

End Convergence.

(** X26. Whatever sync frames and envelopes reach a new client, in whatever
    order and with whatever sequence numbers: every envelope waiting in the
    reorder buffer has a sequence number above the expected one and waits
    under that number, and the store is at the envelope just before the
    expected one. *)
Theorem X26_buffer_holds_only_later_envelopes (events : list ClientRun.event) :
  ClientRun.ok (ClientRun.runEvents events RealtimeClient.initial).
Proof.
  unfold ClientRun.runEvents.
  generalize ok_initial. generalize RealtimeClient.initial.
  induction events as [|e events IH]; intros c Hc; [done|]. simpl.
  apply IH. destruct e as [sync|clock env]; simpl.
  - apply ok_onSync.
  - by apply ok_handleEnvelope.
Qed.

(** X27. An envelope that reaches the client twice in a row counts once:
    whether the first copy was ignored, buffered or applied, the second copy
    leaves the client as the first left it. *)
Theorem X27_duplicate_envelope_counts_once (clock clock' : nat → nat → Z)
    (env : OpEnvelope) (c : RealtimeClient.t) :
  RealtimeClient.handleEnvelope clock' env
    (RealtimeClient.handleEnvelope clock env c)
  = RealtimeClient.handleEnvelope clock env c.
Proof. apply handleEnvelope_twice. Qed.

(** X28. A sync frame that carries the snapshot of a drawing state makes the
    client's store show that state, whatever the store held before: the same
    committed strokes, the same strokes in progress and the same undone ids.
    The drawing state is one whose strokes are stored under their own ids, as
    they are in every state a room can be in. *)
Theorem X28_sync_shows_the_drawing (d : DrawingState.t) (sync : SyncPayload)
    (st : Store.RoomState) :
  (∀ id rec, DrawingState.strokes d !! id = Some rec → sr_id rec = id) →
  sync_strokes sync = DrawingState.snap_strokes (DrawingState.getSnapshot d) →
  sync_undone sync = DrawingState.snap_undone (DrawingState.getSnapshot d) →
  sync_inProgress sync
  = DrawingState.snap_inProgress (DrawingState.getSnapshot d) →
  Mirror.agrees d (Store.applySync sync st).
Proof. apply agrees_sync. Qed.

Lemma X28_witness :
  Mirror.agrees Sample.one_undone
    (Store.applySync
       (Fixture.syncOf (Room.mk "lobby" 6 ∅ Sample.one_undone 0))
       Store.initial).
Proof.
  apply X28_sync_shows_the_drawing.
  - apply DrawingState.wf_key, reachable_wf, reachable_one_undone.
  - reflexivity.
  - reflexivity.
  - reflexivity.
Defined.

(** X29. A client that has been synced (its store has a room id, not empty),
    shows a room's drawing state, expects the room's next sequence number and
    has nothing buffered, and that then gets, in the order they were emitted,
    the envelopes the server emits for the room over any run of the "msg"
    handler, shows the room's drawing state at the end of the run, expects the
    room's next sequence number again, and has nothing buffered. *)
Theorem X29_client_follows_server (msgs : list Session.Incoming)
    (rooms : gmap string Room.t) (rid : string) (room : Room.t)
    (clock : nat → nat → Z) (c : RealtimeClient.t) (synced : string) :
  rooms !! rid = Some room →
  Store.roomId (RealtimeClient.store c) = Some synced →
  synced ≠ "" →
  RealtimeClient.pending c = ∅ →
  RealtimeClient.expectedSeq c = (Room.seq room + 1)%Z →
  Mirror.agrees (Room.drawing room) (RealtimeClient.store c) →
  ∃ room',
    (Session.serve msgs rooms).2 !! rid = Some room'
    ∧ Mirror.agrees (Room.drawing room')
        (RealtimeClient.store
           (ClientRun.deliver clock
              (Session.envelopesOf rid (Session.serve msgs rooms).1) c))
    ∧ RealtimeClient.expectedSeq
        (ClientRun.deliver clock
           (Session.envelopesOf rid (Session.serve msgs rooms).1) c)
      = (Room.seq room' + 1)%Z
    ∧ RealtimeClient.pending
        (ClientRun.deliver clock
           (Session.envelopesOf rid (Session.serve msgs rooms).1) c)
      = ∅.
Proof.
  intros Hroom Hsy Hne. apply serve_converges; [done|].
  apply hasRoom_true. eauto.
Qed.

Lemma X29_witness :
  ∃ room',
    (Session.serve Fixture.four_messages Sample.fresh_rooms).2 !! "lobby"
    = Some room'
    ∧ Mirror.agrees (Room.drawing room')
        (RealtimeClient.store
           (ClientRun.deliver (λ _ _, 0%Z)
              (Session.envelopesOf "lobby"
                 (Session.serve Fixture.four_messages Sample.fresh_rooms).1)
              (RealtimeClient.onSync (Fixture.syncOf Fixture.lobby)
                 RealtimeClient.initial)))
    ∧ RealtimeClient.expectedSeq
        (ClientRun.deliver (λ _ _, 0%Z)
           (Session.envelopesOf "lobby"
              (Session.serve Fixture.four_messages Sample.fresh_rooms).1)
           (RealtimeClient.onSync (Fixture.syncOf Fixture.lobby)
              RealtimeClient.initial))
      = (Room.seq room' + 1)%Z
    ∧ RealtimeClient.pending
        (ClientRun.deliver (λ _ _, 0%Z)
           (Session.envelopesOf "lobby"
              (Session.serve Fixture.four_messages Sample.fresh_rooms).1)
           (RealtimeClient.onSync (Fixture.syncOf Fixture.lobby)
              RealtimeClient.initial))
      = ∅.
Proof.
  apply (X29_client_follows_server Fixture.four_messages Sample.fresh_rooms
           "lobby" Fixture.lobby (λ _ _, 0%Z) _ "lobby").
  - vm_compute; reflexivity.
  - reflexivity.
  - discriminate.
  - reflexivity.
  - reflexivity.
  - apply agrees_sync;
      [apply DrawingState.wf_key, wf_empty|reflexivity|reflexivity|reflexivity].
Defined.

(** X30. From the join on, a client follows its room.  After a join with an
    accepted payload to a room whose strokes are stored under their own ids,
    a client that takes the sync frame of the join, whatever it held before,
    and then gets in order the envelopes emitted for the room over any run of
    the "msg" handler, shows the room's drawing state at the end of the run,
    expects the room's next sequence number, and has nothing buffered. *)
Theorem X30_joiner_follows_room (load : string → option DrawingState.Persisted)
    (rnd : nat) (sock : string) (sock_room : option string) (raw : JsVal)
    (rooms : gmap string Room.t) (v : Validator.JoinPayload)
    (msgs : list Session.Incoming) (clock : nat → nat → Z)
    (c0 : RealtimeClient.t) :
  Validator.validateJoin raw = Validator.Valid v →
  (∀ id rec,
     DrawingState.strokes
       (Room.drawing (Session.roomFor load (Validator.roomId v) rooms)) !! id
     = Some rec →
     sr_id rec = id) →
  ∃ sync room',
    Session.join_sync (Session.onJoin load rnd sock sock_room raw rooms).1.1
    = Some sync
    ∧ (Session.serve msgs
         (Session.onJoin load rnd sock sock_room raw rooms).2).2
        !! Validator.roomId v
      = Some room'
    ∧ Mirror.agrees (Room.drawing room')
        (RealtimeClient.store
           (ClientRun.deliver clock
              (Session.envelopesOf (Validator.roomId v)
                 (Session.serve msgs
                    (Session.onJoin load rnd sock sock_room raw rooms).2).1)
              (RealtimeClient.onSync sync c0)))
    ∧ RealtimeClient.expectedSeq
        (ClientRun.deliver clock
           (Session.envelopesOf (Validator.roomId v)
              (Session.serve msgs
                 (Session.onJoin load rnd sock sock_room raw rooms).2).1)
           (RealtimeClient.onSync sync c0))
      = (Room.seq room' + 1)%Z
    ∧ RealtimeClient.pending
        (ClientRun.deliver clock
           (Session.envelopesOf (Validator.roomId v)
              (Session.serve msgs
                 (Session.onJoin load rnd sock sock_room raw rooms).2).1)
           (RealtimeClient.onSync sync c0))
      = ∅.
Proof.
  intros Hv W.
  rewrite (onJoin_valid load rnd sock sock_room raw rooms v Hv).
  cbn [fst snd Session.join_sync].
  match goal with
  | |- ∃ sync room', Some ?s = Some sync ∧ (Session.serve _ ?rs).2 !! ?rid = _ ∧ _ =>
      assert (Hc := serve_converges msgs rs rid _ clock
                      (RealtimeClient.onSync s c0) (lookup_insert_eq _ _ _));
      exists s; set (s0 := s) in *
  end.
  assert (Hsy : RealtimeClient.hasRoom
                  (RealtimeClient.store (RealtimeClient.onSync s0 c0)) = true).
  { apply hasRoom_true. exists (Validator.roomId v). split; [done|].
    by destruct (validateJoin_shape raw v Hv) as [Hne _]. }
  assert (Hc' := Hc Hsy eq_refl eq_refl ltac:(by apply agrees_sync)).
  destruct Hc' as (room' & H1 & H2 & H3 & H4).
  exists room'. done.
Qed.

Lemma X30_witness :
  ∃ sync room',
    Session.join_sync
      (Session.onJoin Fixture.one_disk 0 "sock-3" None
         (Sample.joinPayload "ann-7") ∅).1.1
    = Some sync
    ∧ (Session.serve
         [Session.mkIncoming "sock-3" (Some "lobby") Sample.undoPayload 50 51 52]
         (Session.onJoin Fixture.one_disk 0 "sock-3" None
            (Sample.joinPayload "ann-7") ∅).2).2
        !! "lobby"
      = Some room'
    ∧ Mirror.agrees (Room.drawing room')
        (RealtimeClient.store
           (ClientRun.deliver (λ _ _, 0%Z)
              (Session.envelopesOf "lobby"
                 (Session.serve
                    [Session.mkIncoming "sock-3" (Some "lobby")
                       Sample.undoPayload 50 51 52]
                    (Session.onJoin Fixture.one_disk 0 "sock-3" None
                       (Sample.joinPayload "ann-7") ∅).2).1)
              (RealtimeClient.onSync sync RealtimeClient.initial)))
    ∧ RealtimeClient.expectedSeq
        (ClientRun.deliver (λ _ _, 0%Z)
           (Session.envelopesOf "lobby"
              (Session.serve
                 [Session.mkIncoming "sock-3" (Some "lobby")
                    Sample.undoPayload 50 51 52]
                 (Session.onJoin Fixture.one_disk 0 "sock-3" None
                    (Sample.joinPayload "ann-7") ∅).2).1)
           (RealtimeClient.onSync sync RealtimeClient.initial))
      = (Room.seq room' + 1)%Z
    ∧ RealtimeClient.pending
        (ClientRun.deliver (λ _ _, 0%Z)
           (Session.envelopesOf "lobby"
              (Session.serve
                 [Session.mkIncoming "sock-3" (Some "lobby")
                    Sample.undoPayload 50 51 52]
                 (Session.onJoin Fixture.one_disk 0 "sock-3" None
                    (Sample.joinPayload "ann-7") ∅).2).1)
           (RealtimeClient.onSync sync RealtimeClient.initial))
      = ∅.
Proof.
  apply (X30_joiner_follows_room Fixture.one_disk 0 "sock-3" None
           (Sample.joinPayload "ann-7") ∅
           (Validator.mkJoin "lobby" (Some "Ann") edit (Some "ann-7"))
           [Session.mkIncoming "sock-3" (Some "lobby") Sample.undoPayload
              50 51 52]
           (λ _ _, 0%Z) RealtimeClient.initial).
  - vm_compute; reflexivity.
  - apply DrawingState.wf_key, (wf_restore Sample.one_undone 6), reachable_wf,
      reachable_one_undone.
Defined.
